(** * A privatized work-stealing thread pool: sequential model and proofs

    Shallow embedding of [taskflow/threadpool/privatized_threadpool.hpp]:
    the bounded run queue [RunQueue<T, N>], the victim selection of
    [BasicPrivatizedThreadpool::_steal], and the owner-side and
    submitter-side code of the pool ([spawn], [shutdown], [wait_for_all],
    [silent_async], [async], [num_tasks]), and the thread function of the
    workers.

    Conventions.
    - [unsigned] and [uint32_t] values are integers in [0, 2^32) and every
      arithmetic result is reduced with [u32]; [size_t] values are integers
      in [0, 2^64) reduced with [usize] (LP64).
    - An atomic variable is modelled by its value; one call runs without
      interference from other threads.  Where a call would have to wait for
      another thread (a held mutex, a condition variable, a join) the model
      stops with an explicit outcome instead of inventing the other thread.
    - [std::move] leaves its source in the state given by [moved_from].
    - Invoking a task or a callable, notifying a condition variable, taking
      and releasing the pool's mutex and starting a thread are recorded as
      events, in program order.
    - The body of the worker threads started by [spawn] runs concurrently
      with everything else.  It is modelled one thread at a time, like a
      member function: the thread function is cut where it blocks
      ([w.cv.wait(lock)]) or hands control to a task ([t()]), and run from
      one such point to the next on a given pool. *)

From Stdlib Require Import ZArith Znumtheory Lia String.
From stdpp Require Import base list sorting gmap.

Local Open Scope Z_scope.

(** ** Machine integers *)

Definition u32 (x : Z) : Z := x mod 2 ^ 32.
Definition usize (x : Z) : Z := x mod 2 ^ 64.

(** ** RunQueue *)

(** [enum : uint8_t { EMPTY, BUSY, READY }] *)
Inductive SlotState : Set := EMPTY | BUSY | READY.

#[global] Instance SlotState_eq_dec : EqDecision SlotState.
Proof. solve_decision. Defined.

(** [struct Entry { std::atomic<uint8_t> state; T w; }] *)
Record Entry (T : Type) : Type := mkEntry { state : SlotState; w : T }.
Arguments mkEntry {T} _ _.
Arguments state {T} _.
Arguments w {T} _.

(** The private members of [RunQueue].  [_mutex] is [true] while some
    thread holds the queue's mutex. *)
Record RunQueue (T : Type) : Type := mkRunQueue {
  _mutex : bool;
  _front : Z;
  _back  : Z;
  _array : list (Entry T)
}.
Arguments mkRunQueue {T} _ _ _ _.
Arguments _mutex {T} _.
Arguments _front {T} _.
Arguments _back {T} _.
Arguments _array {T} _.

(** [std::atomic::compare_exchange_strong(expected, desired)] on a cell that
    currently holds [cur]: success flag, new cell value, new [expected]. *)
Definition compare_exchange_strong (cur expected desired : SlotState)
  : bool * SlotState * SlotState :=
  if decide (cur = expected) then (true, desired, expected)
  else (false, cur, cur).

Section RunQueue.

Context {T : Type}.
(** what a default-constructed [T] holds, and what a moved-from [T] holds *)
Variable T_init : T.
Variable moved_from : T -> T.
(** The template parameter [N] is a power of two larger than two that
    fits [unsigned]: [N = 2 ^ log2N] with [2 <= log2N <= 31]. *)
Variable log2N : nat.

Definition N : Z := 2 ^ Z.of_nat log2N.
Definition IDX_MASK : Z := u32 (N - 1).
Definition POS_MASK : Z := u32 (u32 (Z.shiftl N 1) - 1).

(** [_array[i]].  Every index the calls use is masked with [IDX_MASK] and
    so lies below [N]; the default entry is never read on a queue built by
    the constructor. *)
Definition item (q : RunQueue T) (i : Z) : Entry T :=
  default (mkEntry EMPTY T_init) (_array q !! Z.to_nat i).

Definition store_mutex (q : RunQueue T) (b : bool) : RunQueue T :=
  mkRunQueue b (_front q) (_back q) (_array q).
Definition store_front (q : RunQueue T) (v : Z) : RunQueue T :=
  mkRunQueue (_mutex q) v (_back q) (_array q).
Definition store_back (q : RunQueue T) (v : Z) : RunQueue T :=
  mkRunQueue (_mutex q) (_front q) v (_array q).
Definition store_state (q : RunQueue T) (i : Z) (s : SlotState) : RunQueue T :=
  mkRunQueue (_mutex q) (_front q) (_back q)
    (<[Z.to_nat i := mkEntry s (w (item q i))]> (_array q)).
Definition store_w (q : RunQueue T) (i : Z) (v : T) : RunQueue T :=
  mkRunQueue (_mutex q) (_front q) (_back q)
    (<[Z.to_nat i := mkEntry (state (item q i)) v]> (_array q)).

(** [item.state.compare_exchange_strong(state, desired)] *)
Definition cas_state (q : RunQueue T) (i : Z) (expected desired : SlotState)
  : bool * RunQueue T :=
  let '(ok, v, _) := compare_exchange_strong (state (item q i)) expected desired in
  (ok, if ok then store_state q i v else q).

(** [RunQueue()] *)
Definition RunQueue_ctor : RunQueue T :=
  mkRunQueue false 0 0 (replicate (Z.to_nat N) (mkEntry EMPTY T_init)).

(** [bool empty() const] *)
Definition empty (q : RunQueue T) : bool := _front q =? _back q.

(** [bool push_front(T& w)]: result, queue afterwards, caller's [w]
    afterwards (the reference parameter is [w0] below, [w] being the
    field of [Entry]). *)
Definition push_front (q : RunQueue T) (w0 : T) : bool * RunQueue T * T :=
  let front := _front q in
  let i := Z.land front IDX_MASK in
  let state := state (item q i) in
  if negb (bool_decide (state = EMPTY)) then (false, q, w0) else
  let '(ok, q1) := cas_state q i state BUSY in
  if negb ok then (false, q1, w0) else
  let q2 := store_front q1 (Z.land (u32 (front + 1)) POS_MASK) in
  let q3 := store_w q2 i w0 in
  let q4 := store_state q3 i READY in
  (true, q4, moved_from w0).

(** [bool pop_front(T& w)] *)
Definition pop_front (q : RunQueue T) (w0 : T) : bool * RunQueue T * T :=
  if empty q then (false, q, w0) else
  let front := _front q in
  let i := Z.land (u32 (front - 1)) IDX_MASK in
  let state := state (item q i) in
  if negb (bool_decide (state = READY)) then (false, q, w0) else
  let '(ok, q1) := cas_state q i state BUSY in
  if negb ok then (false, q1, w0) else
  let q2 := store_front q1 (Z.land (u32 (front - 1)) POS_MASK) in
  let w' := w (item q2 i) in
  let q3 := store_w q2 i (moved_from w') in
  let q4 := store_state q3 i EMPTY in
  (true, q4, w').

(** [bool push_back(T& w)].  [std::scoped_lock lock(_mutex)] waits while
    the mutex is held: the model then has no result ([None]). *)
Definition push_back (q : RunQueue T) (w0 : T) : option (bool * RunQueue T * T) :=
  if _mutex q then None else
  let q := store_mutex q true in
  let back := _back q in
  let i := Z.land (u32 (back - 1)) IDX_MASK in
  let state := state (item q i) in
  if negb (bool_decide (state = EMPTY)) then Some (false, store_mutex q false, w0) else
  let '(ok, q1) := cas_state q i state BUSY in
  if negb ok then Some (false, store_mutex q1 false, w0) else
  let q2 := store_back q1 (Z.land (u32 (back - 1)) POS_MASK) in
  let q3 := store_w q2 i w0 in
  let q4 := store_state q3 i READY in
  Some (true, store_mutex q4 false, moved_from w0).

(** [bool pop_back(T& w)].  [std::try_to_lock] fails when the mutex is
    held. *)
Definition pop_back (q : RunQueue T) (w0 : T) : bool * RunQueue T * T :=
  if empty q then (false, q, w0) else
  if _mutex q then (false, q, w0) else
  let q := store_mutex q true in
  let back := _back q in
  let i := Z.land back IDX_MASK in
  let state := state (item q i) in
  if negb (bool_decide (state = READY)) then (false, store_mutex q false, w0) else
  let '(ok, q1) := cas_state q i state BUSY in
  if negb ok then (false, store_mutex q1 false, w0) else
  let w' := w (item q1 i) in
  let q2 := store_w q1 i (moved_from w') in
  let q3 := store_back q2 (Z.land (u32 (back + 1)) POS_MASK) in
  let q4 := store_state q3 i EMPTY in
  (true, store_mutex q4 false, w').

(** Number of slots that hold a live task. *)
Definition num_ready (q : RunQueue T) : Z :=
  Z.of_nat (length (filter (fun e => state e = READY) (_array q))).

(** Number of tasks between the two cursors. *)
Definition cursor_count (q : RunQueue T) : Z :=
  (_front q - _back q) mod (2 * N).

(** Representation invariant of a queue whose calls do not overlap: the
    mutex is free between calls, the cursors are positions modulo [2 * N],
    and the [READY] slots are exactly those from [_back] up to [_front];
    no slot is left [BUSY]. *)
Record Inv (q : RunQueue T) : Prop := mkInv {
  inv_mutex  : _mutex q = false;
  inv_front  : 0 <= _front q < 2 * N;
  inv_back   : 0 <= _back q < 2 * N;
  inv_length : length (_array q) = Z.to_nat N;
  inv_count  : cursor_count q <= N;
  inv_slots  : forall j, 0 <= j < N ->
      state (item q j) =
        if decide ((j - _back q) mod N < cursor_count q) then READY else EMPTY;
  inv_ready  : num_ready q = cursor_count q
}.

(** The four calls, and one call applied to a queue with reference
    argument [w0]; [None] when the call has to wait for the mutex. *)
Inductive Op : Set := PushFront | PopFront | PushBack | PopBack.

Definition apply_op (op : Op) (q : RunQueue T) (w0 : T)
  : option (bool * RunQueue T * T) :=
  match op with
  | PushFront => Some (push_front q w0)
  | PopFront => Some (pop_front q w0)
  | PushBack => push_back q w0
  | PopBack => Some (pop_back q w0)
  end.

(** A sequential history of calls on one queue, starting from the
    constructor: each call runs to completion before the next starts. *)
Definition run_call (q : RunQueue T) (c : Op * T) : RunQueue T :=
  match apply_op c.1 q c.2 with
  | Some r => r.1.2
  | None => q
  end.

Definition run_calls (cs : list (Op * T)) : RunQueue T :=
  foldl run_call RunQueue_ctor cs.

(** The tasks a queue holds, read from the slot under [_back] up to the
    slot before [_front]: the order in which [pop_back] would hand them
    out. *)
Definition contents (q : RunQueue T) : list T :=
  (fun d => w (item q ((_back q + d) mod N))) <$> seqZ 0 (cursor_count q).

(** [n] calls of [pop_front], stopping at the first that returns false:
    the tasks handed out, in order, and the queue afterwards. *)
Fixpoint drain_front (n : nat) (q : RunQueue T) : list T * RunQueue T :=
  match n with
  | O => ([], q)
  | S n' =>
      let '(ok, q', v) := pop_front q T_init in
      if ok then let '(l, q'') := drain_front n' q' in (v :: l, q'')
      else ([], q')
  end.

(** the same with [pop_back] *)
Fixpoint drain_back (n : nat) (q : RunQueue T) : list T * RunQueue T :=
  match n with
  | O => ([], q)
  | S n' =>
      let '(ok, q', v) := pop_back q T_init in
      if ok then let '(l, q'') := drain_back n' q' in (v :: l, q'')
      else ([], q')
  end.


End RunQueue.

(** ** Victim selection *)

(** [void _xorshift32(uint32_t& x)] *)
Definition _xorshift32 (x : Z) : Z :=
  let x := Z.lxor x (u32 (Z.shiftl x 13)) in
  let x := Z.lxor x (Z.shiftr x 17) in
  let x := Z.lxor x (u32 (Z.shiftl x 5)) in
  x.

(** [uint32_t dice = i+1;] in the thread body started by [spawn], [i] being
    the [size_t] index of the worker. *)
Definition worker_seed (i : Z) : Z := u32 (usize (i + 1)).

(** The loop of [spawn] that fills [_coprimes]:
    [for(size_t i=1; i<=W; i++) if(std::gcd(i, W) == 1) push_back(i)].
    [n] counts the iterations that are left: [W] of them when the loop is
    entered, for every [W] below [SIZE_MAX]. *)
Fixpoint coprimes_loop (n : nat) (i W : Z) (acc : list Z) : list Z :=
  match n with
  | O => acc
  | S n' =>
      if i <=? W
      then coprimes_loop n' (usize (i + 1)) W
             (if Z.gcd i W =? 1 then acc ++ [i] else acc)
      else acc
  end.

Definition compute_coprimes (W : Z) : list Z :=
  coprimes_loop (Z.to_nat W) 1 W [].

(** The two statements of [_steal] that move to the next victim:
    [victim += inc; if(victim >= queue_num) victim -= queue_num;] *)
Definition next_victim (queue_num inc victim : Z) : Z :=
  let victim := usize (victim + inc) in
  if victim >=? queue_num then usize (victim - queue_num) else victim.

(** The victims probed by [n] iterations of the loop of [_steal] when no
    [pop_back] succeeds. *)
Fixpoint victim_walk (n : nat) (queue_num inc victim : Z) : list Z :=
  match n with
  | O => []
  | S n' => victim :: victim_walk n' queue_num inc (next_victim queue_num inc victim)
  end.

(** ** The pool *)

Definition thread_id : Set := nat.

(** [TaskType = Func<void()>]: the callables the pool stores. *)
Inductive TaskType (Callable : Type) : Type :=
| task_null                      (* [TaskType{nullptr}] *)
| task_of (c : Callable)         (* [TaskType{std::forward<C>(c)}] *)
| task_promise (c : Callable)    (* the lambda of [async]: runs [c], fulfils the promise *)
| task_dummy.                    (* [[](){}] pushed by [shutdown] *)
Arguments task_null {Callable}.
Arguments task_of {Callable} _.
Arguments task_promise {Callable} _.
Arguments task_dummy {Callable}.

(** [using WorkQueue = RunQueue<TaskType, 1024>] *)
Definition WorkQueue_log2N : nat := 10.

(** [struct Worker { std::condition_variable cv; WorkQueue queue; }].  A
    condition variable holds no data; notifying it is an event. *)
Record Worker (Callable : Type) : Type := mkWorker {
  queue : RunQueue (TaskType Callable)
}.
Arguments mkWorker {Callable} _.
Arguments queue {Callable} _.

(** The data members of [BasicPrivatizedThreadpool]. *)
Record Pool (Callable : Type) : Type := mkPool {
  _task_queue   : list (TaskType Callable);
  _threads      : list thread_id;
  _idle_workers : Z;
  _worker_map   : gmap thread_id Z;
  _owner        : thread_id;
  _exiting      : bool;
  _wait_for_all : bool;
  _works        : list (Worker Callable);
  _next_queue   : Z;
  _sync         : bool;
  _coprimes     : list Z
}.
Arguments mkPool {Callable} _ _ _ _ _ _ _ _ _ _ _.
Arguments _task_queue {Callable} _.
Arguments _threads {Callable} _.
Arguments _idle_workers {Callable} _.
Arguments _worker_map {Callable} _.
Arguments _owner {Callable} _.
Arguments _exiting {Callable} _.
Arguments _wait_for_all {Callable} _.
Arguments _works {Callable} _.
Arguments _next_queue {Callable} _.
Arguments _sync {Callable} _.
Arguments _coprimes {Callable} _.

(** What a call does besides changing the pool's members. *)
Inductive Event (Callable R : Type) : Type :=
| EvInvoke (tid : thread_id) (t : TaskType Callable)  (* [t()] on thread [tid] *)
| EvCall (tid : thread_id) (c : Callable)             (* [c()] on thread [tid] *)
| EvSetValue (r : R)                                  (* [p.set_value(r)] *)
| EvLock                                              (* the pool's [_mutex] is taken *)
| EvUnlock                                            (* the pool's [_mutex] is released *)
| EvNotifyWorker (i : Z)                              (* [_works[i]->cv.notify_one()] *)
| EvThreadStart (tid : thread_id) (i : Z)             (* a worker thread is started *)
| EvProbe (victim : Z).                               (* [_steal] called [pop_back] on [victim] *)
Arguments EvInvoke {Callable R} _ _.
Arguments EvCall {Callable R} _ _.
Arguments EvSetValue {Callable R} _.
Arguments EvLock {Callable R}.
Arguments EvUnlock {Callable R}.
Arguments EvNotifyWorker {Callable R} _.
Arguments EvThreadStart {Callable R} _ _.
Arguments EvProbe {Callable R} _.

(** Where a call has to wait for another thread. *)
Inductive WaitPoint : Set :=
| OnEmptyCv          (* [_empty_cv.wait(lock)] *)
| OnQueueMutex       (* the mutex of a run queue, in [push_back] *)
| OnJoin.            (* [t.join()] *)

(** How a call ends in the model. *)
Inductive Outcome (A : Type) : Type :=
| Returned (a : A)
| Threw (what : string)        (* [throw std::runtime_error(what)] *)
| Waits (at_ : WaitPoint)
| Undefined.                   (* out-of-range [operator[]], [%] by zero *)
Arguments Returned {A} _.
Arguments Threw {A} _.
Arguments Waits {A} _.
Arguments Undefined {A}.

Section Pool.

Context {Callable R : Type}.
(** the value a callable returns when invoked *)
Variable call : Callable -> R.
(** what [std::move] leaves behind in a [TaskType] *)
Variable moved_from : TaskType Callable -> TaskType Callable.

Abbreviation Task := (TaskType Callable).
Abbreviation St := (Pool Callable * list (Event Callable R))%type.
Abbreviation wq_push_front := (push_front (@task_null Callable) moved_from WorkQueue_log2N).
Abbreviation wq_push_back := (push_back (@task_null Callable) moved_from WorkQueue_log2N).
Abbreviation wq_pop_back := (pop_back (@task_null Callable) moved_from WorkQueue_log2N).
Abbreviation wq_pop_front := (pop_front (@task_null Callable) moved_from WorkQueue_log2N).

(** *** A state and error monad for member functions *)

Definition M (A : Type) : Type := St -> Outcome A * St.

Definition ret {A} (a : A) : M A := fun s => (Returned a, s).
Definition bind {A B} (m : M A) (k : A -> M B) : M B :=
  fun s =>
    match m s with
    | (Returned a, s') => k a s'
    | (Threw e, s') => (Threw e, s')
    | (Waits x, s') => (Waits x, s')
    | (Undefined, s') => (Undefined, s')
    end.
Definition get : M (Pool Callable) := fun s => (Returned s.1, s).
Definition modify (f : Pool Callable -> Pool Callable) : M unit :=
  fun s => (Returned tt, (f s.1, s.2)).
Definition emit (e : Event Callable R) : M unit :=
  fun s => (Returned tt, (s.1, s.2 ++ [e])).
Definition throw {A} (what : string) : M A := fun s => (Threw what, s).
Definition wait_at {A} (x : WaitPoint) : M A := fun s => (Waits x, s).
Definition undefined {A} : M A := fun s => (Undefined, s).

Notation "x <- m ;; k" := (bind m (fun x => k))
  (at level 100, m at next level, right associativity).
Notation "m ;; k" := (bind m (fun _ => k))
  (at level 100, right associativity).

(** a range-based or counting [for] loop *)
Fixpoint for_each {A} (l : list A) (body : A -> M unit) : M unit :=
  match l with
  | [] => ret tt
  | x :: l' => body x ;; for_each l' body
  end.

(** run a member function on a pool, with an empty event log *)
Definition run {A} (m : M A) (p : Pool Callable) : Outcome A * St := m (p, []).

(** *** Member updates *)

Definition set_task_queue (v : list Task) (p : Pool Callable) : Pool Callable :=
  mkPool v (_threads p) (_idle_workers p) (_worker_map p) (_owner p) (_exiting p)
    (_wait_for_all p) (_works p) (_next_queue p) (_sync p) (_coprimes p).
Definition set_threads (v : list thread_id) (p : Pool Callable) : Pool Callable :=
  mkPool (_task_queue p) v (_idle_workers p) (_worker_map p) (_owner p) (_exiting p)
    (_wait_for_all p) (_works p) (_next_queue p) (_sync p) (_coprimes p).
Definition set_worker_map (v : gmap thread_id Z) (p : Pool Callable) : Pool Callable :=
  mkPool (_task_queue p) (_threads p) (_idle_workers p) v (_owner p) (_exiting p)
    (_wait_for_all p) (_works p) (_next_queue p) (_sync p) (_coprimes p).
Definition set_exiting (v : bool) (p : Pool Callable) : Pool Callable :=
  mkPool (_task_queue p) (_threads p) (_idle_workers p) (_worker_map p) (_owner p) v
    (_wait_for_all p) (_works p) (_next_queue p) (_sync p) (_coprimes p).
Definition set_wait_for_all (v : bool) (p : Pool Callable) : Pool Callable :=
  mkPool (_task_queue p) (_threads p) (_idle_workers p) (_worker_map p) (_owner p)
    (_exiting p) v (_works p) (_next_queue p) (_sync p) (_coprimes p).
Definition set_works (v : list (Worker Callable)) (p : Pool Callable) : Pool Callable :=
  mkPool (_task_queue p) (_threads p) (_idle_workers p) (_worker_map p) (_owner p)
    (_exiting p) (_wait_for_all p) v (_next_queue p) (_sync p) (_coprimes p).
Definition set_next_queue (v : Z) (p : Pool Callable) : Pool Callable :=
  mkPool (_task_queue p) (_threads p) (_idle_workers p) (_worker_map p) (_owner p)
    (_exiting p) (_wait_for_all p) (_works p) v (_sync p) (_coprimes p).
Definition set_sync (v : bool) (p : Pool Callable) : Pool Callable :=
  mkPool (_task_queue p) (_threads p) (_idle_workers p) (_worker_map p) (_owner p)
    (_exiting p) (_wait_for_all p) (_works p) (_next_queue p) v (_coprimes p).
Definition set_coprimes (v : list Z) (p : Pool Callable) : Pool Callable :=
  mkPool (_task_queue p) (_threads p) (_idle_workers p) (_worker_map p) (_owner p)
    (_exiting p) (_wait_for_all p) (_works p) (_next_queue p) (_sync p) v.

(** [_works[i]] *)
Definition works_at (i : Z) : M (Worker Callable) :=
  p <- get ;;
  match _works p !! Z.to_nat i with
  | Some wk => ret wk
  | None => undefined
  end.

(** the queue of [_works[i]] after a call on it *)
Definition set_queue (i : Z) (q : RunQueue Task) : M unit :=
  modify (fun p => set_works (<[Z.to_nat i := mkWorker q]> (_works p)) p).

(** *** Observers *)

(** [size_t num_tasks() const] *)
Definition num_tasks (p : Pool Callable) : Z := Z.of_nat (length (_task_queue p)).

(** [size_t num_workers() const] *)
Definition num_workers (p : Pool Callable) : Z := Z.of_nat (length (_threads p)).

(** [bool is_owner() const], called on thread [self] *)
Definition is_owner (self : thread_id) (p : Pool Callable) : bool :=
  bool_decide (self = _owner p).

(** *** Submission *)

(** [{ std::scoped_lock lock(_mutex); _task_queue.push_back(std::move(t)); }] *)
Definition overflow_push (t : Task) : M unit :=
  emit EvLock ;;
  modify (fun p => set_task_queue (_task_queue p ++ [t]) p) ;;
  emit EvUnlock.

(** [void silent_async(C&& c)] called on thread [self]; [t] is the
    [TaskType t {std::forward<C>(c)}] built on entry. *)
Definition silent_async (self : thread_id) (t : Task) : M unit :=
  p <- get ;;
  if num_workers p =? 0 then emit (EvInvoke self t)
  else
    match (if negb (is_owner self p) then _worker_map p !! self else None) with
    | Some idx =>
        wk <- works_at idx ;;
        let '(ok, q', t') := wq_push_front (queue wk) t in
        set_queue idx q' ;;
        if negb ok then overflow_push t' else ret tt
    | None =>
        modify (fun p => set_next_queue (usize (_next_queue p + 1)) p) ;;
        p <- get ;;
        let size := Z.of_nat (length (_works p)) in
        if size =? 0 then undefined else
        let id := _next_queue p mod size in
        wk <- works_at id ;;
        match wq_push_back (queue wk) t with
        | None => wait_at OnQueueMutex
        | Some (ok, q', t') =>
            set_queue id q' ;;
            (if negb ok then overflow_push t' else ret tt) ;;
            emit (EvNotifyWorker id)
        end
    end.

(** [auto async(C&& c)] called on thread [self].  The result is the state
    of the returned future when [async] returns: [Some r] if it already
    holds [r], [None] if its value is still to be set.  [R = void] is the
    instance [R = unit]. *)
Definition async (self : thread_id) (c : Callable) : M (option R) :=
  p <- get ;;
  if num_workers p =? 0 then
    emit (EvCall self c) ;;
    emit (EvSetValue (call c)) ;;
    ret (Some (call c))
  else
    silent_async self (task_promise c) ;;
    ret None.

(** *** Quiescence and life cycle *)

(** [for(const auto& w : _works) w->cv.notify_one();] *)
Definition notify_all_workers : M unit :=
  p <- get ;;
  for_each (seqZ 0 (Z.of_nat (length (_works p)))) (fun i => emit (EvNotifyWorker i)).

(** [while(!_sync) _empty_cv.wait(lock);]: goes on at once if [_sync] is
    already set, waits for a worker to set it otherwise. *)
Definition await_sync : M unit :=
  p <- get ;;
  if _sync p then ret tt else wait_at OnEmptyCv.

(** the statements of [wait_for_all] after the wait *)
Definition wait_for_all_tail : M unit :=
  modify (set_sync false) ;;
  modify (set_wait_for_all false) ;;
  emit EvUnlock.

(** [void wait_for_all()] called on thread [self] *)
Definition wait_for_all (self : thread_id) : M unit :=
  p <- get ;;
  if negb (is_owner self p) then throw "Worker thread cannot wait for all"
  else if num_workers p =? 0 then ret tt
  else
    emit EvLock ;;
    modify (set_wait_for_all true) ;;
    notify_all_workers ;;
    await_sync ;;
    wait_for_all_tail.

(** the statements of [shutdown] after the threads are joined *)
Definition shutdown_tail : M unit :=
  modify (set_threads []) ;;
  modify (set_works []) ;;
  modify (set_worker_map ∅) ;;
  modify (set_wait_for_all false) ;;
  modify (set_exiting false).

(** [for(auto& t : _threads) t.join();]: a join waits for the thread. *)
Definition join_all : M unit :=
  p <- get ;;
  match _threads p with
  | [] => ret tt
  | _ :: _ => wait_at OnJoin
  end.

(** [void shutdown()] called on thread [self] *)
Definition shutdown (self : thread_id) : M unit :=
  p <- get ;;
  if negb (is_owner self p) then throw "Worker thread cannot shut down the pool"
  else if bool_decide (_threads p = []) then ret tt
  else
    emit EvLock ;;
    modify (set_wait_for_all true) ;;
    notify_all_workers ;;
    await_sync ;;
    modify (set_sync false) ;;
    modify (set_exiting true) ;;
    (p <- get ;;
     for_each (seqZ 0 (Z.of_nat (length (_works p))))
       (fun i =>
          wk <- works_at i ;;
          match wq_push_back (queue wk) task_dummy with
          | None => wait_at OnQueueMutex
          | Some (_, q', _) => set_queue i q' ;; emit (EvNotifyWorker i)
          end)) ;;
    emit EvUnlock ;;
    join_all ;;
    shutdown_tail.

(** the statements of [spawn] from [const size_t sz = _threads.size()] on;
    [fresh i] is the id of the thread started by iteration [i] *)
Definition spawn_body (fresh : Z -> thread_id) (N : Z) : M unit :=
  p <- get ;;
  let sz := Z.of_nat (length (_threads p)) in
  emit EvLock ;;
  modify (set_coprimes (compute_coprimes (usize (sz + N)))) ;;
  for_each (seqZ 0 N)
    (fun _ => modify (fun p => set_works
                (_works p ++ [mkWorker (RunQueue_ctor task_null WorkQueue_log2N)]) p)) ;;
  for_each (seqZ 0 N)
    (fun i =>
       modify (fun p => set_threads (_threads p ++ [fresh i]) p) ;;
       emit (EvThreadStart (fresh i) (usize (i + sz))) ;;
       modify (fun p => set_worker_map
                 (match _worker_map p !! fresh i with
                  | Some _ => _worker_map p
                  | None => <[fresh i := usize (i + sz)]> (_worker_map p)
                  end) p)) ;;
  emit EvUnlock.

(** [void spawn(unsigned N)] called on thread [self] *)
Definition spawn (self : thread_id) (fresh : Z -> thread_id) (N : Z) : M unit :=
  p <- get ;;
  if negb (is_owner self p) then throw "Worker thread cannot spawn threads"
  else
    (if negb (bool_decide (_threads p = [])) then wait_for_all self else ret tt) ;;
    spawn_body fresh N.

(** *** Stealing *)

(** the [for] loop of [_steal], [n] iterations left *)
Fixpoint steal_loop (n : nat) (queue_num inc victim : Z) (w0 : Task) : M (bool * Task) :=
  match n with
  | O => ret (false, w0)
  | S n' =>
      wk <- works_at victim ;;
      emit (EvProbe victim) ;;
      let '(ok, q', w') := wq_pop_back (queue wk) w0 in
      set_queue victim q' ;;
      if ok then ret (true, w')
      else steal_loop n' queue_num inc (next_victim queue_num inc victim) w'
  end.

(** [bool _steal(TaskType& w, uint32_t& dice)]: result, [w] and [dice]
    afterwards *)
Definition _steal (w0 : Task) (dice : Z) : M (bool * Task * Z) :=
  let dice := _xorshift32 dice in
  p <- get ;;
  let size := Z.of_nat (length (_coprimes p)) in
  if size =? 0 then undefined else
  match _coprimes p !! Z.to_nat (dice mod size) with
  | None => undefined
  | Some inc =>
      let queue_num := num_workers p in
      if queue_num =? 0 then undefined else
      let victim := dice mod queue_num in
      r <- steal_loop (Z.to_nat queue_num) queue_num inc victim w0 ;;
      ret (r.1, r.2, dice)
  end.

(** *** Consistency of the worker tables *)

(** What [spawn] establishes and no other member function breaks: one
    [Worker] per thread, and [_worker_map] sends thread ids to indices of
    existing workers. *)
Definition pool_wf (p : Pool Callable) : Prop :=
  length (_works p) = length (_threads p) /\
  forall (tid : thread_id) (i : Z),
    _worker_map p !! tid = Some i -> 0 <= i < Z.of_nat (length (_threads p)).

(** one iteration of the loop of [spawn] that adds a [Worker] *)
Definition spawn_add_worker (p : Pool Callable) : Pool Callable :=
  set_works (_works p ++ [mkWorker (RunQueue_ctor task_null WorkQueue_log2N)]) p.

(** iteration [i] of the loop of [spawn] that starts a thread, as a change
    of the members; [sz] is the number of threads before [spawn] *)
Definition spawn_start_thread (fresh : Z -> thread_id) (sz : Z)
    (p : Pool Callable) (i : Z) : Pool Callable :=
  set_worker_map
    (match _worker_map p !! fresh i with
     | Some _ => _worker_map p
     | None => <[fresh i := usize (i + sz)]> (_worker_map p)
     end)
    (set_threads (_threads p ++ [fresh i]) p).


(** the members after [spawn(N)] went through its three loops *)
Definition spawned (fresh : Z -> thread_id) (N : Z) (p : Pool Callable) : Pool Callable :=
  let sz := Z.of_nat (length (_threads p)) in
  foldl (spawn_start_thread fresh sz)
    (foldl (fun p _ => spawn_add_worker p)
       (set_coprimes (compute_coprimes (usize (sz + N))) p) (seqZ 0 N))
    (seqZ 0 N).

(** the worker tables of [p'] are those of [p], up to the contents of the
    run queues *)
Definition tables_kept (p p' : Pool Callable) : Prop :=
  length (_works p') = length (_works p) /\
  _threads p' = _threads p /\
  _worker_map p' = _worker_map p.

(** a member function that keeps the worker tables, however it ends *)
Definition keeps {A} (m : M A) : Prop :=
  forall s o s', m s = (o, s') -> tables_kept s.1 s'.1.


(** *** Construction *)

(** the members as their default initializers leave them, on the
    constructing thread [self] *)
Definition Pool_init (self : thread_id) : Pool Callable :=
  mkPool [] [] 0 ∅ self false false [] 0 false [].

(** [BasicPrivatizedThreadpool(unsigned N) { spawn(N); }] on thread [self] *)
Definition Pool_ctor (self : thread_id) (fresh : Z -> thread_id) (N : Z)
  : Outcome unit * St :=
  run (spawn self fresh N) (Pool_init self).

(** the workers whose condition variable a call notified, in order *)
Definition notified (tr : list (Event Callable R)) : list Z :=
  omap (fun e => match e with EvNotifyWorker i => Some i | _ => None end) tr.

(** the victims a call of [_steal] probed, in order *)
Definition probed (tr : list (Event Callable R)) : list Z :=
  omap (fun e => match e with EvProbe v => Some v | _ => None end) tr.


(** *** The sweep of the last worker to go idle *)

(** the loop of [_nonempty_queue], [n] iterations left, at index [i] *)
Fixpoint nonempty_loop (n : nat) (i : Z) (ws : list (Worker Callable)) : Z :=
  match n with
  | O => Z.of_nat (length ws)
  | S n' =>
      match ws !! Z.to_nat i with
      | Some wk => if negb (empty (queue wk)) then i else nonempty_loop n' (i + 1) ws
      | None => Z.of_nat (length ws)
      end
  end.

(** [size_t _nonempty_queue() const] *)
Definition _nonempty_queue (p : Pool Callable) : Z :=
  nonempty_loop (length (_works p)) 0 (_works p).

(** *** Counting the tasks a pool holds *)

(** tasks in the private run queues *)
Definition total_ready (ws : list (Worker Callable)) : Z :=
  foldr Z.add 0 ((fun wk => num_ready (queue wk)) <$> ws).

(** tasks waiting anywhere in the pool: overflow queue and run queues *)
Definition pending (p : Pool Callable) : Z :=
  num_tasks p + total_ready (_works p).

(** every run queue is in a state a sequential history can leave *)
Definition queues_ok (p : Pool Callable) : Prop :=
  Forall (fun wk => Inv task_null WorkQueue_log2N (queue wk)) (_works p).

(** *** Properties of member functions that compose along [bind] *)

(** whatever way [m] ends, the pool before and the pool after are related
    by [Rel] *)
Definition preserves {A} (Rel : Pool Callable -> Pool Callable -> Prop) (m : M A) : Prop :=
  forall s o s', m s = (o, s') -> Rel s.1 s'.1.

(** [m] only appends to the event log, and does not read it *)
Definition framed {A} (m : M A) : Prop :=
  forall p tr, m (p, tr) = ((m (p, [])).1, ((m (p, [])).2.1, tr ++ (m (p, [])).2.2)).

(** what the life-cycle functions leave alone *)
Definition submissions_kept (p p' : Pool Callable) : Prop :=
  _task_queue p' = _task_queue p /\
  _next_queue p' = _next_queue p /\
  _owner p' = _owner p.


(** one iteration of the loop of [shutdown] that pushes [[](){}] onto the
    queue of worker [i], as a change of the members *)
Definition push_terminator (p : Pool Callable) (i : Z) : Pool Callable :=
  match _works p !! Z.to_nat i with
  | Some wk =>
      match wq_push_back (queue wk) task_dummy with
      | Some (_, q', _) => set_works (<[Z.to_nat i := mkWorker q']> (_works p)) p
      | None => p
      end
  | None => p
  end.


(** *** The thread function of a worker *)

Definition set_idle_workers (v : Z) (p : Pool Callable) : Pool Callable :=
  mkPool (_task_queue p) (_threads p) v (_worker_map p) (_owner p) (_exiting p)
    (_wait_for_all p) (_works p) (_next_queue p) (_sync p) (_coprimes p).

(** [if(t)] on a [TaskType] *)
Definition holds_target (t : Task) : bool :=
  match t with
  | task_null => false
  | _ => true
  end.

(** The places at which the thread function of a worker is entered:
    the head of its outer loop, and the statements that follow the two
    calls it blocks in or hands control to. *)
Inductive WorkerPc : Set :=
| AtLoopHead      (* the test of [while(!_exiting)] *)
| AtIdleTest      (* the test of the inner [while] *)
| AfterCvWait     (* [w.cv.wait(lock)] has returned *)
| AfterTask.      (* [t()] has returned *)

(** The places at which it stops. *)
Inductive WorkerStop : Set :=
| StopTask                       (* at [t()], [_mutex] released *)
| StopCvWait (signalled : bool)  (* in [w.cv.wait(lock)]; [signalled]: this pass
                                    called [_empty_cv.notify_one()] *)
| StopExit                       (* [_exiting] was set: the thread function has returned *)
| StopFuel.                      (* still running after [n] jumps *)

(** The thread function is cut at its jumps; [head] and [idle] stand for
    what follows a jump to the head of the outer and of the inner loop.
    Each piece returns the stop reached and the locals [t] and [dice]
    there. *)

(** [if(t){ _mutex.unlock(); t(); ... }], the last statement of the outer
    loop: stops at [t()] when [t] holds a target, jumps to the head
    otherwise *)
Definition worker_dispatch (head : Task -> Z -> M (WorkerStop * Task * Z))
    (t : Task) (dice : Z) : M (WorkerStop * Task * Z) :=
  if holds_target t then emit EvUnlock ;; ret (StopTask, t, dice)
  else head t dice.

(** the inner loop from its test
    [!w.queue.pop_front(t) && _task_queue.empty()] up to the wait *)
Definition worker_idle (head idle : Task -> Z -> M (WorkerStop * Task * Z))
    (i : Z) (t : Task) (dice : Z) : M (WorkerStop * Task * Z) :=
  wk <- works_at i ;;
  let '(ok, q', t) := wq_pop_front (queue wk) t in
  set_queue i q' ;;
  if ok then worker_dispatch head t dice else
  p <- get ;;
  if negb (bool_decide (_task_queue p = [])) then worker_dispatch head t dice else
  modify (fun p => set_idle_workers (usize (_idle_workers p + 1)) p) ;;
  p <- get ;;
  if (_idle_workers p =? num_workers p) && _wait_for_all p then
    let r := _nonempty_queue p in
    if r =? num_workers p then
      modify (set_sync true) ;;
      ret (StopCvWait true, t, dice)
    else if r =? i then
      modify (fun p => set_idle_workers (usize (_idle_workers p - 1)) p) ;;
      idle t dice
    else
      works_at r ;;
      emit (EvNotifyWorker r) ;;
      ret (StopCvWait false, t, dice)
  else ret (StopCvWait false, t, dice).

(** the outer loop from its test [!_exiting]; when the loop is left the
    thread function returns and the destructor of [lock] releases [_mutex] *)
Definition worker_pass (head idle : Task -> Z -> M (WorkerStop * Task * Z))
    (i : Z) (t : Task) (dice : Z) : M (WorkerStop * Task * Z) :=
  p <- get ;;
  if _exiting p then emit EvUnlock ;; ret (StopExit, t, dice) else
  wk <- works_at i ;;
  let '(ok, q', t) := wq_pop_front (queue wk) t in
  set_queue i q' ;;
  if ok then worker_dispatch head t dice else
  r <- _steal t dice ;;
  let '(stolen, t, dice) := r in
  if stolen then worker_dispatch head t dice else
  p <- get ;;
  match _task_queue p with
  | x :: rest => modify (set_task_queue rest) ;; worker_dispatch head x dice
  | [] => idle t dice
  end.

(** The lambda [spawn] starts for worker [i], run from [pc] with the
    locals [t] and [dice] to the next stop.  [n] bounds the number of
    jumps, the two resumptions counted as one each. *)
Fixpoint worker_run (n : nat) (pc : WorkerPc) (i : Z) (t : Task) (dice : Z)
  : M (WorkerStop * Task * Z) :=
  match n with
  | O => ret (StopFuel, t, dice)
  | S n' =>
      let head := worker_run n' AtLoopHead i in
      let idle := worker_run n' AtIdleTest i in
      match pc with
      | AtLoopHead => worker_pass head idle i t dice
      | AtIdleTest => worker_idle head idle i t dice
      | AfterCvWait =>
          (* [--_idle_workers;] *)
          modify (fun p => set_idle_workers (usize (_idle_workers p - 1)) p) ;;
          idle t dice
      | AfterTask =>
          (* [t = nullptr; _mutex.lock();] *)
          emit EvLock ;;
          head task_null dice
      end
  end.

(** the thread function from its first statement: [t {nullptr}],
    [w = *(_works[i])], [dice = i+1], and the lock on [_mutex] *)
Definition worker_start (n : nat) (i : Z) : M (WorkerStop * Task * Z) :=
  works_at i ;;
  emit EvLock ;;
  worker_run n AtLoopHead i task_null (worker_seed i).

(** every task waiting in the pool is a non-empty [TaskType] *)
Definition tasks_set (p : Pool Callable) : Prop :=
  Forall (fun t => holds_target t = true) (_task_queue p) /\
  Forall (fun wk => Forall (fun t => holds_target t = true)
                      (contents task_null WorkQueue_log2N (queue wk))) (_works p).


End Pool.

(** ** A concrete pool *)

(** thread ids 1, 2, ... for the workers; the owner is thread 0 *)
Definition example_fresh (i : Z) : thread_id := Z.to_nat (i + 1).

(** a moved-from [std::function] is empty *)
Definition example_moved (t : TaskType nat) : TaskType nat := task_null.

(** the pool built by [BasicPrivatizedThreadpool(2)] on thread 0 *)
Definition example_pool : Pool nat :=
  (Pool_ctor (R:=unit) 0%nat example_fresh 2).2.1.



(** the pool after [n] more submissions of one task from thread [self] *)
Definition submit_n (n : nat) (self : thread_id) (p : Pool nat) : Pool nat :=
  Nat.iter n
    (fun p => (run (R:=unit) (silent_async example_moved self (task_of 7%nat)) p).2.1) p.

(** a queue of capacity 4 filled by a sequential history of four pushes *)
Definition example_full_queue : RunQueue nat :=
  run_calls 0%nat (fun x => x) 2
    [(PushFront, 1%nat); (PushBack, 2%nat); (PushFront, 3%nat); (PushBack, 4%nat)].


(** the two-worker pool once a worker has raised [_sync] *)
Definition example_pool_synced : Pool nat := set_sync true example_pool.

(** the two-worker pool after the owner submitted one task *)
Definition example_pool_busy : Pool nat := submit_n 1 0%nat example_pool.

(** the two-worker pool with both workers asleep in [w.cv.wait(lock)] *)
Definition example_pool_asleep : Pool nat := set_idle_workers 2 example_pool.


(** * Proofs *)

(** ** Modular arithmetic used below *)

Lemma mod_sub_cancel (n a b c : Z) :
  0 < n -> (a - b) mod n = (c - b) mod n -> a mod n = c mod n.
Proof.
  intros Hn H.
  replace a with ((a - b) + b) by lia. rewrite Zplus_mod, H, <- Zplus_mod.
  f_equal. lia.
Qed.

Lemma mod_small_eq (n a c : Z) :
  0 <= a < n -> 0 <= c < n -> a mod n = c mod n -> a = c.
Proof. intros Ha Hc. rewrite !Z.mod_small by lia. done. Qed.

Lemma mod_mod_double (n a : Z) : 0 < n -> (a mod (2 * n)) mod n = a mod n.
Proof.
  intros Hn. apply Z.mod_mod_divide. exists 2. lia.
Qed.

Lemma mod_succ (n a : Z) :
  0 < n -> a mod n <> n - 1 -> (a + 1) mod n = a mod n + 1.
Proof.
  intros Hn H. pose proof (Z.mod_pos_bound a n Hn).
  rewrite Zplus_mod. rewrite (Z.mod_small (_ + _)); [|].
  - destruct (decide (n = 1)) as [->|]; [lia|]. rewrite (Z.mod_small 1) by lia. done.
  - destruct (decide (n = 1)) as [->|]; [lia|]. rewrite (Z.mod_small 1) by lia. lia.
Qed.

Lemma mod_pred (n a : Z) :
  0 < n -> a mod n <> 0 -> (a - 1) mod n = a mod n - 1.
Proof.
  intros Hn H. pose proof (Z.mod_pos_bound a n Hn).
  replace (a - 1) with ((a mod n - 1) + (a / n) * n).
  - rewrite Z.mod_add by lia. apply Z.mod_small. lia.
  - pose proof (Z.div_mod a n). lia.
Qed.

Lemma mod_succ_top (n a : Z) : 0 < n -> a mod n = n - 1 -> (a + 1) mod n = 0.
Proof.
  intros Hn H.
  replace (a + 1) with (0 + (a / n + 1) * n).
  - rewrite Z.mod_add by lia. apply Z.mod_0_l. lia.
  - pose proof (Z.div_mod a n). lia.
Qed.

Lemma mod_pred_zero (n a : Z) : 0 < n -> a mod n = 0 -> (a - 1) mod n = n - 1.
Proof.
  intros Hn H.
  replace (a - 1) with ((n - 1) + (a / n - 1) * n).
  - rewrite Z.mod_add by lia. apply Z.mod_small. lia.
  - pose proof (Z.div_mod a n). lia.
Qed.

(** ** RunQueue: masks and cursors *)

Section RunQueueFacts.

Context {T : Type}.
Variable T_init : T.
Variable moved_from : T -> T.
Variable log2N : nat.
Hypothesis log2N_range : (2 <= log2N <= 31)%nat.

Lemma N_range : 4 <= N log2N <= 2 ^ 31.
Proof.
  unfold N. split.
  - change 4 with (2 ^ 2). apply Z.pow_le_mono_r; lia.
  - apply Z.pow_le_mono_r; lia.
Qed.

(** the two [static_assert]s of the class hold for these [N] *)
Lemma static_asserts : Z.land (N log2N) (u32 (N log2N - 1)) = 0 /\ N log2N > 2.
Proof.
  pose proof N_range as HN. split; [|lia].
  unfold u32. rewrite (Z.mod_small (_ - 1)) by lia.
  replace (N log2N - 1) with (Z.ones (Z.of_nat log2N))
    by (rewrite Z.ones_equiv; unfold N; lia).
  rewrite Z.land_ones by lia. apply Z.mod_same. unfold N. lia.
Qed.

Lemma N_divides_2_32 : (N log2N | 2 ^ 32).
Proof.
  exists (2 ^ (32 - Z.of_nat log2N)). unfold N.
  rewrite <- Z.pow_add_r by lia. f_equal. lia.
Qed.

Lemma N2_divides_2_32 : (2 * N log2N | 2 ^ 32).
Proof.
  exists (2 ^ (31 - Z.of_nat log2N)). unfold N.
  replace (2 ^ (31 - Z.of_nat log2N) * (2 * 2 ^ Z.of_nat log2N))
    with (2 ^ (31 - Z.of_nat log2N) * 2 ^ 1 * 2 ^ Z.of_nat log2N) by lia.
  rewrite <- !Z.pow_add_r by lia. f_equal. lia.
Qed.

Lemma IDX_MASK_eq : IDX_MASK log2N = N log2N - 1.
Proof. pose proof N_range. unfold IDX_MASK, u32. apply Z.mod_small. lia. Qed.

Lemma POS_MASK_eq : POS_MASK log2N = 2 * N log2N - 1.
Proof.
  pose proof N_range as HN. unfold POS_MASK, u32.
  rewrite Z.shiftl_mul_pow2 by lia. change (2 ^ 1) with 2.
  destruct (decide (N log2N = 2 ^ 31)) as [->|Hne].
  - reflexivity.
  - rewrite (Z.mod_small (_ * 2)) by lia. rewrite Z.mod_small by lia. lia.
Qed.

Lemma land_IDX_MASK (x : Z) : Z.land x (IDX_MASK log2N) = x mod N log2N.
Proof.
  rewrite IDX_MASK_eq.
  replace (N log2N - 1) with (Z.ones (Z.of_nat log2N))
    by (rewrite Z.ones_equiv; unfold N; lia).
  rewrite Z.land_ones by lia. reflexivity.
Qed.

Lemma land_POS_MASK (x : Z) : Z.land x (POS_MASK log2N) = x mod (2 * N log2N).
Proof.
  rewrite POS_MASK_eq.
  replace (2 * N log2N - 1) with (Z.ones (Z.of_nat log2N + 1)).
  - rewrite Z.land_ones by lia. rewrite Z.pow_add_r by lia. unfold N. f_equal. lia.
  - rewrite Z.ones_equiv, Z.pow_add_r by lia. unfold N. lia.
Qed.

Lemma u32_mod_N (x : Z) : u32 x mod N log2N = x mod N log2N.
Proof. unfold u32. apply Z.mod_mod_divide, N_divides_2_32. Qed.

Lemma u32_mod_2N (x : Z) : u32 x mod (2 * N log2N) = x mod (2 * N log2N).
Proof. unfold u32. apply Z.mod_mod_divide, N2_divides_2_32. Qed.

(** *** What each call computes, in closed form *)

Abbreviation item' := (item T_init).

Lemma push_front_closed (q : RunQueue T) (w0 : T) :
  length (_array q) = Z.to_nat (N log2N) ->
  push_front T_init moved_from log2N q w0 =
    let i := _front q mod N log2N in
    if decide (state (item' q i) = EMPTY)
    then (true,
          mkRunQueue (_mutex q) ((_front q + 1) mod (2 * N log2N)) (_back q)
            (<[Z.to_nat i := mkEntry READY w0]> (_array q)),
          moved_from w0)
    else (false, q, w0).
Proof.
  intros Hlen. pose proof N_range as HN.
  pose proof (Z.mod_pos_bound (_front q) (N log2N) ltac:(lia)) as Hi.
  unfold push_front. rewrite land_IDX_MASK, land_POS_MASK, u32_mod_2N. cbv zeta.
  set (i := _front q mod N log2N) in *.
  destruct (decide (state (item' q i) = EMPTY)) as [He|He].
  - rewrite bool_decide_eq_true_2 by done. simpl.
    unfold cas_state, compare_exchange_strong. rewrite decide_True by done. simpl.
    unfold store_state, store_w, store_front, item. simpl.
    rewrite !list_lookup_insert_eq by (rewrite ?length_insert; lia). simpl.
    rewrite !list_insert_insert_eq. reflexivity.
  - rewrite bool_decide_eq_false_2 by done. reflexivity.
Qed.

Lemma pop_front_closed (q : RunQueue T) (w0 : T) :
  length (_array q) = Z.to_nat (N log2N) ->
  pop_front T_init moved_from log2N q w0 =
    if _front q =? _back q then (false, q, w0) else
    let i := (_front q - 1) mod N log2N in
    if decide (state (item' q i) = READY)
    then (true,
          mkRunQueue (_mutex q) ((_front q - 1) mod (2 * N log2N)) (_back q)
            (<[Z.to_nat i := mkEntry EMPTY (moved_from (w (item' q i)))]> (_array q)),
          w (item' q i))
    else (false, q, w0).
Proof.
  intros Hlen. pose proof N_range as HN.
  pose proof (Z.mod_pos_bound (_front q - 1) (N log2N) ltac:(lia)) as Hi.
  unfold pop_front, empty. destruct (_front q =? _back q); [done|].
  rewrite land_IDX_MASK, land_POS_MASK, u32_mod_2N, u32_mod_N. cbv zeta.
  set (i := (_front q - 1) mod N log2N) in *.
  destruct (decide (state (item' q i) = READY)) as [He|He].
  - rewrite bool_decide_eq_true_2 by done. simpl.
    unfold cas_state, compare_exchange_strong. rewrite decide_True by done. simpl.
    unfold store_state, store_w, store_front, item. simpl.
    rewrite !list_lookup_insert_eq by (rewrite ?length_insert; lia). simpl.
    rewrite !list_insert_insert_eq. reflexivity.
  - rewrite bool_decide_eq_false_2 by done. reflexivity.
Qed.

Lemma push_back_closed (q : RunQueue T) (w0 : T) :
  length (_array q) = Z.to_nat (N log2N) ->
  push_back T_init moved_from log2N q w0 =
    if _mutex q then None else
    let i := (_back q - 1) mod N log2N in
    if decide (state (item' q i) = EMPTY)
    then Some (true,
               mkRunQueue false (_front q) ((_back q - 1) mod (2 * N log2N))
                 (<[Z.to_nat i := mkEntry READY w0]> (_array q)),
               moved_from w0)
    else Some (false, mkRunQueue false (_front q) (_back q) (_array q), w0).
Proof.
  intros Hlen. pose proof N_range as HN.
  pose proof (Z.mod_pos_bound (_back q - 1) (N log2N) ltac:(lia)) as Hi.
  unfold push_back. destruct (_mutex q); [done|].
  simpl. rewrite land_IDX_MASK, land_POS_MASK, u32_mod_2N, u32_mod_N.
  set (i := (_back q - 1) mod N log2N) in *.
  change (item' (store_mutex q true) i) with (item' q i).
  destruct (decide (state (item' q i) = EMPTY)) as [He|He].
  - rewrite bool_decide_eq_true_2 by done. simpl.
    unfold cas_state, compare_exchange_strong.
    change (item' (store_mutex q true) i) with (item' q i).
    rewrite decide_True by done. simpl.
    unfold store_state, store_w, store_back, store_mutex, item. simpl.
    rewrite !list_lookup_insert_eq by (rewrite ?length_insert; lia). simpl.
    rewrite !list_insert_insert_eq. reflexivity.
  - rewrite bool_decide_eq_false_2 by done. reflexivity.
Qed.

Lemma pop_back_closed (q : RunQueue T) (w0 : T) :
  length (_array q) = Z.to_nat (N log2N) ->
  pop_back T_init moved_from log2N q w0 =
    if _front q =? _back q then (false, q, w0) else
    if _mutex q then (false, q, w0) else
    let i := _back q mod N log2N in
    if decide (state (item' q i) = READY)
    then (true,
          mkRunQueue false (_front q) ((_back q + 1) mod (2 * N log2N))
            (<[Z.to_nat i := mkEntry EMPTY (moved_from (w (item' q i)))]> (_array q)),
          w (item' q i))
    else (false, mkRunQueue false (_front q) (_back q) (_array q), w0).
Proof.
  intros Hlen. pose proof N_range as HN.
  pose proof (Z.mod_pos_bound (_back q) (N log2N) ltac:(lia)) as Hi.
  unfold pop_back, empty. destruct (_front q =? _back q); [done|].
  destruct (_mutex q); [done|].
  simpl. rewrite land_IDX_MASK, land_POS_MASK, u32_mod_2N.
  set (i := _back q mod N log2N) in *.
  change (item' (store_mutex q true) i) with (item' q i).
  destruct (decide (state (item' q i) = READY)) as [He|He].
  - rewrite bool_decide_eq_true_2 by done. simpl.
    unfold cas_state, compare_exchange_strong.
    change (item' (store_mutex q true) i) with (item' q i).
    rewrite decide_True by done. simpl.
    unfold store_state, store_w, store_back, store_mutex, item. simpl.
    rewrite !list_lookup_insert_eq by (rewrite ?length_insert; lia). simpl.
    rewrite !list_insert_insert_eq. reflexivity.
  - rewrite bool_decide_eq_false_2 by done. reflexivity.
Qed.

(** *** The representation invariant *)

Abbreviation Inv' := (Inv T_init log2N).
Abbreviation count' := (cursor_count log2N).

Lemma item_insert_ne (q : RunQueue T) (i j : Z) (e : Entry T) m f b :
  0 <= i -> 0 <= j -> i <> j ->
  item' (mkRunQueue m f b (<[Z.to_nat i := e]> (_array q))) j = item' q j.
Proof.
  intros Hi Hj Hne. unfold item. simpl.
  rewrite list_lookup_insert_ne by lia. reflexivity.
Qed.

Lemma item_insert_same (q : RunQueue T) (i : Z) (e : Entry T) m f b :
  (Z.to_nat i < length (_array q))%nat ->
  item' (mkRunQueue m f b (<[Z.to_nat i := e]> (_array q))) i = e.
Proof. intros Hi. unfold item. simpl. by rewrite list_lookup_insert_eq. Qed.

Lemma ready_count_insert (l : list (Entry T)) (i : nat) (e e' : Entry T) :
  l !! i = Some e ->
  Z.of_nat (length (filter (fun x => state x = READY) (<[i := e']> l))) =
  Z.of_nat (length (filter (fun x => state x = READY) l))
  + (if decide (state e' = READY) then 1 else 0)
  - (if decide (state e = READY) then 1 else 0).
Proof.
  revert i. induction l as [|x l IH]; intros [|i] Hl; simpl in Hl; try done.
  - injection Hl as ->. simpl. rewrite !filter_cons.
    destruct (decide (state e' = READY)), (decide (state e = READY)); simpl; lia.
  - simpl. rewrite !filter_cons. specialize (IH i Hl).
    destruct (decide (state x = READY)); simpl; lia.
Qed.

Lemma num_ready_insert (q : RunQueue T) (i : Z) (e : Entry T) m f b :
  (Z.to_nat i < length (_array q))%nat ->
  num_ready (mkRunQueue m f b (<[Z.to_nat i := e]> (_array q))) =
  num_ready q + (if decide (state e = READY) then 1 else 0)
  - (if decide (state (item' q i) = READY) then 1 else 0).
Proof.
  intros Hi. unfold num_ready, item. simpl.
  destruct (lookup_lt_is_Some_2 _ _ Hi) as [x Hx].
  rewrite (ready_count_insert _ _ x e Hx), Hx. reflexivity.
Qed.

Lemma ready_count_replicate (n : nat) (x : T) :
  filter (fun e => state e = READY) (replicate n (mkEntry EMPTY x)) = [].
Proof. induction n as [|n IH]; [done|]. simpl. rewrite filter_cons. simpl. done. Qed.

Lemma Inv_ctor : Inv' (RunQueue_ctor T_init log2N).
Proof.
  pose proof N_range as HN.
  assert (Hc : count' (RunQueue_ctor T_init log2N) = 0).
  { unfold cursor_count. simpl. apply Z.mod_0_l. lia. }
  constructor; simpl; try lia.
  - by rewrite length_replicate.
  - intros j Hj. rewrite Hc.
    pose proof (Z.mod_pos_bound (j - 0) (N log2N) ltac:(lia)).
    rewrite decide_False by lia.
    unfold item. simpl. rewrite lookup_replicate_2 by lia. done.
  - rewrite Hc. unfold num_ready. simpl. by rewrite ready_count_replicate.
Qed.

(** position of a slot relative to [_back], for the slot under a cursor *)
Lemma slot_offset (b x : Z) :
  ((x mod N log2N) - b) mod N log2N = ((x - b) mod (2 * N log2N)) mod N log2N.
Proof.
  pose proof N_range. rewrite mod_mod_double by lia.
  by rewrite Zminus_mod_idemp_l.
Qed.

Lemma slot_inj (b i j : Z) :
  0 <= i < N log2N -> 0 <= j < N log2N ->
  (i - b) mod N log2N = (j - b) mod N log2N -> i = j.
Proof.
  intros Hi Hj H. apply (mod_small_eq (N log2N)); [done..|].
  apply (mod_sub_cancel _ _ b); [lia | done].
Qed.

(** [push_front] on a queue that satisfies the invariant *)
Lemma push_front_Inv (q : RunQueue T) (w0 : T) :
  Inv' q ->
  let i := _front q mod N log2N in
  let q' := mkRunQueue (_mutex q) ((_front q + 1) mod (2 * N log2N)) (_back q)
              (<[Z.to_nat i := mkEntry READY w0]> (_array q)) in
  (count' q = N log2N /\ state (item' q i) = READY /\
   push_front T_init moved_from log2N q w0 = (false, q, w0))
  \/
  (count' q < N log2N /\ state (item' q i) = EMPTY /\
   push_front T_init moved_from log2N q w0 = (true, q', moved_from w0) /\
   Inv' q' /\ count' q' = count' q + 1).
Proof.
  intros [Hm Hf Hb Hlen Hc Hs Hr] i q'. pose proof N_range as HN.
  pose proof (Z.mod_pos_bound (_front q) (N log2N) ltac:(lia)) as Hi. fold i in Hi.
  pose proof (Z.mod_pos_bound (_front q - _back q) (2 * N log2N) ltac:(lia)) as Hc0.
  fold (count' q) in Hc0.
  assert (Hoff : (i - _back q) mod N log2N = count' q mod N log2N)
    by apply slot_offset.
  rewrite push_front_closed by done. cbv zeta. fold i.
  pose proof (Hs i Hi) as Hsi. rewrite Hoff in Hsi.
  destruct (decide (count' q = N log2N)) as [Hfull|Hnf].
  - left. rewrite Hfull, Z.mod_same, decide_True in Hsi by lia.
    rewrite Hsi. rewrite decide_False by done. done.
  - right. rewrite Z.mod_small, decide_False in Hsi by lia.
    rewrite Hsi, decide_True by done.
    assert (Hc' : count' q' = count' q + 1).
    { unfold cursor_count, q'. simpl. rewrite Zminus_mod_idemp_l.
      replace (_front q + 1 - _back q) with (_front q - _back q + 1) by lia.
      rewrite mod_succ by (unfold cursor_count in *; lia). done. }
    split; [lia|]. split; [done|]. split; [done|]. split; [|done].
    constructor; simpl; try done.
    + apply Z.mod_pos_bound. lia.
    + by rewrite length_insert.
    + lia.
    + intros j Hj. rewrite Hc'. change (_back q') with (_back q).
      destruct (decide (i = j)) as [<-|Hne].
      * unfold q'. rewrite item_insert_same by lia. simpl.
        rewrite Hoff, Z.mod_small, decide_True by lia. done.
      * unfold q'. rewrite item_insert_ne by lia. rewrite (Hs j Hj).
        assert ((j - _back q) mod N log2N <> count' q).
        { intros Heq. apply Hne. apply (slot_inj (_back q)); [done..|].
          rewrite Hoff, Z.mod_small by lia. done. }
        repeat case_decide; try done; lia.
    + rewrite Hc'. unfold q'. rewrite num_ready_insert by lia. simpl.
      rewrite Hsi. rewrite decide_False by done. lia.
Qed.

(** [pop_front] on a queue that satisfies the invariant *)
Lemma pop_front_Inv (q : RunQueue T) (w0 : T) :
  Inv' q ->
  let i := (_front q - 1) mod N log2N in
  let q' := mkRunQueue (_mutex q) ((_front q - 1) mod (2 * N log2N)) (_back q)
              (<[Z.to_nat i := mkEntry EMPTY (moved_from (w (item' q i)))]> (_array q)) in
  (count' q = 0 /\ pop_front T_init moved_from log2N q w0 = (false, q, w0))
  \/
  (0 < count' q /\ state (item' q i) = READY /\
   pop_front T_init moved_from log2N q w0 = (true, q', w (item' q i)) /\
   Inv' q' /\ count' q' = count' q - 1).
Proof.
  intros [Hm Hf Hb Hlen Hc Hs Hr] i q'. pose proof N_range as HN.
  pose proof (Z.mod_pos_bound (_front q - 1) (N log2N) ltac:(lia)) as Hi. fold i in Hi.
  pose proof (Z.mod_pos_bound (_front q - _back q) (2 * N log2N) ltac:(lia)) as Hc0.
  fold (count' q) in Hc0.
  rewrite pop_front_closed by done.
  destruct (Z.eqb_spec (_front q) (_back q)) as [Heq|Hne0].
  - left. split; [|done]. unfold cursor_count. rewrite Heq, Z.sub_diag.
    apply Z.mod_0_l. lia.
  - right. cbv zeta. fold i.
    assert (Hpos : 0 < count' q).
    { destruct (decide (count' q = 0)) as [H0|]; [|lia]. exfalso. apply Hne0.
      unfold cursor_count in H0.
      apply (mod_small_eq (2 * N log2N)); [done..|].
      apply (mod_sub_cancel _ _ (_back q)); [lia|]. by rewrite H0, Z.sub_diag, Z.mod_0_l by lia. }
    assert (Hc' : count' q' = count' q - 1).
    { unfold cursor_count, q'. simpl. rewrite Zminus_mod_idemp_l.
      replace (_front q - 1 - _back q) with (_front q - _back q - 1) by lia.
      rewrite mod_pred by (unfold cursor_count in *; lia). done. }
    assert (Hoff : (i - _back q) mod N log2N = count' q - 1).
    { unfold i. rewrite slot_offset. fold (count' q').
      change (_front q - 1 - _back q) with (_front q - 1 - _back q).
      replace ((_front q - 1 - _back q) mod (2 * N log2N)) with (count' q').
      - rewrite Hc'. apply Z.mod_small. lia.
      - unfold cursor_count, q'. simpl. by rewrite Zminus_mod_idemp_l. }
    pose proof (Hs i Hi) as Hsi. rewrite Hoff, decide_True in Hsi by lia.
    rewrite Hsi, decide_True by done.
    split; [done|]. split; [done|]. split; [done|]. split; [|done].
    constructor; simpl; try done.
    + apply Z.mod_pos_bound. lia.
    + by rewrite length_insert.
    + lia.
    + intros j Hj. rewrite Hc'. change (_back q') with (_back q).
      destruct (decide (i = j)) as [<-|Hne].
      * unfold q'. rewrite item_insert_same by lia. simpl.
        rewrite Hoff, decide_False by lia. done.
      * unfold q'. rewrite item_insert_ne by lia. rewrite (Hs j Hj).
        assert ((j - _back q) mod N log2N <> count' q - 1).
        { intros Heq. apply Hne. apply (slot_inj (_back q)); [done..|].
          rewrite Hoff. done. }
        repeat case_decide; try done; lia.
    + rewrite Hc'. unfold q'. rewrite num_ready_insert by lia. simpl.
      rewrite Hsi. rewrite decide_True by done. lia.
Qed.

Lemma back_offset (j x : Z) :
  (j - x mod (2 * N log2N)) mod N log2N = (j - x) mod N log2N.
Proof.
  pose proof N_range.
  rewrite <- Zminus_mod_idemp_r, mod_mod_double, Zminus_mod_idemp_r by lia. done.
Qed.

Lemma count_pos_of_nonempty (q : RunQueue T) :
  0 <= _front q < 2 * N log2N -> 0 <= _back q < 2 * N log2N ->
  _front q <> _back q -> 0 < count' q.
Proof.
  intros Hf Hb Hne. pose proof N_range as HN.
  pose proof (Z.mod_pos_bound (_front q - _back q) (2 * N log2N) ltac:(lia)) as Hc0.
  fold (count' q) in Hc0.
  destruct (decide (count' q = 0)) as [H0|]; [|lia]. exfalso. apply Hne.
  unfold cursor_count in H0.
  apply (mod_small_eq (2 * N log2N)); [done..|].
  apply (mod_sub_cancel _ _ (_back q)); [lia|].
  by rewrite H0, Z.sub_diag, Z.mod_0_l by lia.
Qed.

(** [push_back] on a queue that satisfies the invariant *)
Lemma push_back_Inv (q : RunQueue T) (w0 : T) :
  Inv' q ->
  let i := (_back q - 1) mod N log2N in
  let q' := mkRunQueue false (_front q) ((_back q - 1) mod (2 * N log2N))
              (<[Z.to_nat i := mkEntry READY w0]> (_array q)) in
  (count' q = N log2N /\ state (item' q i) = READY /\
   push_back T_init moved_from log2N q w0 = Some (false, q, w0))
  \/
  (count' q < N log2N /\ state (item' q i) = EMPTY /\
   push_back T_init moved_from log2N q w0 = Some (true, q', moved_from w0) /\
   Inv' q' /\ count' q' = count' q + 1).
Proof.
  intros [Hm Hf Hb Hlen Hc Hs Hr] i q'. pose proof N_range as HN.
  pose proof (Z.mod_pos_bound (_back q - 1) (N log2N) ltac:(lia)) as Hi. fold i in Hi.
  pose proof (Z.mod_pos_bound (_front q - _back q) (2 * N log2N) ltac:(lia)) as Hc0.
  fold (count' q) in Hc0.
  assert (Hoff : (i - _back q) mod N log2N = N log2N - 1).
  { unfold i. rewrite slot_offset, mod_mod_double by lia.
    replace (_back q - 1 - _back q) with (0 - 1) by lia.
    apply mod_pred_zero; [lia|]. apply Z.mod_0_l. lia. }
  rewrite push_back_closed by done. rewrite Hm. cbv zeta. fold i.
  pose proof (Hs i Hi) as Hsi. rewrite Hoff in Hsi.
  assert (Hq : mkRunQueue false (_front q) (_back q) (_array q) = q)
    by (destruct q; simpl in *; congruence).
  destruct (decide (count' q = N log2N)) as [Hfull|Hnf].
  - left. rewrite decide_True in Hsi by lia.
    rewrite Hsi, decide_False, Hq by done. done.
  - right. rewrite decide_False in Hsi by lia.
    rewrite Hsi, decide_True by done.
    assert (Hc' : count' q' = count' q + 1).
    { unfold cursor_count, q'. simpl. rewrite Zminus_mod_idemp_r.
      replace (_front q - (_back q - 1)) with (_front q - _back q + 1) by lia.
      rewrite mod_succ by (unfold cursor_count in *; lia). done. }
    split; [lia|]. split; [done|]. split; [done|]. split; [|done].
    constructor; simpl; try done.
    + apply Z.mod_pos_bound. lia.
    + by rewrite length_insert.
    + lia.
    + intros j Hj. rewrite Hc'.
      change (_back q') with ((_back q - 1) mod (2 * N log2N)). rewrite back_offset.
      replace (j - (_back q - 1)) with (j - _back q + 1) by lia.
      destruct (decide (i = j)) as [<-|Hne].
      * unfold q'. rewrite item_insert_same by lia. simpl.
        rewrite mod_succ_top, decide_True by lia. done.
      * unfold q'. rewrite item_insert_ne by lia. rewrite (Hs j Hj).
        assert ((j - _back q) mod N log2N <> N log2N - 1).
        { intros Heq. apply Hne. apply (slot_inj (_back q)); [done..|].
          rewrite Hoff. done. }
        rewrite mod_succ by lia.
        repeat case_decide; try done; lia.
    + rewrite Hc'. unfold q'. rewrite num_ready_insert by lia. simpl.
      rewrite Hsi. rewrite decide_False by done. lia.
Qed.

(** [pop_back] on a queue that satisfies the invariant *)
Lemma pop_back_Inv (q : RunQueue T) (w0 : T) :
  Inv' q ->
  let i := _back q mod N log2N in
  let q' := mkRunQueue false (_front q) ((_back q + 1) mod (2 * N log2N))
              (<[Z.to_nat i := mkEntry EMPTY (moved_from (w (item' q i)))]> (_array q)) in
  (count' q = 0 /\ pop_back T_init moved_from log2N q w0 = (false, q, w0))
  \/
  (0 < count' q /\ state (item' q i) = READY /\
   pop_back T_init moved_from log2N q w0 = (true, q', w (item' q i)) /\
   Inv' q' /\ count' q' = count' q - 1).
Proof.
  intros [Hm Hf Hb Hlen Hc Hs Hr] i q'. pose proof N_range as HN.
  pose proof (Z.mod_pos_bound (_back q) (N log2N) ltac:(lia)) as Hi. fold i in Hi.
  pose proof (Z.mod_pos_bound (_front q - _back q) (2 * N log2N) ltac:(lia)) as Hc0.
  fold (count' q) in Hc0.
  rewrite pop_back_closed by done.
  destruct (Z.eqb_spec (_front q) (_back q)) as [Heq|Hne0].
  - left. split; [|done]. unfold cursor_count. rewrite Heq, Z.sub_diag.
    apply Z.mod_0_l. lia.
  - right. rewrite Hm. cbv zeta. fold i.
    pose proof (count_pos_of_nonempty q Hf Hb Hne0) as Hpos.
    assert (Hc' : count' q' = count' q - 1).
    { unfold cursor_count, q'. simpl. rewrite Zminus_mod_idemp_r.
      replace (_front q - (_back q + 1)) with (_front q - _back q - 1) by lia.
      rewrite mod_pred by (unfold cursor_count in *; lia). done. }
    assert (Hoff : (i - _back q) mod N log2N = 0).
    { unfold i. rewrite slot_offset, mod_mod_double, Z.sub_diag by lia.
      apply Z.mod_0_l. lia. }
    pose proof (Hs i Hi) as Hsi. rewrite Hoff, decide_True in Hsi by lia.
    rewrite Hsi, decide_True by done.
    split; [done|]. split; [done|]. split; [done|]. split; [|done].
    constructor; simpl; try done.
    + apply Z.mod_pos_bound. lia.
    + by rewrite length_insert.
    + lia.
    + intros j Hj. rewrite Hc'.
      change (_back q') with ((_back q + 1) mod (2 * N log2N)). rewrite back_offset.
      replace (j - (_back q + 1)) with (j - _back q - 1) by lia.
      destruct (decide (i = j)) as [<-|Hne].
      * unfold q'. rewrite item_insert_same by lia. simpl.
        rewrite mod_pred_zero, decide_False by lia. done.
      * unfold q'. rewrite item_insert_ne by lia. rewrite (Hs j Hj).
        assert ((j - _back q) mod N log2N <> 0).
        { intros Heq. apply Hne. apply (slot_inj (_back q)); [done..|].
          rewrite Hoff. done. }
        rewrite mod_pred by lia.
        repeat case_decide; try done; lia.
    + rewrite Hc'. unfold q'. rewrite num_ready_insert by lia. simpl.
      rewrite Hsi. rewrite decide_True by done. lia.
Qed.

(** every queue reached by a sequential history satisfies the invariant *)
Lemma run_call_Inv (q : RunQueue T) (c : Op * T) :
  Inv' q -> Inv' (run_call T_init moved_from log2N q c).
Proof.
  intros HI. destruct c as [[] v]; unfold run_call; simpl.
  - destruct (push_front_Inv q v HI) as [(_ & _ & ->)|(_ & _ & -> & ? & _)]; done.
  - destruct (pop_front_Inv q v HI) as [(_ & ->)|(_ & _ & -> & ? & _)]; done.
  - destruct (push_back_Inv q v HI) as [(_ & _ & ->)|(_ & _ & -> & ? & _)]; done.
  - destruct (pop_back_Inv q v HI) as [(_ & ->)|(_ & _ & -> & ? & _)]; done.
Qed.

Lemma run_calls_Inv (cs : list (Op * T)) :
  Inv' (run_calls T_init moved_from log2N cs).
Proof.
  unfold run_calls. generalize (Inv_ctor).
  generalize (RunQueue_ctor T_init log2N).
  induction cs as [|c cs IH]; intros q HI; simpl; [done|].
  apply IH, run_call_Inv, HI.
Qed.

(** C2.  On every queue reached by a sequential history, [push_front]
    returns false exactly when the queue holds [N] tasks, which is exactly
    when the slot at index [front & IDX_MASK] is not [EMPTY]; with fewer
    than [N] tasks it returns true, moves the task into that slot, marks the
    slot [READY], advances [_front] modulo [2 * N] and touches nothing
    else. *)
Theorem push_front_false_iff_full (cs : list (Op * T)) (w0 : T) :
  let q := run_calls T_init moved_from log2N cs in
  let i := Z.land (_front q) (IDX_MASK log2N) in
  let r := push_front T_init moved_from log2N q w0 in
  num_ready q <= N log2N /\
  (r.1.1 = false <-> num_ready q = N log2N) /\
  (r.1.1 = false <-> state (item' q i) <> EMPTY) /\
  (num_ready q < N log2N ->
     r.1.1 = true /\ r.2 = moved_from w0 /\
     item' r.1.2 i = mkEntry READY w0 /\
     _front r.1.2 = (_front q + 1) mod (2 * N log2N) /\
     _back r.1.2 = _back q /\
     (forall j, 0 <= j -> j <> i -> item' r.1.2 j = item' q j) /\
     num_ready r.1.2 = num_ready q + 1).
Proof.
  intros q i r. pose proof (run_calls_Inv cs) as HI. fold q in HI.
  pose proof N_range as HN.
  pose proof (inv_ready _ _ _ HI) as Hr. pose proof (inv_count _ _ _ HI) as Hc.
  pose proof (inv_length _ _ _ HI) as Hlen.
  assert (Hi : i = _front q mod N log2N) by apply land_IDX_MASK.
  pose proof (Z.mod_pos_bound (_front q) (N log2N) ltac:(lia)) as Hib.
  unfold r.
  destruct (push_front_Inv q w0 HI) as [(Hfull & Hst & ->)|(Hlt & Hst & -> & HI' & Hc')];
    rewrite <- Hi in *; simpl.
  - split; [lia|]. split; [split; [lia|done]|]. split.
    + split; [|done]. intros _. by rewrite Hst.
    + lia.
  - split; [lia|]. split; [split; [done|lia]|]. split.
    + split; [done|]. intros H. by rewrite Hst in H.
    + intros _. split; [done|]. split; [done|].
      split; [apply item_insert_same; lia|]. split; [done|]. split; [done|].
      split.
      * intros j Hj Hne. apply item_insert_ne; lia.
      * rewrite (inv_ready _ _ _ HI'). lia.
Qed.

(** *** The queue as a bounded deque *)

Abbreviation contents' := (contents T_init log2N).

Lemma offset_of_slot (b d : Z) :
  0 <= d < N log2N -> ((b + d) mod N log2N - b) mod N log2N = d.
Proof.
  intros Hd. rewrite Zminus_mod_idemp_l.
  replace (b + d - b) with d by lia. apply Z.mod_small. lia.
Qed.

Lemma seqZ_snoc (c : Z) : 0 <= c -> seqZ 0 (c + 1) = seqZ 0 c ++ [c].
Proof. intros Hc. rewrite seqZ_app by lia. simpl. f_equal. Qed.

Lemma seqZ_shift (c : Z) : 0 <= c -> seqZ 0 (c + 1) = 0 :: (Z.add 1 <$> seqZ 0 c).
Proof.
  intros Hc. rewrite seqZ_cons by lia. f_equal.
  rewrite fmap_add_seqZ. f_equal; lia.
Qed.

Lemma count_range (q : RunQueue T) : 0 <= count' q < 2 * N log2N.
Proof. pose proof N_range. apply Z.mod_pos_bound. lia. Qed.

(** [push_front] appends at the [_front] end *)
Lemma push_front_contents (q : RunQueue T) (w0 : T) :
  Inv' q ->
  (count' q = N log2N /\
   push_front T_init moved_from log2N q w0 = (false, q, w0))
  \/
  (count' q < N log2N /\
   exists q', push_front T_init moved_from log2N q w0 = (true, q', moved_from w0) /\
     Inv' q' /\ contents' q' = contents' q ++ [w0]).
Proof.
  intros HI. pose proof N_range as HN. pose proof (count_range q) as Hc0.
  destruct (push_front_Inv q w0 HI) as [(Hfull & _ & Hr)|(Hlt & Hst & Hr & HI' & Hc')];
    [by left|right].
  split; [done|]. eexists. split; [exact Hr|]. split; [exact HI'|].
  destruct HI as [Hm Hf Hb Hlen Hc Hs Hrd].
  set (i := _front q mod N log2N) in *.
  pose proof (Z.mod_pos_bound (_front q) (N log2N) ltac:(lia)) as Hi. fold i in Hi.
  assert (Hoff : (i - _back q) mod N log2N = count' q).
  { unfold i. rewrite slot_offset. apply Z.mod_small. lia. }
  unfold contents. rewrite Hc'. simpl _back.
  rewrite seqZ_snoc, fmap_app by lia. f_equal.
  - apply list_fmap_ext. intros k d Hd. apply lookup_seqZ in Hd as [-> Hk].
    rewrite Z.add_0_l.
    pose proof (Z.mod_pos_bound (_back q + Z.of_nat k) (N log2N) ltac:(lia)).
    rewrite item_insert_ne; [done|lia|lia|].
    intros Heq. pose proof (offset_of_slot (_back q) (Z.of_nat k) ltac:(lia)) as Ho.
    rewrite <- Heq, Hoff in Ho. lia.
  - simpl. f_equal.
    assert (Hi' : (_back q + count' q) mod N log2N = i).
    { apply (slot_inj (_back q)); [apply Z.mod_pos_bound; lia|done|].
      rewrite offset_of_slot, Hoff by lia. done. }
    rewrite Hi', item_insert_same by lia. done.
Qed.

(** [pop_front] removes at the [_front] end *)
Lemma pop_front_contents (q : RunQueue T) (w0 : T) :
  Inv' q ->
  (count' q = 0 /\ contents' q = [] /\
   pop_front T_init moved_from log2N q w0 = (false, q, w0))
  \/
  (0 < count' q /\
   exists q' v, pop_front T_init moved_from log2N q w0 = (true, q', v) /\
     Inv' q' /\ contents' q = contents' q' ++ [v] /\ count' q' = count' q - 1).
Proof.
  intros HI. pose proof N_range as HN. pose proof (count_range q) as Hc0.
  destruct (pop_front_Inv q w0 HI) as [(Hz & Hr)|(Hpos & Hst & Hr & HI' & Hc')].
  { left. split; [done|]. split; [|done]. unfold contents. by rewrite Hz. }
  right. split; [done|]. eexists _, _. split; [exact Hr|]. split; [exact HI'|].
  split; [|done].
  destruct HI as [Hm Hf Hb Hlen Hc Hs Hrd].
  set (i := (_front q - 1) mod N log2N) in *.
  pose proof (Z.mod_pos_bound (_front q - 1) (N log2N) ltac:(lia)) as Hi. fold i in Hi.
  assert (Hoff : (i - _back q) mod N log2N = count' q - 1).
  { unfold i. rewrite slot_offset.
    replace (_front q - 1 - _back q) with (_front q - _back q - 1) by lia.
    rewrite mod_pred by (unfold cursor_count in *; lia).
    fold (count' q). apply Z.mod_small. lia. }
  unfold contents at 2. rewrite Hc'. simpl _back.
  unfold contents. replace (count' q) with (count' q - 1 + 1) at 1 by lia.
  rewrite seqZ_snoc, fmap_app by lia. f_equal.
  - apply list_fmap_ext. intros k d Hd. apply lookup_seqZ in Hd as [-> Hk].
    rewrite Z.add_0_l.
    pose proof (Z.mod_pos_bound (_back q + Z.of_nat k) (N log2N) ltac:(lia)).
    rewrite item_insert_ne; [done|lia|lia|].
    intros Heq. pose proof (offset_of_slot (_back q) (Z.of_nat k) ltac:(lia)) as Ho.
    rewrite <- Heq, Hoff in Ho. lia.
  - simpl. f_equal.
    assert (Hi' : (_back q + (count' q - 1)) mod N log2N = i).
    { apply (slot_inj (_back q)); [apply Z.mod_pos_bound; lia|done|].
      rewrite offset_of_slot, Hoff by lia. done. }
    by rewrite Hi'.
Qed.


Lemma cursor_slot (x y : Z) :
  (x mod (2 * N log2N) + y) mod N log2N = (x + y) mod N log2N.
Proof.
  pose proof N_range.
  rewrite <- Zplus_mod_idemp_l, mod_mod_double, Zplus_mod_idemp_l by lia. done.
Qed.

(** [push_back] prepends at the [_back] end *)
Lemma push_back_contents (q : RunQueue T) (w0 : T) :
  Inv' q ->
  (count' q = N log2N /\
   push_back T_init moved_from log2N q w0 = Some (false, q, w0))
  \/
  (count' q < N log2N /\
   exists q', push_back T_init moved_from log2N q w0 = Some (true, q', moved_from w0) /\
     Inv' q' /\ contents' q' = w0 :: contents' q).
Proof.
  intros HI. pose proof N_range as HN. pose proof (count_range q) as Hc0.
  destruct (push_back_Inv q w0 HI) as [(Hfull & _ & Hr)|(Hlt & Hst & Hr & HI' & Hc')];
    [by left|right].
  split; [done|]. eexists. split; [exact Hr|]. split; [exact HI'|].
  destruct HI as [Hm Hf Hb Hlen Hc Hs Hrd].
  set (i := (_back q - 1) mod N log2N) in *.
  pose proof (Z.mod_pos_bound (_back q - 1) (N log2N) ltac:(lia)) as Hi. fold i in Hi.
  assert (Hoff : (i - _back q) mod N log2N = N log2N - 1).
  { unfold i. rewrite slot_offset, mod_mod_double by lia.
    replace (_back q - 1 - _back q) with (0 - 1) by lia.
    apply mod_pred_zero; [lia|]. apply Z.mod_0_l. lia. }
  unfold contents. rewrite Hc'. simpl _back.
  rewrite seqZ_shift, fmap_cons by lia. f_equal.
  - rewrite Z.add_0_r, mod_mod_double by lia. fold i.
    rewrite item_insert_same by lia. done.
  - rewrite <- list_fmap_compose.
    apply list_fmap_ext. intros k d Hd. apply lookup_seqZ in Hd as [-> Hk].
    rewrite Z.add_0_l. simpl. rewrite cursor_slot.
    replace (_back q - 1 + (1 + Z.of_nat k)) with (_back q + Z.of_nat k) by lia.
    pose proof (Z.mod_pos_bound (_back q + Z.of_nat k) (N log2N) ltac:(lia)).
    rewrite item_insert_ne; [done|lia|lia|].
    intros Heq. pose proof (offset_of_slot (_back q) (Z.of_nat k) ltac:(lia)) as Ho.
    rewrite <- Heq, Hoff in Ho. lia.
Qed.

(** [pop_back] removes at the [_back] end *)
Lemma pop_back_contents (q : RunQueue T) (w0 : T) :
  Inv' q ->
  (count' q = 0 /\ contents' q = [] /\
   pop_back T_init moved_from log2N q w0 = (false, q, w0))
  \/
  (0 < count' q /\
   exists q' v, pop_back T_init moved_from log2N q w0 = (true, q', v) /\
     Inv' q' /\ contents' q = v :: contents' q' /\ count' q' = count' q - 1).
Proof.
  intros HI. pose proof N_range as HN. pose proof (count_range q) as Hc0.
  destruct (pop_back_Inv q w0 HI) as [(Hz & Hr)|(Hpos & Hst & Hr & HI' & Hc')].
  { left. split; [done|]. split; [|done]. unfold contents. by rewrite Hz. }
  right. split; [done|]. eexists _, _. split; [exact Hr|]. split; [exact HI'|].
  split; [|done].
  destruct HI as [Hm Hf Hb Hlen Hc Hs Hrd].
  set (i := _back q mod N log2N) in *.
  pose proof (Z.mod_pos_bound (_back q) (N log2N) ltac:(lia)) as Hi. fold i in Hi.
  assert (Hoff : (i - _back q) mod N log2N = 0).
  { unfold i. rewrite slot_offset, mod_mod_double, Z.sub_diag by lia.
    apply Z.mod_0_l. lia. }
  unfold contents at 2. rewrite Hc'. simpl _back.
  unfold contents. replace (count' q) with (count' q - 1 + 1) at 1 by lia.
  rewrite seqZ_shift, fmap_cons by lia. f_equal.
  - rewrite Z.add_0_r. done.
  - rewrite <- list_fmap_compose.
    apply list_fmap_ext. intros k d Hd. apply lookup_seqZ in Hd as [-> Hk].
    rewrite Z.add_0_l. simpl. rewrite cursor_slot.
    replace (_back q + 1 + Z.of_nat k) with (_back q + (1 + Z.of_nat k)) by lia.
    pose proof (Z.mod_pos_bound (_back q + (1 + Z.of_nat k)) (N log2N) ltac:(lia)).
    rewrite item_insert_ne; [done|lia|lia|].
    intros Heq.
    pose proof (offset_of_slot (_back q) (1 + Z.of_nat k) ltac:(lia)) as Ho.
    rewrite <- Heq, Hoff in Ho. lia.
Qed.


Lemma contents_length (q : RunQueue T) :
  Z.of_nat (length (contents' q)) = count' q.
Proof.
  pose proof (count_range q). unfold contents.
  rewrite length_fmap, length_seqZ. lia.
Qed.

Lemma empty_iff_count (q : RunQueue T) :
  Inv' q -> empty q = true <-> count' q = 0.
Proof.
  intros [Hm Hf Hb Hlen Hc Hs Hrd]. pose proof N_range as HN. unfold empty.
  rewrite Z.eqb_eq. split.
  - intros Heq. unfold cursor_count. rewrite Heq, Z.sub_diag. apply Z.mod_0_l. lia.
  - intros Hz. destruct (decide (_front q = _back q)) as [|Hne]; [done|].
    pose proof (count_pos_of_nonempty q Hf Hb Hne). lia.
Qed.

Lemma run_calls_app (cs cs' : list (Op * T)) :
  run_calls T_init moved_from log2N (cs ++ cs') =
  foldl (run_call T_init moved_from log2N) (run_calls T_init moved_from log2N cs) cs'.
Proof. unfold run_calls. apply foldl_app. Qed.

Lemma foldl_run_call_Inv (cs : list (Op * T)) (q : RunQueue T) :
  Inv' q -> Inv' (foldl (run_call T_init moved_from log2N) q cs).
Proof.
  revert q. induction cs as [|c cs IH]; intros q HI; simpl; [done|].
  apply IH, run_call_Inv, HI.
Qed.

(** a batch of [push_front] calls that fits *)
Lemma pushes_front_contents (l : list T) (q : RunQueue T) :
  Inv' q -> count' q + Z.of_nat (length l) <= N log2N ->
  contents' (foldl (run_call T_init moved_from log2N) q ((fun v => (PushFront, v)) <$> l))
    = contents' q ++ l.
Proof.
  revert q. induction l as [|v l IH]; intros q HI Hroom; simpl.
  - by rewrite app_nil_r.
  - unfold run_call at 2. simpl.
    destruct (push_front_contents q v HI) as [(Hfull & _)|(Hlt & q' & -> & HI' & Hq')];
      [simpl in Hroom; lia|].
    simpl. rewrite IH; [|done|].
    + rewrite Hq', <- app_assoc. done.
    + rewrite <- contents_length, Hq', length_app, Nat2Z.inj_add, contents_length.
      simpl in *. lia.
Qed.

(** a batch of [push_back] calls that fits *)
Lemma pushes_back_contents (l : list T) (q : RunQueue T) :
  Inv' q -> count' q + Z.of_nat (length l) <= N log2N ->
  contents' (foldl (run_call T_init moved_from log2N) q ((fun v => (PushBack, v)) <$> l))
    = reverse l ++ contents' q.
Proof.
  revert q. induction l as [|v l IH]; intros q HI Hroom; simpl.
  - done.
  - unfold run_call at 2. simpl.
    destruct (push_back_contents q v HI) as [(Hfull & _)|(Hlt & q' & -> & HI' & Hq')];
      [simpl in Hroom; lia|].
    simpl. rewrite IH; [|done|].
    + rewrite Hq', reverse_cons, <- app_assoc. done.
    + rewrite <- contents_length, Hq'. simpl length.
      rewrite Nat2Z.inj_succ, contents_length. simpl in *. lia.
Qed.

(** draining with [pop_front] hands the tasks out from the [_front] end *)
Lemma drain_front_all (l : list T) :
  forall (n : nat) (q : RunQueue T),
    Inv' q -> contents' q = l -> (length l <= n)%nat ->
    exists q', drain_front T_init moved_from log2N n q = (reverse l, q') /\
               Inv' q' /\ contents' q' = [].
Proof.
  induction l as [|v l IH] using rev_ind; intros n q HI Hl Hn.
  - destruct (pop_front_contents q T_init HI) as [(_ & _ & Hr)|(Hpos & _)].
    + exists q. split; [|done]. destruct n; simpl; [done|]. by rewrite Hr.
    + rewrite <- contents_length, Hl in Hpos. simpl in Hpos. lia.
  - destruct (pop_front_contents q T_init HI)
      as [(_ & He & _)|(_ & q1 & v1 & Hr & HI1 & Hq1 & _)].
    + rewrite Hl in He. by destruct l.
    + rewrite Hl in Hq1. apply app_inj_tail in Hq1 as [Hl1 ->].
      rewrite length_app in Hn. simpl in Hn.
      destruct n as [|n]; [lia|]. simpl. rewrite Hr.
      destruct (IH n q1 HI1 (eq_sym Hl1) ltac:(lia)) as (q' & -> & HI' & Hq').
      exists q'. rewrite reverse_snoc. done.
Qed.

(** draining with [pop_back] hands them out from the [_back] end *)
Lemma drain_back_all (l : list T) :
  forall (n : nat) (q : RunQueue T),
    Inv' q -> contents' q = l -> (length l <= n)%nat ->
    exists q', drain_back T_init moved_from log2N n q = (l, q') /\
               Inv' q' /\ contents' q' = [].
Proof.
  induction l as [|v l IH]; intros n q HI Hl Hn.
  - destruct (pop_back_contents q T_init HI) as [(_ & _ & Hr)|(Hpos & _)].
    + exists q. split; [|done]. destruct n; simpl; [done|]. by rewrite Hr.
    + rewrite <- contents_length, Hl in Hpos. simpl in Hpos. lia.
  - destruct (pop_back_contents q T_init HI)
      as [(_ & He & _)|(_ & q1 & v1 & Hr & HI1 & Hq1 & _)].
    + by rewrite Hl in He.
    + rewrite Hl in Hq1. injection Hq1 as -> Hl1.
      simpl in Hn. destruct n as [|n]; [lia|]. simpl. rewrite Hr.
      destruct (IH n q1 HI1 (eq_sym Hl1) ltac:(lia)) as (q' & -> & HI' & Hq').
      exists q'. done.
Qed.


Lemma drain_front_suffix (l2 : list T) :
  forall (l1 : list T) (q : RunQueue T),
    Inv' q -> contents' q = l1 ++ l2 ->
    exists q', drain_front T_init moved_from log2N (length l2) q = (reverse l2, q') /\
               Inv' q' /\ contents' q' = l1.
Proof.
  induction l2 as [|v l2 IH] using rev_ind; intros l1 q HI Hl.
  - exists q. rewrite app_nil_r in Hl. done.
  - destruct (pop_front_contents q T_init HI)
      as [(_ & He & _)|(_ & q1 & v1 & Hr & HI1 & Hq1 & _)].
    + rewrite Hl in He. by destruct l1, l2.
    + rewrite Hl, app_assoc in Hq1. apply app_inj_tail in Hq1 as [Hl1 ->].
      rewrite length_app, Nat.add_1_r. simpl. rewrite Hr.
      destruct (IH l1 q1 HI1 (eq_sym Hl1)) as (q' & -> & HI' & Hq').
      exists q'. rewrite reverse_snoc. done.
Qed.

Lemma drain_back_prefix (l1 : list T) :
  forall (l2 : list T) (q : RunQueue T),
    Inv' q -> contents' q = l1 ++ l2 ->
    exists q', drain_back T_init moved_from log2N (length l1) q = (l1, q') /\
               Inv' q' /\ contents' q' = l2.
Proof.
  induction l1 as [|v l1 IH]; intros l2 q HI Hl.
  - exists q. done.
  - destruct (pop_back_contents q T_init HI)
      as [(_ & He & _)|(_ & q1 & v1 & Hr & HI1 & Hq1 & _)].
    + by rewrite Hl in He.
    + rewrite Hl in Hq1. injection Hq1 as -> Hl1. simpl. rewrite Hr.
      destruct (IH l2 q1 HI1 (eq_sym Hl1)) as (q' & -> & HI' & Hq').
      exists q'. done.
Qed.

(** X1.  Between the calls of a sequential history the mutex is free, both
    cursors are positions in [0, 2N), the array has [N] slots none of which
    is [BUSY], and the number of [READY] slots is the distance from [_back]
    to [_front] modulo [2N], at most [N]. *)
Theorem sequential_history_invariant (cs : list (Op * T)) :
  let q := run_calls T_init moved_from log2N cs in
  _mutex q = false /\
  0 <= _front q < 2 * N log2N /\ 0 <= _back q < 2 * N log2N /\
  Z.of_nat (length (_array q)) = N log2N /\
  (forall j, 0 <= j < N log2N -> state (item' q j) <> BUSY) /\
  num_ready q = (_front q - _back q) mod (2 * N log2N) /\
  0 <= num_ready q <= N log2N /\
  Z.of_nat (length (contents' q)) = num_ready q.
Proof.
  intros q. pose proof (run_calls_Inv cs) as HI. fold q in HI.
  pose proof N_range as HN. pose proof (count_range q) as Hc0.
  destruct HI as [Hm Hf Hb Hlen Hc Hs Hrd].
  unfold cursor_count in Hc0, Hc, Hrd.
  split; [done|]. split; [lia|]. split; [lia|]. split; [lia|]. split.
  { intros j Hj Hbusy. rewrite (Hs j Hj) in Hbusy. by case_decide. }
  split; [done|]. split; [lia|].
  rewrite Hrd. apply contents_length.
Qed.

(** X2.  On a queue reached by a sequential history [empty()] is true
    exactly when no slot holds a task; in particular a full queue, whose
    cursors address the same slot, is not reported empty. *)
Theorem empty_iff_no_task (cs : list (Op * T)) :
  let q := run_calls T_init moved_from log2N cs in
  (empty q = true <-> num_ready q = 0) /\
  (empty q = true <-> contents' q = []) /\
  (num_ready q = N log2N ->
     empty q = false /\
     Z.land (_front q) (IDX_MASK log2N) = Z.land (_back q) (IDX_MASK log2N)).
Proof.
  intros q. pose proof (run_calls_Inv cs) as HI. fold q in HI.
  pose proof N_range as HN.
  pose proof (inv_ready _ _ _ HI) as Hrd.
  pose proof (empty_iff_count q HI) as He.
  split; [by rewrite Hrd|]. split.
  - rewrite He, <- contents_length. destruct (contents' q); simpl; split; try done; lia.
  - intros Hfull. rewrite Hrd in Hfull. split.
    + destruct (decide (empty q = true)) as [Hq|Hq]; [|by destruct (empty q)].
      apply He in Hq. lia.
    + rewrite !land_IDX_MASK.
      apply (mod_sub_cancel _ _ (_back q)); [lia|].
      rewrite Z.sub_diag, Z.mod_0_l by lia.
      rewrite <- (mod_mod_double _ (_front q - _back q)) by lia.
      fold (count' q). rewrite Hfull. apply Z.mod_same. lia.
Qed.

(** X3.  On a queue reached by a sequential history with room left,
    [push_front] returns true and puts the task at the [_front] end of the
    held tasks, [push_back] returns true and puts it at the [_back] end;
    the other tasks keep their order.  On a full queue both return false. *)
Theorem push_refines_deque (cs : list (Op * T)) (w0 : T) :
  let q := run_calls T_init moved_from log2N cs in
  (num_ready q < N log2N ->
     (exists q', push_front T_init moved_from log2N q w0 = (true, q', moved_from w0) /\
                 contents' q' = contents' q ++ [w0]) /\
     (exists q', push_back T_init moved_from log2N q w0 = Some (true, q', moved_from w0) /\
                 contents' q' = w0 :: contents' q)) /\
  (num_ready q = N log2N ->
     push_front T_init moved_from log2N q w0 = (false, q, w0) /\
     push_back T_init moved_from log2N q w0 = Some (false, q, w0)).
Proof.
  intros q. pose proof (run_calls_Inv cs) as HI. fold q in HI.
  pose proof (inv_ready _ _ _ HI) as Hrd. rewrite Hrd.
  destruct (push_front_contents q w0 HI) as [(Hf & Hrf)|(Hf & qf & Hrf & _ & Hcf)];
  destruct (push_back_contents q w0 HI) as [(Hb & Hrb)|(Hb & qb & Hrb & _ & Hcb)];
    (split; [intros Hlt; try lia|intros Hfull; try lia]).
  - done.
  - split; [by exists qf|by exists qb].
Qed.

(** X4.  On a queue reached by a sequential history, [pop_front] hands out
    the task at the [_front] end and [pop_back] the task at the [_back]
    end, each removing exactly that task and keeping the order of the
    others; on a queue that holds no task both return false (and
    [pop_back] does so without taking the mutex). *)
Theorem pop_refines_deque (cs : list (Op * T)) (w0 : T) :
  let q := run_calls T_init moved_from log2N cs in
  (contents' q = [] ->
     pop_front T_init moved_from log2N q w0 = (false, q, w0) /\
     pop_back T_init moved_from log2N q w0 = (false, q, w0)) /\
  (forall l v, contents' q = l ++ [v] ->
     exists q', pop_front T_init moved_from log2N q w0 = (true, q', v) /\
                contents' q' = l) /\
  (forall l v, contents' q = v :: l ->
     exists q', pop_back T_init moved_from log2N q w0 = (true, q', v) /\
                contents' q' = l).
Proof.
  intros q. pose proof (run_calls_Inv cs) as HI. fold q in HI.
  destruct (pop_front_contents q w0 HI)
    as [(Hz & Hef & Hrf)|(Hpf & qf & vf & Hrf & _ & Hcf & _)];
  destruct (pop_back_contents q w0 HI)
    as [(Hz' & Heb & Hrb)|(Hpb & qb & vb & Hrb & _ & Hcb & _)]; try lia.
  - split; [done|]. split; intros l v Hl; rewrite Hl in Hef; [by destruct l|done].
  - split; [intros He; rewrite He in Hcb; done|]. split; intros l v Hl.
    + rewrite Hl in Hcf. apply app_inj_tail in Hcf as [-> ->]. by exists qf.
    + rewrite Hl in Hcb. injection Hcb as -> ->. by exists qb.
Qed.


(** X5.  Draining a queue reached by a sequential history hands out every
    held task exactly once and then stops: [n] calls of [pop_front], for any
    [n] not below the number of held tasks, give the tasks from the [_front]
    end to the [_back] end, [n] calls of [pop_back] give them in the
    opposite order, and the queue is empty afterwards. *)
Theorem drain_hands_out_each_task_once (cs : list (Op * T)) (n : nat) :
  let q := run_calls T_init moved_from log2N cs in
  num_ready q <= Z.of_nat n ->
  (exists q', drain_front T_init moved_from log2N n q = (reverse (contents' q), q') /\
              contents' q' = [] /\ empty q' = true) /\
  (exists q', drain_back T_init moved_from log2N n q = (contents' q, q') /\
              contents' q' = [] /\ empty q' = true).
Proof.
  intros q Hn. pose proof (run_calls_Inv cs) as HI. fold q in HI.
  rewrite (inv_ready _ _ _ HI), <- contents_length in Hn.
  assert (Hempty : forall q', Inv' q' -> contents' q' = [] -> empty q' = true).
  { intros q' HI' He. apply empty_iff_count; [done|].
    rewrite <- contents_length, He. done. }
  split.
  - destruct (drain_front_all (contents' q) n q HI eq_refl ltac:(lia))
      as (q' & Hd & HI' & Hq').
    exists q'. auto.
  - destruct (drain_back_all (contents' q) n q HI eq_refl ltac:(lia))
      as (q' & Hd & HI' & Hq').
    exists q'. auto.
Qed.

(** X6.  Order of service after a sequential history that left the queue
    holding [num_ready] tasks, for a batch [l] that fits.  Tasks pushed with
    [push_front] come back from [pop_front] newest first, and the tasks
    held before are all still there, in order (a worker runs its own
    subtasks depth first).  If the queue was empty, tasks pushed with
    [push_back] come out of [pop_front] in the order pushed, and tasks
    pushed with [push_front] come out of [pop_back] in the order pushed (a
    thief takes the oldest). *)
Theorem lifo_front_fifo_across (cs : list (Op * T)) (l : list T) :
  let q := run_calls T_init moved_from log2N cs in
  let pushed_front :=
    run_calls T_init moved_from log2N (cs ++ ((fun v => (PushFront, v)) <$> l)) in
  let pushed_back :=
    run_calls T_init moved_from log2N (cs ++ ((fun v => (PushBack, v)) <$> l)) in
  num_ready q + Z.of_nat (length l) <= N log2N ->
  (exists q', drain_front T_init moved_from log2N (length l) pushed_front
                = (reverse l, q') /\ contents' q' = contents' q) /\
  (contents' q = [] ->
     (exists q', drain_front T_init moved_from log2N (length l) pushed_back = (l, q') /\
                 contents' q' = []) /\
     (exists q', drain_back T_init moved_from log2N (length l) pushed_front = (l, q') /\
                 contents' q' = [])).
Proof.
  intros q pf pb Hroom. pose proof (run_calls_Inv cs) as HI. fold q in HI.
  rewrite (inv_ready _ _ _ HI) in Hroom.
  assert (HIf : Inv' pf) by apply run_calls_Inv.
  assert (HIb : Inv' pb) by apply run_calls_Inv.
  assert (Hcf : contents' pf = contents' q ++ l).
  { unfold pf. rewrite run_calls_app. by apply pushes_front_contents. }
  assert (Hcb : contents' pb = reverse l ++ contents' q).
  { unfold pb. rewrite run_calls_app. by apply pushes_back_contents. }
  split.
  - destruct (drain_front_suffix l (contents' q) pf HIf Hcf) as (q' & Hd & _ & Hq').
    by exists q'.
  - intros He. rewrite He in Hcf, Hcb. rewrite app_nil_r in Hcb. simpl in Hcf. split.
    + destruct (drain_front_suffix (reverse l) [] pb HIb Hcb) as (q' & Hd & _ & Hq').
      rewrite length_reverse, reverse_involutive in Hd. by exists q'.
    + destruct (drain_back_prefix l [] pf HIf ltac:(by rewrite app_nil_r))
        as (q' & Hd & _ & Hq').
      by exists q'.
Qed.

(** X7.  For every capacity the class allows, [IDX_MASK] is [N - 1] and
    [POS_MASK] is [2N - 1], also for [N = 2^31] where [N << 1] wraps to 0;
    masking reduces modulo [N] and [2N], so a cursor at [2N - 1] steps
    forward to 0 and a cursor at 0 steps back to [2N - 1], the unsigned
    subtraction [0 - 1] included. *)
Theorem masks_wrap_cursors (x : Z) :
  IDX_MASK log2N = N log2N - 1 /\
  POS_MASK log2N = 2 * N log2N - 1 /\
  Z.land x (IDX_MASK log2N) = x mod N log2N /\
  Z.land x (POS_MASK log2N) = x mod (2 * N log2N) /\
  Z.land (u32 (2 * N log2N - 1 + 1)) (POS_MASK log2N) = 0 /\
  Z.land (u32 (0 - 1)) (POS_MASK log2N) = 2 * N log2N - 1 /\
  Z.land (u32 (0 - 1)) (IDX_MASK log2N) = N log2N - 1.
Proof.
  pose proof N_range as HN.
  split; [apply IDX_MASK_eq|]. split; [apply POS_MASK_eq|].
  split; [apply land_IDX_MASK|]. split; [apply land_POS_MASK|].
  rewrite !land_POS_MASK, land_IDX_MASK, !u32_mod_2N, u32_mod_N.
  split; [|split].
  - replace (2 * N log2N - 1 + 1) with (2 * N log2N) by lia. apply Z.mod_same. lia.
  - apply mod_pred_zero; [lia|]. apply Z.mod_0_l. lia.
  - apply mod_pred_zero; [lia|]. apply Z.mod_0_l. lia.
Qed.


End RunQueueFacts.

(** ** RunQueue: failing calls *)

Section RunQueueFrame.

Context {T : Type}.
Variable T_init : T.
Variable moved_from : T -> T.
Variable log2N : nat.

Lemma cas_state_failed (q q1 : RunQueue T) (i : Z) (s d : SlotState) :
  cas_state T_init q i s d = (false, q1) -> q1 = q.
Proof.
  unfold cas_state, compare_exchange_strong.
  destruct (decide _); simpl; intros [= <-]; done.
Qed.

Lemma store_mutex_restore (q : RunQueue T) :
  _mutex q = false -> store_mutex (store_mutex q true) false = q.
Proof. destruct q; simpl. intros ->. reflexivity. Qed.

Lemma push_front_failed (q q' : RunQueue T) (w0 w' : T) :
  push_front T_init moved_from log2N q w0 = (false, q', w') -> q' = q /\ w' = w0.
Proof.
  unfold push_front. case_bool_decide; simpl; [|by intros [= <- <-]].
  destruct (cas_state _ _ _ _ _) as [[] q1] eqn:Hcas; simpl; [done|].
  intros [= <- <-]. by rewrite (cas_state_failed _ _ _ _ _ Hcas).
Qed.

Lemma pop_front_failed (q q' : RunQueue T) (w0 w' : T) :
  pop_front T_init moved_from log2N q w0 = (false, q', w') -> q' = q /\ w' = w0.
Proof.
  unfold pop_front. destruct (empty q); [by intros [= <- <-]|].
  case_bool_decide; simpl; [|by intros [= <- <-]].
  destruct (cas_state _ _ _ _ _) as [[] q1] eqn:Hcas; simpl; [done|].
  intros [= <- <-]. by rewrite (cas_state_failed _ _ _ _ _ Hcas).
Qed.

Lemma push_back_failed (q q' : RunQueue T) (w0 w' : T) :
  push_back T_init moved_from log2N q w0 = Some (false, q', w') ->
  q' = q /\ w' = w0.
Proof.
  unfold push_back. destruct (_mutex q) eqn:Hm; [done|].
  case_bool_decide; simpl.
  - destruct (cas_state _ _ _ _ _) as [[] q1] eqn:Hcas; simpl; [done|].
    intros [= <- <-]. rewrite (cas_state_failed _ _ _ _ _ Hcas).
    by rewrite store_mutex_restore.
  - intros [= <- <-]. by rewrite store_mutex_restore.
Qed.

Lemma pop_back_failed (q q' : RunQueue T) (w0 w' : T) :
  pop_back T_init moved_from log2N q w0 = (false, q', w') -> q' = q /\ w' = w0.
Proof.
  unfold pop_back. destruct (empty q); [by intros [= <- <-]|].
  destruct (_mutex q) eqn:Hm; [by intros [= <- <-]|].
  case_bool_decide; simpl.
  - destruct (cas_state _ _ _ _ _) as [[] q1] eqn:Hcas; simpl; [done|].
    intros [= <- <-]. rewrite (cas_state_failed _ _ _ _ _ Hcas).
    by rewrite store_mutex_restore.
  - intros [= <- <-]. by rewrite store_mutex_restore.
Qed.

(** [push_back] has a result whenever the mutex is free *)
Lemma push_back_returns (q : RunQueue T) (w0 : T) :
  _mutex q = false -> is_Some (push_back T_init moved_from log2N q w0).
Proof.
  intros Hm. unfold push_back. rewrite Hm.
  case_bool_decide; simpl; [|done].
  destruct (cas_state _ _ _ _ _) as [[] q1]; done.
Qed.

(** C10.  A call of [push_front], [pop_front], [push_back] or [pop_back]
    that returns false leaves the queue as it was (both cursors, the mutex,
    every slot's state and stored value) and leaves the caller's task
    argument untouched, so that no task is lost or duplicated.  This holds
    for every queue state, including one whose mutex is held by another
    thread and one with a slot in a state the call does not expect. *)
Theorem failed_call_leaves_queue_unchanged
    (op : Op) (q q' : RunQueue T) (w0 w' : T) :
  apply_op T_init moved_from log2N op q w0 = Some (false, q', w') ->
  q' = q /\ w' = w0.
Proof.
  destruct op; simpl.
  - intros [= H]. by apply push_front_failed.
  - intros [= H]. by apply pop_front_failed.
  - apply push_back_failed.
  - intros [= H]. by apply pop_back_failed.
Qed.

End RunQueueFrame.

(** ** xorshift32 *)

Lemma lxor_u32_range (a b : Z) :
  0 <= a < 2 ^ 32 -> 0 <= b < 2 ^ 32 -> 0 <= Z.lxor a b < 2 ^ 32.
Proof.
  intros Ha Hb.
  assert (H0 : 0 <= Z.lxor a b) by (apply Z.lxor_nonneg; lia).
  split; [done|].
  destruct (decide (Z.lxor a b = 0)) as [->|Hne]; [lia|].
  apply Z.log2_lt_pow2; [lia|].
  pose proof (Z.log2_lxor a b ltac:(lia) ltac:(lia)) as Hl.
  assert (Z.log2 a < 32).
  { destruct (decide (a = 0)) as [->|]; [simpl; lia|]. apply Z.log2_lt_pow2; lia. }
  assert (Z.log2 b < 32).
  { destruct (decide (b = 0)) as [->|]; [simpl; lia|]. apply Z.log2_lt_pow2; lia. }
  lia.
Qed.

(** [x ^= x << k] keeps a nonzero 32-bit value nonzero *)
Lemma xor_shl_nonzero (x k : Z) :
  0 < k -> Z.gcd (2 ^ 32) (2 ^ k - 1) = 1 -> 0 < x < 2 ^ 32 ->
  0 < Z.lxor x (u32 (Z.shiftl x k)) < 2 ^ 32.
Proof.
  intros Hk Hg Hx.
  pose proof (Z.mod_pos_bound (Z.shiftl x k) (2 ^ 32) ltac:(lia)) as Hs.
  fold (u32 (Z.shiftl x k)) in Hs.
  pose proof (lxor_u32_range x (u32 (Z.shiftl x k)) ltac:(lia) Hs) as Hr.
  enough (Z.lxor x (u32 (Z.shiftl x k)) <> 0) by lia.
  intros H0. apply Z.lxor_eq in H0.
  unfold u32 in H0. rewrite Z.shiftl_mul_pow2 in H0 by lia.
  assert (Hc : (x * 2 ^ k - x) mod 2 ^ 32 = 0).
  { apply Z.cong_iff_0. rewrite (Z.mod_small x) by lia. by symmetry. }
  apply Z.mod_divide in Hc; [|lia].
  replace (x * 2 ^ k - x) with ((2 ^ k - 1) * x) in Hc by lia.
  apply Z.gauss in Hc; [|done].
  apply Z.divide_pos_le in Hc; lia.
Qed.

(** [x ^= x >> k] keeps a nonzero 32-bit value nonzero *)
Lemma xor_shr_nonzero (x k : Z) :
  0 < k -> 0 < x < 2 ^ 32 -> 0 < Z.lxor x (Z.shiftr x k) < 2 ^ 32.
Proof.
  intros Hk Hx.
  assert (Hs : 0 <= Z.shiftr x k < x).
  { rewrite Z.shiftr_div_pow2 by lia. split.
    - apply Z.div_pos; lia.
    - apply Z.div_lt; [lia|]. apply (Z.pow_gt_1 2 k); lia. }
  pose proof (lxor_u32_range x (Z.shiftr x k) ltac:(lia) ltac:(lia)) as Hr.
  enough (Z.lxor x (Z.shiftr x k) <> 0) by lia.
  intros H0. apply Z.lxor_eq in H0. lia.
Qed.

Lemma xorshift32_nonzero (x : Z) :
  0 < x < 2 ^ 32 -> 0 < _xorshift32 x < 2 ^ 32.
Proof.
  intros Hx. unfold _xorshift32.
  apply xor_shl_nonzero; [lia | reflexivity |].
  apply xor_shr_nonzero; [lia|].
  apply xor_shl_nonzero; [lia | reflexivity | done].
Qed.

Lemma xorshift32_iter_nonzero (n : nat) (x : Z) :
  0 < x < 2 ^ 32 -> 0 < Nat.iter n _xorshift32 x < 2 ^ 32.
Proof.
  intros Hx. induction n as [|n IH]; simpl; [done|].
  by apply xorshift32_nonzero.
Qed.

(** C8.  One xorshift32 step maps a nonzero 32-bit value to a nonzero
    32-bit value; the seed [index + 1] of a worker is nonzero, and it stays
    nonzero after any number of steps.  (Worker indices are far below
    [2 ^ 32 - 1], where the conversion of [index + 1] to [uint32_t] would
    give zero.) *)
Theorem xorshift32_never_zero (x index : Z) (steps : nat) :
  0 < x < 2 ^ 32 ->
  0 <= index < 2 ^ 32 - 1 ->
  0 < _xorshift32 x < 2 ^ 32 /\
  worker_seed index = index + 1 /\
  Nat.iter steps _xorshift32 (worker_seed index) <> 0.
Proof.
  intros Hx Hi. split; [by apply xorshift32_nonzero|].
  assert (Hs : worker_seed index = index + 1).
  { unfold worker_seed, usize, u32.
    change (2 ^ 32) with 4294967296 in *. change (2 ^ 64) with 18446744073709551616.
    rewrite (Z.mod_small (index + 1)) by lia. rewrite Z.mod_small by lia. done. }
  split; [done|].
  pose proof (xorshift32_iter_nonzero steps (worker_seed index)) as H.
  rewrite Hs in *. lia.
Qed.

(** *** xorshift32 is injective *)

Lemma land_lxor_distr (a b c : Z) :
  Z.land (Z.lxor a b) c = Z.lxor (Z.land a c) (Z.land b c).
Proof.
  apply Z.bits_inj'. intros n Hn.
  rewrite !Z.lxor_spec, !Z.land_spec, Z.lxor_spec.
  destruct (Z.testbit a n), (Z.testbit b n), (Z.testbit c n); reflexivity.
Qed.

Lemma u32_lxor (a b : Z) : u32 (Z.lxor a b) = Z.lxor (u32 a) (u32 b).
Proof.
  unfold u32. rewrite <- !(Z.land_ones _ 32) by lia. apply land_lxor_distr.
Qed.

Lemma lxor_cancel_pairs (x y sx sy : Z) :
  Z.lxor x sx = Z.lxor y sy -> Z.lxor (Z.lxor x y) (Z.lxor sx sy) = 0.
Proof.
  intros H.
  replace (Z.lxor (Z.lxor x y) (Z.lxor sx sy)) with (Z.lxor (Z.lxor x sx) (Z.lxor y sy)).
  - rewrite H. apply Z.lxor_nilpotent.
  - rewrite !Z.lxor_assoc. f_equal.
    rewrite <- !Z.lxor_assoc. f_equal. apply Z.lxor_comm.
Qed.

Lemma xor_shl_inj (x y k : Z) :
  0 < k -> Z.gcd (2 ^ 32) (2 ^ k - 1) = 1 ->
  0 <= x < 2 ^ 32 -> 0 <= y < 2 ^ 32 ->
  Z.lxor x (u32 (Z.shiftl x k)) = Z.lxor y (u32 (Z.shiftl y k)) -> x = y.
Proof.
  intros Hk Hg Hx Hy H. apply lxor_cancel_pairs in H.
  rewrite <- u32_lxor, <- Z.shiftl_lxor in H.
  pose proof (lxor_u32_range x y Hx Hy) as Hz.
  apply Z.lxor_eq.
  destruct (decide (Z.lxor x y = 0)) as [|Hne]; [done|].
  pose proof (xor_shl_nonzero (Z.lxor x y) k Hk Hg ltac:(lia)). lia.
Qed.

Lemma xor_shr_inj (x y k : Z) :
  0 < k -> 0 <= x < 2 ^ 32 -> 0 <= y < 2 ^ 32 ->
  Z.lxor x (Z.shiftr x k) = Z.lxor y (Z.shiftr y k) -> x = y.
Proof.
  intros Hk Hx Hy H. apply lxor_cancel_pairs in H.
  rewrite <- Z.shiftr_lxor in H.
  pose proof (lxor_u32_range x y Hx Hy) as Hz.
  apply Z.lxor_eq.
  destruct (decide (Z.lxor x y = 0)) as [|Hne]; [done|].
  pose proof (xor_shr_nonzero (Z.lxor x y) k Hk ltac:(lia)). lia.
Qed.

Lemma u32_range (x : Z) : 0 <= u32 x < 2 ^ 32.
Proof. unfold u32. apply Z.mod_pos_bound. lia. Qed.

Lemma shr_u32_range (x k : Z) : 0 <= k -> 0 <= x < 2 ^ 32 -> 0 <= Z.shiftr x k < 2 ^ 32.
Proof.
  intros Hk Hx. rewrite Z.shiftr_div_pow2 by lia. split.
  - apply Z.div_pos; lia.
  - apply Z.le_lt_trans with x; [|lia]. apply Z.div_le_upper_bound; [lia|].
    assert (1 <= 2 ^ k) by (apply Z.pow_le_mono_r with (b := 0); lia).
    nia.
Qed.

Lemma xorshift32_range (x : Z) : 0 <= x < 2 ^ 32 -> 0 <= _xorshift32 x < 2 ^ 32.
Proof.
  intros Hx. unfold _xorshift32.
  repeat first [apply lxor_u32_range | apply u32_range | apply shr_u32_range | lia | done].
Qed.

Lemma xorshift32_inj (x y : Z) :
  0 <= x < 2 ^ 32 -> 0 <= y < 2 ^ 32 -> _xorshift32 x = _xorshift32 y -> x = y.
Proof.
  intros Hx Hy H. unfold _xorshift32 in H.
  pose proof (lxor_u32_range x _ Hx (u32_range (Z.shiftl x 13))) as H1x.
  pose proof (lxor_u32_range y _ Hy (u32_range (Z.shiftl y 13))) as H1y.
  apply xor_shl_inj in H; [|lia|reflexivity|..].
  - apply xor_shr_inj in H; [|lia|done..].
    apply xor_shl_inj in H; [done|lia|reflexivity|done..].
  - apply lxor_u32_range; [done|]. apply shr_u32_range; [lia|done].
  - apply lxor_u32_range; [done|]. apply shr_u32_range; [lia|done].
Qed.

Lemma xorshift32_iter_range (n : nat) (x : Z) :
  0 <= x < 2 ^ 32 -> 0 <= Nat.iter n _xorshift32 x < 2 ^ 32.
Proof.
  intros Hx. induction n as [|n IH]; simpl; [done|]. by apply xorshift32_range.
Qed.

(** X8.  One xorshift32 step is injective on 32-bit values, so the random
    sequences of two workers never meet: workers with different indices
    hold different [dice] values after any common number of steps. *)
Theorem xorshift32_keeps_workers_apart (x y i j : Z) (steps : nat) :
  0 <= x < 2 ^ 32 -> 0 <= y < 2 ^ 32 ->
  0 <= i < 2 ^ 32 - 1 -> 0 <= j < 2 ^ 32 - 1 ->
  (_xorshift32 x = _xorshift32 y -> x = y) /\
  (i <> j ->
   Nat.iter steps _xorshift32 (worker_seed i)
     <> Nat.iter steps _xorshift32 (worker_seed j)).
Proof.
  intros Hx Hy Hi Hj. split; [by apply xorshift32_inj|].
  intros Hne.
  assert (Hs : forall k, 0 <= k < 2 ^ 32 - 1 -> worker_seed k = k + 1).
  { intros k Hk. unfold worker_seed, usize, u32.
    change (2 ^ 32) with 4294967296 in *. change (2 ^ 64) with 18446744073709551616.
    rewrite (Z.mod_small (k + 1)) by lia. rewrite Z.mod_small by lia. done. }
  rewrite !Hs by done.
  assert (Hri : 0 <= i + 1 < 2 ^ 32) by lia.
  assert (Hrj : 0 <= j + 1 < 2 ^ 32) by lia.
  assert (Hneq : i + 1 <> j + 1) by lia.
  clear Hs Hne Hi Hj. revert Hneq.
  generalize dependent (j + 1). generalize dependent (i + 1). clear i j.
  intros a Ha b Hb Hab.
  induction steps as [|n IH]; simpl; [done|].
  intros Heq. apply IH. apply xorshift32_inj; [by apply xorshift32_iter_range..|done].
Qed.


(** ** Coprime strides and the victim walk *)



(** the loop of [spawn] is a filter over [i, i+1, ..., W] *)
Lemma coprimes_loop_filter (n : nat) (i W : Z) (acc : list Z) :
  1 <= i -> Z.of_nat n = W + 1 - i -> W < 2 ^ 64 - 1 ->
  coprimes_loop n i W acc =
    acc ++ filter (fun k => Z.gcd k W = 1) (seqZ i (W + 1 - i)).
Proof.
  revert i acc. induction n as [|n IH]; intros i acc Hi Hn HW.
  - simpl. replace (W + 1 - i) with 0 by lia. simpl. by rewrite app_nil_r.
  - simpl.
    destruct (Z.leb_spec i W) as [Hle|Hgt]; [|lia].
    assert (Hu : usize (i + 1) = i + 1) by (unfold usize; apply Z.mod_small; lia).
    rewrite Hu, IH by lia.
    rewrite (seqZ_cons i) by lia. rewrite filter_cons.
    replace (Z.pred (W + 1 - i)) with (W + 1 - (i + 1)) by lia.
    replace (Z.succ i) with (i + 1) by lia.
    destruct (Z.eqb_spec (Z.gcd i W) 1) as [Hg|Hg].
    + rewrite decide_True by done. by rewrite <- app_assoc.
    + rewrite decide_False by done. done.
Qed.

Lemma compute_coprimes_filter (W : Z) :
  0 <= W < 2 ^ 64 - 1 ->
  compute_coprimes W = filter (fun k => Z.gcd k W = 1) (seqZ 1 W).
Proof.
  intros HW. unfold compute_coprimes.
  rewrite coprimes_loop_filter by lia. simpl. f_equal. f_equal. lia.
Qed.

Lemma elem_of_compute_coprimes (W k : Z) :
  0 <= W < 2 ^ 64 - 1 ->
  k ∈ compute_coprimes W <-> 1 <= k <= W /\ Z.gcd k W = 1.
Proof.
  intros HW. rewrite compute_coprimes_filter by done.
  rewrite list_elem_of_filter, elem_of_seqZ. lia.
Qed.


(** with a stride in [1, W] the two statements compute [(victim + inc) mod W] *)
Lemma next_victim_mod (W inc victim : Z) :
  1 <= W <= 2 ^ 63 -> 1 <= inc <= W -> 0 <= victim < W ->
  next_victim W inc victim = (victim + inc) mod W.
Proof.
  intros HW Hinc Hv. unfold next_victim, usize.
  change (2 ^ 63) with 9223372036854775808 in *.
  change (2 ^ 64) with 18446744073709551616.
  rewrite (Z.mod_small (victim + inc)) by lia.
  destruct (Z.geb_spec (victim + inc) W) as [Hge|Hlt].
  - rewrite Z.mod_small by lia.
    replace (victim + inc) with ((victim + inc - W) + 1 * W) at 2 by lia.
    rewrite Z.mod_add by lia. symmetry. apply Z.mod_small. lia.
  - symmetry. apply Z.mod_small. lia.
Qed.

Lemma victim_walk_closed (n : nat) (W inc victim : Z) :
  1 <= W <= 2 ^ 63 -> 1 <= inc <= W -> 0 <= victim < W ->
  victim_walk n W inc victim =
    (fun j => (victim + j * inc) mod W) <$> seqZ 0 (Z.of_nat n).
Proof.
  intros HW Hinc. revert victim. induction n as [|n IH]; intros victim Hv; [done|].
  simpl victim_walk. rewrite seqZ_cons by lia.
  replace (Z.pred (Z.of_nat (S n))) with (Z.of_nat n) by lia.
  rewrite fmap_cons. f_equal.
  - rewrite Z.mul_0_l, Z.add_0_r. symmetry. apply Z.mod_small. lia.
  - rewrite next_victim_mod by done.
    rewrite IH by (apply Z.mod_pos_bound; lia).
    replace (Z.succ 0) with (1 + 0) by lia.
    rewrite <- fmap_add_seqZ, <- list_fmap_compose.
    apply list_fmap_ext. intros _ j _. simpl.
    rewrite Zplus_mod_idemp_l. f_equal. lia.
Qed.

(** a stride coprime to [W] makes the walk injective *)
Lemma walk_inj (W inc victim j j' : Z) :
  1 <= W -> Z.gcd inc W = 1 ->
  0 <= j < W -> 0 <= j' < W ->
  (victim + j * inc) mod W = (victim + j' * inc) mod W -> j = j'.
Proof.
  intros HW Hg Hj Hj' Heq.
  apply Z.cong_iff_0 in Heq.
  replace (victim + j * inc - (victim + j' * inc)) with (inc * (j - j')) in Heq by lia.
  apply Z.mod_divide in Heq; [|lia].
  apply Z.gauss in Heq; [|by rewrite Z.gcd_comm].
  destruct (decide (j - j' = 0)) as [|Hne]; [lia|].
  apply Z.absle_divide in Heq; [|done]. lia.
Qed.

Lemma victim_walk_perm (W inc victim : Z) :
  1 <= W <= 2 ^ 63 -> 1 <= inc <= W -> Z.gcd inc W = 1 -> 0 <= victim < W ->
  victim_walk (Z.to_nat W) W inc victim ≡ₚ seqZ 0 W.
Proof.
  intros HW Hinc Hg Hv.
  rewrite victim_walk_closed by done. rewrite Z2Nat.id by lia.
  apply submseteq_length_Permutation.
  - apply NoDup_submseteq.
    + apply NoDup_fmap_2_strong; [|apply NoDup_seqZ].
      intros j j' Hj Hj'. apply elem_of_seqZ in Hj, Hj'.
      apply walk_inj; [lia | done | lia | lia].
    + intros x Hx. apply list_elem_of_fmap in Hx as (j & -> & _).
      apply elem_of_seqZ. pose proof (Z.mod_pos_bound (victim + j * inc) W). lia.
  - by rewrite length_fmap.
Qed.


(** ** The pool *)

Section PoolFacts.

Context {Callable R : Type}.
Variable call : Callable -> R.
Variable moved_from : TaskType Callable -> TaskType Callable.

Abbreviation Task := (TaskType Callable).
Abbreviation run' := (run (Callable:=Callable) (R:=R)).
Abbreviation keeps' := (keeps (Callable:=Callable) (R:=R)).

Lemma is_owner_false (self : thread_id) (p : Pool Callable) :
  self <> _owner p -> is_owner self p = false.
Proof. intros H. unfold is_owner. by rewrite bool_decide_eq_false_2. Qed.

Lemma is_owner_true (p : Pool Callable) : is_owner (_owner p) p = true.
Proof. unfold is_owner. by rewrite bool_decide_eq_true_2. Qed.

(** C5.  [spawn], [shutdown] and [wait_for_all] called on a thread that is
    not the owner throw, without an event and with every member of the pool
    as it was; the pool is the same value afterwards, so whatever the owner
    calls next runs as if the rejected call had not been made. *)
Theorem non_owner_call_rejected
    (p : Pool Callable) (self : thread_id) (fresh : Z -> thread_id) (N : Z) :
  self <> _owner p ->
  run' (spawn self fresh N) p
    = (Threw "Worker thread cannot spawn threads", (p, [])) /\
  run' (shutdown moved_from self) p
    = (Threw "Worker thread cannot shut down the pool", (p, [])) /\
  run' (wait_for_all self) p
    = (Threw "Worker thread cannot wait for all", (p, [])).
Proof.
  intros Hne. unfold run, spawn, shutdown, wait_for_all, bind, get, throw. simpl.
  rewrite is_owner_false by done. done.
Qed.


(** C9.  [num_tasks] is the length of the shared overflow queue
    [_task_queue]; it does not depend on the workers' private run queues,
    whatever they hold. *)
Theorem num_tasks_is_overflow_length (p : Pool Callable) :
  num_tasks p = Z.of_nat (length (_task_queue p)) /\
  (forall ws : list (Worker Callable), num_tasks (set_works ws p) = num_tasks p).
Proof. split; [reflexivity|]. intros ws. reflexivity. Qed.

(** the branch of [silent_async] taken on a worker thread *)
Lemma silent_async_worker_path
    (p : Pool Callable) (self : thread_id) (t : Task) (idx : Z)
    (wk : Worker Callable) :
  num_workers p <> 0 ->
  self <> _owner p ->
  _worker_map p !! self = Some idx ->
  _works p !! Z.to_nat idx = Some wk ->
  let r := push_front task_null moved_from WorkQueue_log2N (queue wk) t in
  (r.1.1 = true ->
     run' (silent_async moved_from self t) p
       = (Returned tt,
          (set_works (<[Z.to_nat idx := mkWorker r.1.2]> (_works p)) p, []))) /\
  (r.1.1 = false ->
     r.1.2 = queue wk /\
     run' (silent_async moved_from self t) p
       = (Returned tt,
          (set_task_queue (_task_queue p ++ [t]) p, [EvLock; EvUnlock]))).
Proof.
  intros HW Hne Hmap Hwk r.
  assert (Hrun : run' (silent_async moved_from self t) p =
    (Returned tt,
     (set_task_queue (if r.1.1 then _task_queue p else _task_queue p ++ [r.2])
        (set_works (<[Z.to_nat idx := mkWorker r.1.2]> (_works p)) p),
      if r.1.1 then [] else [EvLock; EvUnlock]))).
  { unfold run, silent_async, bind, get. simpl.
    destruct (Z.eqb_spec (num_workers p) 0) as [|_]; [done|].
    rewrite is_owner_false by done. simpl. rewrite Hmap.
    unfold works_at, bind, get, ret. simpl. rewrite Hwk. fold r.
    destruct r as [[[] q'] t']; simpl; destruct p; reflexivity. }
  split; intros Hr.
  - rewrite Hrun, Hr. destruct p; reflexivity.
  - assert (Hr' : r = (false, r.1.2, r.2)) by (destruct r as [[] ?]; simpl in *; congruence).
    apply push_front_failed in Hr' as [Hq Ht]. split; [done|].
    rewrite Hrun, Hr, Hq, Ht.
    rewrite list_insert_id by (rewrite Hwk; by destruct wk).
    destruct p; reflexivity.
Qed.

(** *** Loops that only update members and log events *)

Lemma for_each_pure {A} (l : list A) (body : A -> M (Callable:=Callable) (R:=R) unit)
    (f : Pool Callable -> A -> Pool Callable) (ev : A -> list (Event Callable R)) :
  (forall x p tr, body x (p, tr) = (Returned tt, (f p x, tr ++ ev x))) ->
  forall p tr,
    for_each l body (p, tr) = (Returned tt, (foldl f p l, tr ++ concat (ev <$> l))).
Proof.
  intros Hbody. induction l as [|x l IH]; intros p tr; simpl.
  - by rewrite app_nil_r.
  - unfold bind. rewrite Hbody, IH. by rewrite <- app_assoc.
Qed.

(** *** [spawn] on a pool without threads *)

Lemma spawn_body_closed (fresh : Z -> thread_id) (N : Z) (p : Pool Callable) :
  run' (spawn_body fresh N) p =
    (Returned tt,
     (spawned fresh N p,
      [EvLock]
      ++ ((fun i => EvThreadStart (fresh i) (usize (i + Z.of_nat (length (_threads p)))))
            <$> seqZ 0 N)
      ++ [EvUnlock])).
Proof.
  unfold run, spawn_body, bind, get, emit, modify. simpl.
  rewrite (for_each_pure _ _ (fun p _ => spawn_add_worker p) (fun _ => []));
    [|intros; by rewrite app_nil_r].
  rewrite (for_each_pure _ _
             (spawn_start_thread fresh (Z.of_nat (length (_threads p))))
             (fun i => [EvThreadStart (fresh i)
                          (usize (i + Z.of_nat (length (_threads p))))]));
    [|done].
  simpl. unfold spawned. f_equal. f_equal.
  assert (Hnil : forall l : list Z,
             concat ((fun _ : Z => @nil (Event Callable R)) <$> l) = []).
  { intros l. induction l; simpl; done. }
  rewrite Hnil. simpl. f_equal. f_equal.
  generalize (seqZ 0 N). intros l. induction l as [|x l IH]; [done|].
  rewrite !fmap_cons. simpl. f_equal. exact IH.
Qed.

Lemma spawn_on_empty_pool (fresh : Z -> thread_id) (N : Z) (p : Pool Callable) :
  _threads p = [] ->
  run' (spawn (_owner p) fresh N) p =
    (Returned tt,
     (spawned fresh N p,
      [EvLock] ++ ((fun i => EvThreadStart (fresh i) (usize (i + 0))) <$> seqZ 0 N)
      ++ [EvUnlock])).
Proof.
  intros Hth. pose proof (spawn_body_closed fresh N p) as Hb.
  rewrite Hth in Hb. simpl in Hb.
  unfold run, spawn, bind, get in *. simpl.
  rewrite is_owner_true, Hth. simpl. exact Hb.
Qed.


(** the branch of [silent_async] taken on the owner's thread and on threads
    that are not in [_worker_map] *)
Lemma silent_async_round_robin_path
    (p : Pool Callable) (self : thread_id) (t : Task) (wk : Worker Callable) :
  num_workers p <> 0 ->
  self = _owner p \/ _worker_map p !! self = None ->
  let counter := usize (_next_queue p + 1) in
  let id := counter mod Z.of_nat (length (_works p)) in
  _works p !! Z.to_nat id = Some wk ->
  _mutex (queue wk) = false ->
  exists (ok : bool) (q' : RunQueue Task) (t' : Task),
    push_back task_null moved_from WorkQueue_log2N (queue wk) t = Some (ok, q', t') /\
    run' (silent_async moved_from self t) p
      = (Returned tt,
         (set_task_queue (if ok then _task_queue p else _task_queue p ++ [t])
            (set_works (<[Z.to_nat id := mkWorker q']> (_works p))
               (set_next_queue counter p)),
          (if ok then [] else [EvLock; EvUnlock]) ++ [EvNotifyWorker id])).
Proof.
  intros HW Hself counter id Hwk Hm.
  destruct (push_back_returns task_null moved_from WorkQueue_log2N (queue wk) t Hm)
    as [[[ok q'] t'] Hpb].
  exists ok, q', t'. split; [done|].
  assert (Hroute : (if negb (is_owner self p) then _worker_map p !! self else None) = None).
  { destruct Hself as [->| ->]; [by rewrite is_owner_true|by destruct (negb _)]. }
  assert (Hsz : (Z.of_nat (length (_works p)) =? 0) = false).
  { apply Z.eqb_neq. apply lookup_lt_Some in Hwk. lia. }
  unfold run, silent_async, bind, get. simpl.
  destruct (Z.eqb_spec (num_workers p) 0) as [|_]; [done|].
  rewrite Hroute. unfold modify. simpl. rewrite Hsz.
  unfold works_at, bind, get, ret. simpl. fold counter id. rewrite Hwk, Hpb.
  destruct ok; simpl.
  - destruct p; reflexivity.
  - apply push_back_failed in Hpb as [_ ->]. destruct p; reflexivity.
Qed.


(** *** Consistency of the worker tables *)

Lemma add_workers_fields {A} (l : list A) (p : Pool Callable) :
  let p' := foldl (fun p _ => spawn_add_worker p) p l in
  length (_works p') = (length (_works p) + length l)%nat /\
  _threads p' = _threads p /\ _worker_map p' = _worker_map p /\
  _coprimes p' = _coprimes p /\ _owner p' = _owner p.
Proof.
  revert p. induction l as [|x l IH]; intros p; simpl.
  - repeat split; lia.
  - destruct (IH (spawn_add_worker p)) as (Hw & Ht & Hm & Hc & Ho). simpl in *.
    rewrite Hw, Ht, Hm, Hc, Ho, length_app. simpl. repeat split; lia.
Qed.

Lemma start_threads_fields (fresh : Z -> thread_id) (sz : Z) (l : list Z)
    (p : Pool Callable) :
  let p' := foldl (spawn_start_thread fresh sz) p l in
  _threads p' = _threads p ++ (fresh <$> l) /\
  _works p' = _works p /\ _coprimes p' = _coprimes p /\ _owner p' = _owner p /\
  (forall tid i, _worker_map p' !! tid = Some i ->
     _worker_map p !! tid = Some i \/ exists j, j ∈ l /\ i = usize (j + sz)).
Proof.
  revert p. induction l as [|x l IH]; intros p; simpl.
  - rewrite app_nil_r. repeat split. intros; by left.
  - destruct (IH (spawn_start_thread fresh sz p x)) as (Ht & Hw & Hc & Ho & Hm).
    simpl in *. rewrite Ht, Hw, Hc, Ho, <- app_assoc. repeat split.
    intros tid i Hi. destruct (Hm tid i Hi) as [Hold|(j & Hj & ->)].
    + destruct (_worker_map p !! fresh x) eqn:Hf; [by left|].
      destruct (decide (fresh x = tid)) as [<-|Hne].
      * rewrite lookup_insert_eq in Hold. injection Hold as <-.
        right. exists x. split; [left|done].
      * rewrite lookup_insert_ne in Hold by done. by left.
    + right. exists j. split; [by right|done].
Qed.

Lemma spawned_fields (fresh : Z -> thread_id) (N : Z) (p : Pool Callable) :
  0 <= N ->
  let p' := spawned fresh N p in
  _coprimes p' = compute_coprimes (usize (num_workers p + N)) /\
  _threads p' = _threads p ++ (fresh <$> seqZ 0 N) /\
  num_workers p' = num_workers p + N /\
  _owner p' = _owner p.
Proof.
  intros HN p'. unfold p', spawned.
  set (p1 := set_coprimes _ p).
  destruct (add_workers_fields (seqZ 0 N) p1) as (Hw1 & Ht1 & Hm1 & Hc1 & Ho1).
  set (p2 := foldl _ p1 (seqZ 0 N)) in *.
  destruct (start_threads_fields fresh (Z.of_nat (length (_threads p))) (seqZ 0 N) p2)
    as (Ht2 & Hw2 & Hc2 & Ho2 & Hm2).
  cbv zeta in *. rewrite Hc2, Hc1, Ht2, Ht1, Ho2, Ho1. simpl.
  repeat split. unfold num_workers. rewrite Ht2, Ht1. simpl.
  rewrite length_app, length_fmap, length_seqZ. lia.
Qed.

Lemma spawned_wf (fresh : Z -> thread_id) (N : Z) (p : Pool Callable) :
  0 <= N -> num_workers p + N < 2 ^ 64 ->
  pool_wf p -> pool_wf (spawned fresh N p).
Proof.
  intros HN Hbound [Hlen Hmap]. unfold spawned.
  set (p1 := set_coprimes _ p).
  destruct (add_workers_fields (seqZ 0 N) p1) as (Hw1 & Ht1 & Hm1 & Hc1 & Ho1).
  set (p2 := foldl _ p1 (seqZ 0 N)) in *.
  destruct (start_threads_fields fresh (Z.of_nat (length (_threads p))) (seqZ 0 N) p2)
    as (Ht2 & Hw2 & Hc2 & Ho2 & Hm2).
  cbv zeta in *. simpl in *. split.
  - rewrite Hw2, Hw1, Ht2, Ht1, length_app, length_fmap, Hlen. done.
  - intros tid i Hi. rewrite Ht2, Ht1, length_app, length_fmap, length_seqZ.
    destruct (Hm2 tid i Hi) as [Hold|(j & Hj & ->)].
    + rewrite Hm1 in Hold. apply Hmap in Hold. lia.
    + apply elem_of_seqZ in Hj. unfold num_workers in Hbound.
      unfold usize. rewrite Z.mod_small by lia. lia.
Qed.

Lemma Pool_init_wf (self : thread_id) : pool_wf (Pool_init (Callable:=Callable) self).
Proof. split; [done|]. intros tid i Hi. simpl in Hi. by rewrite lookup_empty in Hi. Qed.

(** the pool a constructor call builds is consistent *)
Lemma Pool_ctor_wf (self : thread_id) (fresh : Z -> thread_id) (N : Z) :
  0 <= N < 2 ^ 32 ->
  (Pool_ctor (Callable:=Callable) (R:=R) self fresh N).1 = Returned tt /\
  pool_wf (Pool_ctor (Callable:=Callable) (R:=R) self fresh N).2.1 /\
  num_workers (Pool_ctor (Callable:=Callable) (R:=R) self fresh N).2.1 = N.
Proof.
  intros HN. unfold Pool_ctor.
  pose proof (spawn_on_empty_pool fresh N (Pool_init self) eq_refl) as Hs.
  simpl in Hs. rewrite Hs. simpl. split; [done|]. split.
  - apply spawned_wf; [lia| |apply Pool_init_wf].
    unfold num_workers. simpl (Z.of_nat _).
    change (2 ^ 32) with 4294967296 in *.
    change (2 ^ 64) with 18446744073709551616. lia.
  - destruct (spawned_fields fresh N (Pool_init self) ltac:(lia)) as (_ & _ & Hn & _).
    rewrite Hn. reflexivity.
Qed.


(** C6.  A submission on a worker thread (registered in [_worker_map], not
    the owner) calls [push_front] on that worker's own queue.  If it returns
    true, [silent_async] returns with no event at all, so no condition
    variable is notified; if it returns false, the task is appended to
    [_task_queue] between taking and releasing the pool's mutex, again with
    no notification, and the worker's queue is as before. *)
Theorem worker_submission_uses_own_queue
    (p : Pool Callable) (self : thread_id) (t : Task) (idx : Z) :
  pool_wf p ->
  self <> _owner p ->
  _worker_map p !! self = Some idx ->
  exists wk : Worker Callable,
    _works p !! Z.to_nat idx = Some wk /\
    let r := push_front task_null moved_from WorkQueue_log2N (queue wk) t in
    (r.1.1 = true ->
       run' (silent_async moved_from self t) p
         = (Returned tt,
            (set_works (<[Z.to_nat idx := mkWorker r.1.2]> (_works p)) p, []))) /\
    (r.1.1 = false ->
       r.1.2 = queue wk /\
       run' (silent_async moved_from self t) p
         = (Returned tt,
            (set_task_queue (_task_queue p ++ [t]) p, [EvLock; EvUnlock]))).
Proof.
  intros [Hlen Hmap] Hne Hself. pose proof (Hmap _ _ Hself) as Hidx.
  destruct (lookup_lt_is_Some_2 (_works p) (Z.to_nat idx) ltac:(lia)) as [wk Hwk].
  exists wk. split; [done|].
  apply silent_async_worker_path; [|done..].
  unfold num_workers. lia.
Qed.

(** C3 (as the code has it).  A submission by the owner, or by a thread
    that is not in [_worker_map], increments [_next_queue] first and routes
    with the incremented value: [id = (_next_queue + 1) mod W], the sum
    reduced to [size_t] and [W] the number of workers.  [push_back] is
    called on the queue of worker [id]; if it returns false the task goes to
    [_task_queue] under the pool's mutex; in both cases the condition
    variable of worker [id], and no other, is notified. *)
Theorem round_robin_uses_incremented_counter
    (p : Pool Callable) (self : thread_id) (t : Task) :
  pool_wf p ->
  num_workers p <> 0 ->
  self = _owner p \/ _worker_map p !! self = None ->
  let counter := usize (_next_queue p + 1) in
  let id := counter mod num_workers p in
  exists wk : Worker Callable,
    _works p !! Z.to_nat id = Some wk /\
    (_mutex (queue wk) = false ->
     exists (ok : bool) (q' : RunQueue Task) (t' : Task),
       push_back task_null moved_from WorkQueue_log2N (queue wk) t = Some (ok, q', t') /\
       run' (silent_async moved_from self t) p
         = (Returned tt,
            (set_task_queue (if ok then _task_queue p else _task_queue p ++ [t])
               (set_works (<[Z.to_nat id := mkWorker q']> (_works p))
                  (set_next_queue counter p)),
             (if ok then [] else [EvLock; EvUnlock]) ++ [EvNotifyWorker id]))).
Proof.
  intros [Hlen Hmap] HW Hself counter id.
  assert (HWpos : 0 < num_workers p) by (unfold num_workers in *; lia).
  pose proof (Z.mod_pos_bound counter (num_workers p) HWpos) as Hid. fold id in Hid.
  assert (Hsz : num_workers p = Z.of_nat (length (_works p)))
    by (unfold num_workers; lia).
  destruct (lookup_lt_is_Some_2 (_works p) (Z.to_nat id) ltac:(lia)) as [wk Hwk].
  exists wk. split; [done|]. intros Hm.
  pose proof (silent_async_round_robin_path p self t wk HW Hself) as Hpath.
  cbv zeta in Hpath. rewrite <- Hsz in Hpath. by apply Hpath.
Qed.

(** [silent_async] keeps the worker tables consistent *)

Lemma tables_kept_refl (p : Pool Callable) : tables_kept p p.
Proof. done. Qed.

Lemma tables_kept_trans (p1 p2 p3 : Pool Callable) :
  tables_kept p1 p2 -> tables_kept p2 p3 -> tables_kept p1 p3.
Proof. intros (H1 & H2 & H3) (H4 & H5 & H6). repeat split; congruence. Qed.

Lemma tables_kept_wf (p p' : Pool Callable) :
  tables_kept p p' -> pool_wf p -> pool_wf p'.
Proof.
  intros (Hw & Ht & Hm) [Hl Hmap]. split; [congruence|].
  intros tid i. rewrite Hm, Ht. apply Hmap.
Qed.

Lemma keeps_ret {A} (a : A) : keeps' (ret a).
Proof. intros s o s' [= _ <-]. apply tables_kept_refl. Qed.

Lemma keeps_get : keeps' get.
Proof. intros s o s' [= _ <-]. apply tables_kept_refl. Qed.

Lemma keeps_emit (e : Event Callable R) : keeps' (emit e).
Proof. intros s o s' [= _ <-]. apply tables_kept_refl. Qed.

Lemma keeps_undefined {A} : keeps' (undefined (A:=A)).
Proof. intros s o s' [= _ <-]. apply tables_kept_refl. Qed.

Lemma keeps_wait_at {A} (x : WaitPoint) :
  keeps' (wait_at (A:=A) x).
Proof. intros s o s' [= _ <-]. apply tables_kept_refl. Qed.

Lemma keeps_modify (f : Pool Callable -> Pool Callable) :
  (forall p, tables_kept p (f p)) -> keeps' (modify f).
Proof. intros Hf s o s' [= _ <-]. apply Hf. Qed.

Lemma keeps_bind {A B} (m : M (Callable:=Callable) (R:=R) A) (k : A -> M B) :
  keeps' m -> (forall a, keeps' (k a)) -> keeps' (bind m k).
Proof.
  intros Hm Hk s o s'. unfold bind.
  destruct (m s) as [[a|e|x|] s1] eqn:Hms; intros Heq.
  - eapply tables_kept_trans; [by eapply Hm|by eapply Hk].
  - injection Heq as _ <-. by eapply Hm.
  - injection Heq as _ <-. by eapply Hm.
  - injection Heq as _ <-. by eapply Hm.
Qed.

Lemma keeps_set_queue (i : Z) (q : RunQueue Task) : keeps' (set_queue i q).
Proof.
  apply keeps_modify. intros p. repeat split. simpl. apply length_insert.
Qed.

Lemma keeps_overflow_push (t : Task) : keeps' (overflow_push t).
Proof.
  unfold overflow_push.
  apply keeps_bind; [apply keeps_emit|intros _].
  apply keeps_bind; [by apply keeps_modify|intros _]. apply keeps_emit.
Qed.

Lemma keeps_works_at (i : Z) : keeps' (works_at i).
Proof.
  unfold works_at. apply keeps_bind; [apply keeps_get|intros p].
  destruct (_works p !! Z.to_nat i); [apply keeps_ret|apply keeps_undefined].
Qed.

Lemma keeps_silent_async (self : thread_id) (t : Task) :
  keeps' (silent_async moved_from self t).
Proof.
  unfold silent_async. apply keeps_bind; [apply keeps_get|intros p].
  destruct (num_workers p =? 0); [apply keeps_emit|].
  destruct (if negb (is_owner self p) then _ else _) as [idx|].
  - apply keeps_bind; [apply keeps_works_at|intros wk].
    destruct (push_front _ _ _ _ _) as [[ok q'] t'].
    apply keeps_bind; [apply keeps_set_queue|intros _].
    destruct ok; simpl; [apply keeps_ret|apply keeps_overflow_push].
  - apply keeps_bind; [by apply keeps_modify|intros _].
    apply keeps_bind; [apply keeps_get|intros p1].
    destruct (_ =? 0); [apply keeps_undefined|].
    apply keeps_bind; [apply keeps_works_at|intros wk].
    destruct (push_back _ _ _ _ _) as [[[ok q'] t']|]; [|apply keeps_wait_at].
    apply keeps_bind; [apply keeps_set_queue|intros _].
    apply keeps_bind; [|intros _; apply keeps_emit].
    destruct ok; simpl; [apply keeps_ret|apply keeps_overflow_push].
Qed.

Lemma silent_async_wf (p p' : Pool Callable) (self : thread_id) (t : Task)
    (o : Outcome unit) (tr : list (Event Callable R)) :
  pool_wf p ->
  run' (silent_async moved_from self t) p = (o, (p', tr)) ->
  pool_wf p'.
Proof.
  intros Hwf Hrun. apply (tables_kept_wf p); [|done].
  apply (keeps_silent_async self t _ _ _ Hrun).
Qed.

(** *** The probes of [_steal] *)

Lemma victim_walk_length (n : nat) (W inc victim : Z) :
  length (victim_walk n W inc victim) = n.
Proof. revert victim. induction n as [|n IH]; intros v; simpl; [done|]. by rewrite IH. Qed.

Lemma probed_app (tr1 tr2 : list (Event Callable R)) :
  probed (tr1 ++ tr2) = probed tr1 ++ probed tr2.
Proof. unfold probed. apply omap_app. Qed.

Lemma probed_probes (l : list Z) :
  probed ((EvProbe (Callable:=Callable) (R:=R)) <$> l) = l.
Proof.
  induction l as [|x l IH]; [done|].
  rewrite fmap_cons.
  change (EvProbe x :: (EvProbe <$> l)) with ([EvProbe (Callable:=Callable) (R:=R) x] ++ (EvProbe <$> l)).
  rewrite probed_app, IH. done.
Qed.

(** the loop probes a prefix of the walk, and all of it when it returns
    false *)
Lemma steal_loop_probes (n : nat) (W inc victim : Z) (w0 : Task)
    (s s' : Pool Callable * list (Event Callable R)) (o : Outcome (bool * Task)) :
  steal_loop moved_from n W inc victim w0 s = (o, s') ->
  exists k : nat,
    (k <= n)%nat /\
    s'.2 = s.2 ++ (EvProbe <$> take k (victim_walk n W inc victim)) /\
    (forall w', o = Returned (false, w') -> k = n).
Proof.
  revert victim w0 s. induction n as [|n IH]; intros victim w0 s; simpl.
  - intros [= <- <-]. exists 0%nat. simpl. rewrite app_nil_r. done.
  - unfold bind at 1. unfold works_at at 1. unfold bind at 1, get at 1. simpl.
    destruct (_works s.1 !! Z.to_nat victim) as [wk|]; simpl.
    + unfold bind at 1, emit at 1. simpl.
      destruct (pop_back _ _ _ _ _) as [[ok q'] w'].
      unfold bind at 1, set_queue at 1, modify at 1. simpl.
      destruct ok.
      * intros [= <- <-]. exists 1%nat. simpl. split; [lia|]. split; [done|].
        intros w'' [=].
      * intros Hrec. apply IH in Hrec as (k & Hk & Htr & Hall). simpl in Htr.
        exists (S k). split; [lia|]. split.
        -- rewrite Htr. simpl. by rewrite <- app_assoc.
        -- intros w'' Ho. f_equal. by eapply Hall.
    + unfold undefined. intros [= <- <-]. exists 0%nat. simpl.
      rewrite app_nil_r. split; [lia|]. split; [done|]. intros w'' [=].
Qed.





(** *** Composition along [bind] *)

Abbreviation M' := (M (Callable:=Callable) (R:=R)).
Abbreviation preserves' := (preserves (Callable:=Callable) (R:=R)).
Abbreviation framed' := (framed (Callable:=Callable) (R:=R)).

Section Preserves.

Variable Rel : Pool Callable -> Pool Callable -> Prop.
Hypothesis Rel_refl : forall p, Rel p p.
Hypothesis Rel_trans : forall p1 p2 p3, Rel p1 p2 -> Rel p2 p3 -> Rel p1 p3.

Lemma preserves_ret {A} (a : A) : preserves' Rel (ret a).
Proof using Rel_refl. intros s o s' [= _ <-]. apply Rel_refl. Qed.

Lemma preserves_get : preserves' Rel get.
Proof using Rel_refl. intros s o s' [= _ <-]. apply Rel_refl. Qed.

Lemma preserves_emit (e : Event Callable R) : preserves' Rel (emit e).
Proof using Rel_refl. intros s o s' [= _ <-]. apply Rel_refl. Qed.

Lemma preserves_throw {A} (what : string) : preserves' Rel (throw (A:=A) what).
Proof using Rel_refl. intros s o s' [= _ <-]. apply Rel_refl. Qed.

Lemma preserves_undefined {A} : preserves' Rel (undefined (A:=A)).
Proof using Rel_refl. intros s o s' [= _ <-]. apply Rel_refl. Qed.

Lemma preserves_wait_at {A} (x : WaitPoint) : preserves' Rel (wait_at (A:=A) x).
Proof using Rel_refl. intros s o s' [= _ <-]. apply Rel_refl. Qed.

Lemma preserves_modify (f : Pool Callable -> Pool Callable) :
  (forall p, Rel p (f p)) -> preserves' Rel (modify f).
Proof. intros Hf s o s' [= _ <-]. apply Hf. Qed.

Lemma preserves_bind {A B} (m : M' A) (k : A -> M' B) :
  preserves' Rel m -> (forall a, preserves' Rel (k a)) -> preserves' Rel (bind m k).
Proof using Rel_trans.
  intros Hm Hk s o s'. unfold bind.
  destruct (m s) as [[a|e|x|] s1] eqn:Hms; intros Heq.
  - eapply Rel_trans; [by eapply Hm|by eapply Hk].
  - injection Heq as _ <-. by eapply Hm.
  - injection Heq as _ <-. by eapply Hm.
  - injection Heq as _ <-. by eapply Hm.
Qed.

Lemma preserves_for_each {A} (l : list A) (body : A -> M' unit) :
  (forall x, preserves' Rel (body x)) -> preserves' Rel (for_each l body).
Proof using Rel_refl Rel_trans.
  intros Hb. induction l as [|x l IH]; simpl.
  - apply preserves_ret.
  - apply preserves_bind; [apply Hb|intros _; apply IH].
Qed.

End Preserves.

Lemma framed_ret {A} (a : A) : framed' (ret a).
Proof. intros p tr. unfold ret. simpl. by rewrite app_nil_r. Qed.

Lemma framed_get : framed' get.
Proof. intros p tr. unfold get. simpl. by rewrite app_nil_r. Qed.

Lemma framed_emit (e : Event Callable R) : framed' (emit e).
Proof. intros p tr. reflexivity. Qed.

Lemma framed_throw {A} (what : string) : framed' (throw (A:=A) what).
Proof. intros p tr. unfold throw. simpl. by rewrite app_nil_r. Qed.

Lemma framed_undefined {A} : framed' (undefined (A:=A)).
Proof. intros p tr. unfold undefined. simpl. by rewrite app_nil_r. Qed.

Lemma framed_wait_at {A} (x : WaitPoint) : framed' (wait_at (A:=A) x).
Proof. intros p tr. unfold wait_at. simpl. by rewrite app_nil_r. Qed.

Lemma framed_modify (f : Pool Callable -> Pool Callable) : framed' (modify f).
Proof. intros p tr. unfold modify. simpl. by rewrite app_nil_r. Qed.

Lemma framed_bind {A B} (m : M' A) (k : A -> M' B) :
  framed' m -> (forall a, framed' (k a)) -> framed' (bind m k).
Proof.
  intros Hm Hk p tr. unfold bind. rewrite (Hm p tr).
  destruct (m (p, [])) as [[a|e|x|] [p1 tr1]]; simpl; try done.
  rewrite (Hk a p1 (tr ++ tr1)), (Hk a p1 tr1).
  destruct (k a (p1, [])) as [o [p2 tr2]]. simpl. by rewrite app_assoc.
Qed.

Lemma framed_for_each {A} (l : list A) (body : A -> M' unit) :
  (forall x, framed' (body x)) -> framed' (for_each l body).
Proof.
  intros Hb. induction l as [|x l IH]; simpl.
  - apply framed_ret.
  - apply framed_bind; [apply Hb|intros _; apply IH].
Qed.


Ltac framed_auto :=
  repeat first
    [ apply framed_ret | apply framed_get | apply framed_emit | apply framed_throw
    | apply framed_undefined | apply framed_wait_at | apply framed_modify
    | apply framed_for_each; intros ?
    | apply framed_bind; [|intros ?]
    | progress unfold works_at, set_queue, overflow_push, notify_all_workers,
        await_sync, wait_for_all_tail, shutdown_tail, join_all
    | case_match ].

Lemma framed_silent_async (self : thread_id) (t : Task) :
  framed' (silent_async moved_from self t).
Proof. unfold silent_async. framed_auto. Qed.

Lemma framed_async (self : thread_id) (c : Callable) :
  framed' (async call moved_from self c).
Proof.
  unfold async. apply framed_bind; [apply framed_get|intros p].
  case_match; [framed_auto|].
  apply framed_bind; [apply framed_silent_async|intros _; apply framed_ret].
Qed.

Lemma framed_wait_for_all (self : thread_id) : framed' (wait_for_all self).
Proof. unfold wait_for_all. framed_auto. Qed.

Lemma framed_shutdown (self : thread_id) : framed' (shutdown moved_from self).
Proof. unfold shutdown. framed_auto. Qed.

Lemma framed_spawn_body (fresh : Z -> thread_id) (N : Z) :
  framed' (spawn_body fresh N).
Proof. unfold spawn_body. framed_auto. Qed.

Lemma framed_spawn (self : thread_id) (fresh : Z -> thread_id) (N : Z) :
  framed' (spawn self fresh N).
Proof.
  unfold spawn. apply framed_bind; [apply framed_get|intros p].
  case_match; [apply framed_throw|].
  apply framed_bind; [case_match; [apply framed_wait_for_all|apply framed_ret]|intros _].
  apply framed_spawn_body.
Qed.

Lemma framed_steal_loop (n : nat) (W inc victim : Z) (w0 : Task) :
  framed' (steal_loop moved_from n W inc victim w0).
Proof.
  revert victim w0. induction n as [|n IH]; intros victim w0; simpl.
  - apply framed_ret.
  - apply framed_bind; [framed_auto|intros wk].
    apply framed_bind; [apply framed_emit|intros _].
    destruct (pop_back _ _ _ _ _) as [[ok q'] w'].
    apply framed_bind; [framed_auto|intros _].
    destruct ok; [apply framed_ret|apply IH].
Qed.

Lemma framed_steal (w0 : Task) (dice : Z) : framed' (_steal moved_from w0 dice).
Proof.
  unfold _steal. apply framed_bind; [apply framed_get|intros p].
  repeat case_match; try apply framed_undefined.
  apply framed_bind; [apply framed_steal_loop|intros r; apply framed_ret].
Qed.


(** *** What the life-cycle functions leave alone *)

Lemma submissions_kept_refl (p : Pool Callable) : submissions_kept p p.
Proof. done. Qed.

Lemma submissions_kept_trans (p1 p2 p3 : Pool Callable) :
  submissions_kept p1 p2 -> submissions_kept p2 p3 -> submissions_kept p1 p3.
Proof. intros (H1 & H2 & H3) (H4 & H5 & H6). repeat split; congruence. Qed.

Ltac kept_auto :=
  repeat first
    [ apply (preserves_ret _ submissions_kept_refl)
    | apply (preserves_get _ submissions_kept_refl)
    | apply (preserves_emit _ submissions_kept_refl)
    | apply (preserves_throw _ submissions_kept_refl)
    | apply (preserves_undefined _ submissions_kept_refl)
    | apply (preserves_wait_at _ submissions_kept_refl)
    | apply preserves_modify; intros ?; by repeat split
    | apply (preserves_for_each _ submissions_kept_refl submissions_kept_trans); intros ?
    | apply (preserves_bind _ submissions_kept_trans); [|intros ?]
    | progress unfold works_at, set_queue, notify_all_workers,
        await_sync, wait_for_all_tail, shutdown_tail, join_all
    | case_match ].

Lemma kept_wait_for_all (self : thread_id) :
  preserves' submissions_kept (wait_for_all self).
Proof. unfold wait_for_all. kept_auto. Qed.


Lemma kept_spawn (self : thread_id) (fresh : Z -> thread_id) (N : Z) :
  preserves' submissions_kept (spawn self fresh N).
Proof.
  unfold spawn.
  apply (preserves_bind _ submissions_kept_trans);
    [apply (preserves_get _ submissions_kept_refl)|intros p].
  case_match; [apply (preserves_throw _ submissions_kept_refl)|].
  apply (preserves_bind _ submissions_kept_trans);
    [case_match; [apply kept_wait_for_all|apply (preserves_ret _ submissions_kept_refl)]
    |intros _].
  unfold spawn_body. kept_auto.
Qed.



(** *** [wait_for_all] on the owner's thread *)

Lemma notified_app (tr1 tr2 : list (Event Callable R)) :
  notified (tr1 ++ tr2) = notified tr1 ++ notified tr2.
Proof. unfold notified. apply omap_app. Qed.

Lemma notified_notifies (l : list Z) :
  notified ((EvNotifyWorker (Callable:=Callable) (R:=R)) <$> l) = l.
Proof.
  induction l as [|x l IH]; [done|].
  rewrite fmap_cons.
  change (EvNotifyWorker x :: (EvNotifyWorker <$> l))
    with ([EvNotifyWorker (Callable:=Callable) (R:=R) x] ++ (EvNotifyWorker <$> l)).
  rewrite notified_app, IH. done.
Qed.

Lemma concat_singletons {A B} (f : A -> B) (l : list A) :
  concat ((fun x => [f x]) <$> l) = f <$> l.
Proof. induction l as [|x l IH]; [done|]. rewrite !fmap_cons. simpl. by rewrite IH. Qed.

Lemma foldl_const {A B} (p : B) (l : list A) : foldl (fun p _ => p) p l = p.
Proof. induction l as [|x l IH]; simpl; done. Qed.

Lemma notify_all_workers_closed (p : Pool Callable) (tr : list (Event Callable R)) :
  notify_all_workers (p, tr) =
    (Returned tt, (p, tr ++ (EvNotifyWorker <$> seqZ 0 (Z.of_nat (length (_works p)))))).
Proof.
  unfold notify_all_workers, bind, get. simpl.
  rewrite (for_each_pure _ _ (fun p _ => p) (fun i => [EvNotifyWorker i])); [|done].
  by rewrite foldl_const, concat_singletons.
Qed.

Lemma wait_for_all_closed (p : Pool Callable) :
  num_workers p <> 0 ->
  run' (wait_for_all (_owner p)) p =
    if _sync p
    then (Returned tt,
          (set_wait_for_all false (set_sync false p),
           [EvLock] ++ (EvNotifyWorker <$> seqZ 0 (Z.of_nat (length (_works p))))
           ++ [EvUnlock]))
    else (Waits OnEmptyCv,
          (set_wait_for_all true p,
           [EvLock] ++ (EvNotifyWorker <$> seqZ 0 (Z.of_nat (length (_works p)))))).
Proof.
  intros HW. unfold run, wait_for_all, bind at 1, get at 1. simpl.
  rewrite is_owner_true. simpl.
  destruct (Z.eqb_spec (num_workers p) 0) as [|_]; [done|].
  unfold bind at 1, emit at 1. simpl.
  unfold bind at 1, modify at 1. simpl.
  unfold bind at 1. rewrite notify_all_workers_closed. simpl.
  unfold bind at 1, await_sync, bind at 1, get at 1. simpl.
  destruct (_sync p) eqn:Hs; simpl; [|done].
  unfold wait_for_all_tail, bind, modify, emit. simpl.
  destruct p; reflexivity.
Qed.



(** *** Submissions on a consistent pool *)

Lemma WorkQueue_log2N_range : (2 <= WorkQueue_log2N <= 31)%nat.
Proof. unfold WorkQueue_log2N. lia. Qed.

Abbreviation InvQ := (Inv (@task_null Callable) WorkQueue_log2N).

Lemma total_ready_cons (x : Worker Callable) (ws : list (Worker Callable)) :
  total_ready (x :: ws) = num_ready (queue x) + total_ready ws.
Proof. reflexivity. Qed.

Lemma total_ready_insert (ws : list (Worker Callable)) (i : nat) (wk wk' : Worker Callable) :
  ws !! i = Some wk ->
  total_ready (<[i := wk']> ws)
    = total_ready ws - num_ready (queue wk) + num_ready (queue wk').
Proof.
  revert i. induction ws as [|x ws IH]; intros [|i] Hl; try done.
  - injection Hl as ->. simpl insert. rewrite !total_ready_cons. lia.
  - specialize (IH i Hl). simpl insert. rewrite !total_ready_cons, IH. lia.
Qed.

Lemma queues_ok_lookup (p : Pool Callable) (i : nat) (wk : Worker Callable) :
  queues_ok p -> _works p !! i = Some wk -> InvQ (queue wk).
Proof. intros Hq Hl. unfold queues_ok in Hq. rewrite Forall_lookup in Hq. by eapply Hq. Qed.

Lemma queues_ok_insert (p : Pool Callable) (i : nat) (q' : RunQueue Task) :
  queues_ok p -> InvQ q' ->
  queues_ok (set_works (<[i := mkWorker q']> (_works p)) p).
Proof. intros Hq Hq'. unfold queues_ok in *. simpl. by apply Forall_insert. Qed.

Lemma queues_ok_works (p p' : Pool Callable) (i : nat) (q' : RunQueue Task) :
  _works p' = <[i := mkWorker q']> (_works p) ->
  queues_ok p -> InvQ q' -> queues_ok p'.
Proof. intros Hw Hq Hq'. unfold queues_ok in *. rewrite Hw. by apply Forall_insert. Qed.



(** the route [silent_async] takes *)
Lemma silent_async_route (p : Pool Callable) (self : thread_id) :
  (self <> _owner p /\ exists idx, _worker_map p !! self = Some idx) \/
  (self = _owner p \/ _worker_map p !! self = None).
Proof.
  destruct (decide (self = _owner p)) as [|Hne]; [by right; left|].
  destruct (_worker_map p !! self) as [idx|] eqn:Hm; [left|by right; right].
  split; [done|by exists idx].
Qed.



Lemma num_ready_count (q : RunQueue Task) :
  InvQ q -> num_ready q = cursor_count WorkQueue_log2N q.
Proof. intros HI. apply (inv_ready _ _ _ HI). Qed.

(** one submission on the round-robin route, every queue mutex free *)
Lemma round_robin_step (p : Pool Callable) (self : thread_id) (t : Task) :
  pool_wf p -> queues_ok p -> num_workers p <> 0 ->
  self = _owner p \/ _worker_map p !! self = None ->
  exists p' tr,
    run' (silent_async moved_from self t) p = (Returned tt, (p', tr)) /\
    notified tr = [usize (_next_queue p + 1) mod num_workers p] /\
    _next_queue p' = usize (_next_queue p + 1) /\
    (pool_wf p' /\ _owner p' = _owner p /\ num_workers p' = num_workers p) /\
    queues_ok p' /\ pending p' = pending p + 1.
Proof.
  intros Hwf Hq HW Hself. pose proof Hwf as [Hlen Hmap].
  assert (HWpos : 0 < num_workers p) by (unfold num_workers in *; lia).
  assert (Hsz : num_workers p = Z.of_nat (length (_works p)))
    by (unfold num_workers; lia).
  pose proof (Z.mod_pos_bound (usize (_next_queue p + 1)) (num_workers p) HWpos) as Hid.
  rewrite Hsz in *.
  destruct (lookup_lt_is_Some_2 (_works p)
              (Z.to_nat (usize (_next_queue p + 1) mod Z.of_nat (length (_works p))))
              ltac:(lia)) as [wk Hwk].
  pose proof (queues_ok_lookup p _ wk Hq Hwk) as HI.
  destruct (silent_async_round_robin_path p self t wk ltac:(unfold num_workers; lia)
              Hself Hwk (inv_mutex _ _ _ HI)) as (ok & q' & t' & Hpb & Hrun).
  eexists _, _. split; [exact Hrun|].
  split; [rewrite notified_app; by destruct ok|]. split; [done|].
  split; [split; [by eapply silent_async_wf|done]|].
  destruct (push_back_Inv task_null moved_from WorkQueue_log2N WorkQueue_log2N_range
              (queue wk) t HI) as [(Hfull & _ & Hr)|(Hlt & _ & Hr & HI' & Hc')];
    rewrite Hr in Hpb; injection Hpb as <- <- <-.
  - split.
    + by eapply queues_ok_works; [reflexivity|..].
    + unfold pending, num_tasks. simpl.
      rewrite (total_ready_insert _ _ wk) by done. simpl.
      rewrite length_app, Nat2Z.inj_add. simpl. lia.
  - split.
    + by eapply queues_ok_works; [reflexivity|..].
    + unfold pending, num_tasks. simpl.
      rewrite (total_ready_insert _ _ wk) by done. simpl.
      rewrite (num_ready_count _ HI), (num_ready_count _ HI'), Hc'. lia.
Qed.

(** one submission on a worker's own thread *)
Lemma worker_step (p : Pool Callable) (self : thread_id) (t : Task) (idx : Z) :
  pool_wf p -> queues_ok p ->
  self <> _owner p -> _worker_map p !! self = Some idx ->
  exists p',
    ((run' (silent_async moved_from self t) p).1 = Returned tt) /\
    (run' (silent_async moved_from self t) p).2.1 = p' /\
    notified (run' (silent_async moved_from self t) p).2.2 = [] /\
    _next_queue p' = _next_queue p /\
    queues_ok p' /\ pending p' = pending p + 1.
Proof.
  intros [Hlen Hmap] Hq Hne Hidx. pose proof (Hmap _ _ Hidx) as Hr.
  destruct (lookup_lt_is_Some_2 (_works p) (Z.to_nat idx) ltac:(lia)) as [wk Hwk].
  pose proof (queues_ok_lookup p _ wk Hq Hwk) as HI.
  destruct (silent_async_worker_path p self t idx wk ltac:(unfold num_workers; lia)
              Hne Hidx Hwk) as [Hok Hfail].
  destruct (push_front_Inv task_null moved_from WorkQueue_log2N WorkQueue_log2N_range
              (queue wk) t HI) as [(Hfull & _ & Hpf)|(Hlt & _ & Hpf & HI' & Hc')];
    rewrite Hpf in Hok, Hfail; simpl in *.
  - destruct (Hfail eq_refl) as [_ ->]. eexists. split; [done|]. split; [done|].
    split; [done|]. split; [done|]. split; [done|].
    unfold pending, num_tasks. simpl. rewrite length_app, Nat2Z.inj_add. simpl. lia.
  - rewrite (Hok eq_refl). eexists. split; [done|]. split; [done|].
    split; [done|]. split; [done|]. split; [by apply queues_ok_insert|].
    unfold pending, num_tasks. simpl.
    rewrite (total_ready_insert _ _ wk) by done. simpl.
    rewrite (num_ready_count _ HI), (num_ready_count _ HI'), Hc'. lia.
Qed.



Lemma seqZ_cons_shift (c : Z) : 0 <= c -> seqZ 0 (c + 1) = 0 :: (Z.add 1 <$> seqZ 0 c).
Proof.
  intros Hc. rewrite seqZ_cons by lia. f_equal.
  rewrite fmap_add_seqZ. f_equal; lia.
Qed.

(** the workers a run of round-robin submissions selects *)
Lemma round_robin_run (ts : list Task) :
  forall p : Pool Callable,
    pool_wf p -> queues_ok p -> num_workers p <> 0 ->
    0 <= _next_queue p -> _next_queue p + Z.of_nat (length ts) < 2 ^ 64 ->
    let r := run' (for_each ts (silent_async moved_from (_owner p))) p in
    r.1 = Returned tt /\
    notified r.2.2
      = (fun k => (_next_queue p + 1 + k) mod num_workers p) <$> seqZ 0 (Z.of_nat (length ts)) /\
    pending r.2.1 = pending p + Z.of_nat (length ts) /\
    queues_ok r.2.1 /\ pool_wf r.2.1.
Proof.
  induction ts as [|t ts IH]; intros p Hwf Hq HW H0 Hb r.
  - unfold r, run. simpl. split; [done|]. split; [done|]. split; [lia|done].
  - destruct (round_robin_step p (_owner p) t Hwf Hq HW ltac:(by left))
      as (p1 & tr1 & Hrun & Hn & Hnext & (Hwf1 & Ho1 & HW1) & Hq1 & Hp1).
    assert (Hu : usize (_next_queue p + 1) = _next_queue p + 1).
    { unfold usize. apply Z.mod_small. simpl length in Hb. lia. }
    rewrite Hu in *.
    specialize (IH p1 Hwf1 Hq1 ltac:(by rewrite HW1) ltac:(lia)
                  ltac:(simpl length in Hb; lia)).
    cbv zeta in IH. rewrite Ho1, Hnext, HW1, Hp1 in IH.
    destruct IH as (IHo & IHn & IHp & IHq & IHwf).
    unfold r, run. simpl for_each. unfold bind.
    unfold run in Hrun. rewrite Hrun.
    rewrite (framed_for_each ts _ (fun x => framed_silent_async (_owner p) x) p1 tr1).
    unfold run in IHo, IHn, IHp, IHq, IHwf. cbn [fst snd].
    split; [done|]. split; [|split; [|done]].
    + rewrite notified_app, Hn, IHn.
      replace (Z.of_nat (length (t :: ts))) with (Z.of_nat (length ts) + 1)
        by (simpl length; lia).
      rewrite seqZ_cons_shift by lia. rewrite fmap_cons, <- list_fmap_compose. simpl.
      f_equal; [f_equal; lia|].
      apply list_fmap_ext. intros _ k _. simpl. f_equal. lia.
    + rewrite IHp. simpl length. lia.
Qed.

(** X13.  Round-robin routing is fair.  On a consistent pool whose run
    queues are in sequentially reachable states, successive submissions by
    the owner all return, each adds one waiting task, and the [k]-th one
    notifies worker [(c + k) mod W], [c] being the counter before and [W]
    the number of workers; so any [W] successive submissions reach every
    worker exactly once (as long as the counter does not wrap). *)
Theorem round_robin_is_fair (p : Pool Callable) (ts : list Task) :
  pool_wf p -> queues_ok p -> num_workers p <> 0 ->
  0 <= _next_queue p -> _next_queue p + Z.of_nat (length ts) < 2 ^ 64 ->
  let r := run' (for_each ts (silent_async moved_from (_owner p))) p in
  r.1 = Returned tt /\
  notified r.2.2
    = (fun k => (_next_queue p + 1 + k) mod num_workers p) <$> seqZ 0 (Z.of_nat (length ts)) /\
  pending r.2.1 = pending p + Z.of_nat (length ts) /\
  (Z.of_nat (length ts) = num_workers p -> notified r.2.2 ≡ₚ seqZ 0 (num_workers p)).
Proof.
  intros Hwf Hq HW H0 Hb r.
  destruct (round_robin_run ts p Hwf Hq HW H0 Hb) as (Ho & Hn & Hp & _).
  fold r in Ho, Hn, Hp. split; [done|]. split; [done|]. split; [done|].
  intros Hlen. rewrite Hn, Hlen.
  assert (HWpos : 1 <= num_workers p) by (unfold num_workers in *; lia).
  apply submseteq_length_Permutation.
  - apply NoDup_submseteq.
    + apply NoDup_fmap_2_strong; [|apply NoDup_seqZ].
      intros j j' Hj Hj' Heq. apply elem_of_seqZ in Hj, Hj'.
      apply (walk_inj (num_workers p) 1 (_next_queue p + 1)); [lia| |lia|lia|].
      * apply Z.gcd_1_l.
      * by rewrite !Z.mul_1_r.
    + intros x Hx. apply list_elem_of_fmap in Hx as (j & -> & _).
      apply elem_of_seqZ.
      pose proof (Z.mod_pos_bound (_next_queue p + 1 + j) (num_workers p)). lia.
  - by rewrite length_fmap.
Qed.


(** *** The sweep over the run queues *)

Lemma nonempty_loop_spec (ws : list (Worker Callable)) (n : nat) :
  forall i : Z,
    0 <= i -> (Z.to_nat i + n = length ws)%nat ->
    let r := nonempty_loop n i ws in
    i <= r <= Z.of_nat (length ws) /\
    (forall j wk, i <= j < r -> ws !! Z.to_nat j = Some wk -> empty (queue wk) = true) /\
    (r < Z.of_nat (length ws) ->
       exists wk, ws !! Z.to_nat r = Some wk /\ empty (queue wk) = false).
Proof.
  induction n as [|n IH]; intros i Hi Hn; simpl.
  - split; [lia|]. split; [|lia]. intros j wk Hj Hl. apply lookup_lt_Some in Hl. lia.
  - destruct (ws !! Z.to_nat i) as [wk|] eqn:Hwk.
    + destruct (empty (queue wk)) eqn:He; simpl.
      * destruct (IH (i + 1) ltac:(lia) ltac:(lia)) as (Hr & Hbefore & Hat).
        split; [lia|]. split; [|done].
        intros j wk' Hj Hl. destruct (decide (j = i)) as [->|Hne].
        -- rewrite Hwk in Hl. by injection Hl as <-.
        -- apply (Hbefore j wk'); [lia|done].
      * apply lookup_lt_Some in Hwk as Hlt.
        split; [lia|]. split; [intros j wk' Hj; lia|].
        intros _. by exists wk.
    + apply lookup_ge_None in Hwk. lia.
Qed.

Lemma total_ready_zero (ws : list (Worker Callable)) :
  total_ready ws = 0 <-> Forall (fun wk => num_ready (queue wk) = 0) ws.
Proof.
  induction ws as [|x ws IH]; [split; [constructor|done]|].
  rewrite total_ready_cons, Forall_cons.
  assert (0 <= num_ready (queue x)) by (unfold num_ready; lia).
  assert (0 <= total_ready ws).
  { clear. induction ws as [|y ws IH]; [done|]. rewrite total_ready_cons.
    unfold num_ready at 1. lia. }
  rewrite <- IH. lia.
Qed.

Lemma nonempty_queue_all_empty (p : Pool Callable) :
  Forall (fun wk => empty (queue wk) = true) (_works p) ->
  _nonempty_queue p = Z.of_nat (length (_works p)).
Proof.
  intros HF.
  destruct (nonempty_loop_spec (_works p) (length (_works p)) 0 ltac:(lia) ltac:(lia))
    as (Hr & _ & Hat).
  fold (_nonempty_queue p) in Hr, Hat.
  destruct (decide (_nonempty_queue p = Z.of_nat (length (_works p)))) as [|Hne]; [done|].
  destruct (Hat ltac:(lia)) as (wk & Hl & He).
  rewrite Forall_lookup in HF. rewrite (HF _ _ Hl) in He. done.
Qed.

(** X14.  [_nonempty_queue] returns the least index of a worker whose
    [queue.empty()] is false, and the number of workers when there is none.
    On run queues in sequentially reachable states it therefore returns the
    number of workers exactly when no run queue holds a task, which is the
    test the last worker to go idle uses before it raises [_sync]. *)
Theorem nonempty_queue_finds_first (p : Pool Callable) :
  let r := _nonempty_queue p in
  let W := Z.of_nat (length (_works p)) in
  0 <= r <= W /\
  (forall j wk, 0 <= j < r -> _works p !! Z.to_nat j = Some wk -> empty (queue wk) = true) /\
  (r < W -> exists wk, _works p !! Z.to_nat r = Some wk /\ empty (queue wk) = false) /\
  (r = W <-> Forall (fun wk => empty (queue wk) = true) (_works p)) /\
  (queues_ok p -> (r = W <-> total_ready (_works p) = 0)).
Proof.
  intros r W.
  destruct (nonempty_loop_spec (_works p) (length (_works p)) 0 ltac:(lia) ltac:(lia))
    as (Hr & Hbefore & Hat).
  fold (_nonempty_queue p) in Hr, Hbefore, Hat. fold r in Hr, Hbefore, Hat. fold W in Hr, Hat.
  assert (Hall : r = W <-> Forall (fun wk => empty (queue wk) = true) (_works p)).
  { split.
    - intros HrW. apply Forall_lookup. intros j wk Hl.
      apply (Hbefore (Z.of_nat j) wk); [|by rewrite Nat2Z.id].
      apply lookup_lt_Some in Hl. unfold W in *. lia.
    - intros HF. destruct (decide (r = W)) as [|Hne]; [done|].
      destruct (Hat ltac:(lia)) as (wk & Hl & He).
      rewrite Forall_lookup in HF. rewrite (HF _ _ Hl) in He. done. }
  split; [done|]. split; [done|]. split; [done|]. split; [done|].
  intros Hq. rewrite Hall, total_ready_zero.
  unfold queues_ok in Hq. rewrite !Forall_lookup in *.
  split; intros H j wk Hl; specialize (H j wk Hl); specialize (Hq j wk Hl); simpl in *.
  - rewrite (num_ready_count _ Hq).
    by apply (empty_iff_count task_null WorkQueue_log2N WorkQueue_log2N_range).
  - apply (empty_iff_count task_null WorkQueue_log2N WorkQueue_log2N_range); [done|].
    by rewrite <- (num_ready_count _ Hq).
Qed.


(** *** What a call of [_steal] does to the pool *)

Lemma set_queue_same (p : Pool Callable) (i : nat) (wk : Worker Callable) :
  _works p !! i = Some wk ->
  set_works (<[i := mkWorker (queue wk)]> (_works p)) p = p.
Proof.
  intros Hwk. rewrite list_insert_id by (rewrite Hwk; by destruct wk).
  by destruct p.
Qed.

(** the loop changes the pool only by its one successful [pop_back] *)
Lemma steal_loop_effect (n : nat) (W inc : Z) :
  forall (victim : Z) (w0 w' : Task) (p p' : Pool Callable)
         (tr tr' : list (Event Callable R)) (b : bool),
    steal_loop moved_from n W inc victim w0 (p, tr) = (Returned (b, w'), (p', tr')) ->
    if b then
      exists (v : Z) (wk : Worker Callable) (q' : RunQueue Task),
        _works p !! Z.to_nat v = Some wk /\
        pop_back task_null moved_from WorkQueue_log2N (queue wk) w0 = (true, q', w') /\
        p' = set_works (<[Z.to_nat v := mkWorker q']> (_works p)) p /\
        last (probed tr') = Some v
    else p' = p /\ w' = w0.
Proof.
  induction n as [|n IH]; intros victim w0 w' p p' tr tr' b; simpl.
  - intros [= <- <- <- <-]. done.
  - unfold bind at 1. unfold works_at at 1. unfold bind at 1, get at 1. simpl.
    destruct (_works p !! Z.to_nat victim) as [wk|] eqn:Hwk; simpl; [|done].
    unfold bind at 1, emit at 1. simpl.
    destruct (pop_back _ _ _ _ _) as [[ok q'] w1] eqn:Hpop.
    unfold bind at 1, set_queue at 1, modify at 1. simpl.
    destruct ok.
    + intros [= <- <- <- <-]. exists victim, wk, q'.
      split; [done|]. split; [done|]. split; [done|].
      rewrite probed_app. simpl. by rewrite last_snoc.
    + apply pop_back_failed in Hpop as [-> ->].
      rewrite set_queue_same by done. apply IH.
Qed.

Lemma steal_loop_returns (n : nat) (W inc : Z) :
  1 <= W <= 2 ^ 63 -> 1 <= inc <= W ->
  forall (victim : Z) (w0 : Task) (p : Pool Callable) (tr : list (Event Callable R)),
    Z.of_nat (length (_works p)) = W -> 0 <= victim < W ->
    exists b w' s',
      steal_loop moved_from n W inc victim w0 (p, tr) = (Returned (b, w'), s').
Proof.
  intros HW Hinc. induction n as [|n IH]; intros victim w0 p tr Hlen Hv; simpl.
  - by eexists _, _, _.
  - unfold bind at 1. unfold works_at at 1. unfold bind at 1, get at 1. simpl.
    destruct (lookup_lt_is_Some_2 (_works p) (Z.to_nat victim) ltac:(lia)) as [wk Hwk].
    rewrite Hwk. simpl. unfold bind at 1, emit at 1. simpl.
    destruct (pop_back _ _ _ _ _) as [[ok q'] w1] eqn:Hpop.
    unfold bind at 1, set_queue at 1, modify at 1. simpl.
    destruct ok; [by eexists _, _, _|].
    apply IH.
    + simpl. by rewrite length_insert.
    + rewrite next_victim_mod by done. apply Z.mod_pos_bound. lia.
Qed.

Lemma compute_coprimes_nonempty (W : Z) :
  1 <= W < 2 ^ 64 - 1 -> 1 ∈ compute_coprimes W.
Proof.
  intros HW. apply elem_of_compute_coprimes; [lia|].
  split; [lia|]. apply Z.gcd_1_l.
Qed.

(** X15.  On a consistent pool of [W >= 1] workers whose stride table is
    the one [spawn] computed, [_steal] never divides by zero and never
    indexes out of range: it returns, with [dice] advanced by one
    xorshift32 step.  The workers it probed are pairwise distinct indices
    below [W], at most [W] of them, so no victim is asked twice in one
    call; and it leaves the overflow queue and the worker tables alone. *)
Theorem steal_is_safe (p : Pool Callable) (w0 : Task) (dice : Z) :
  pool_wf p ->
  1 <= num_workers p <= 2 ^ 63 ->
  _coprimes p = compute_coprimes (num_workers p) ->
  let r := run' (_steal moved_from w0 dice) p in
  (exists b w', r.1 = Returned (b, w', _xorshift32 dice)) /\
  NoDup (probed r.2.2) /\
  (forall v, v ∈ probed r.2.2 -> 0 <= v < num_workers p) /\
  Z.of_nat (length (probed r.2.2)) <= num_workers p /\
  _task_queue r.2.1 = _task_queue p /\
  _threads r.2.1 = _threads p /\ _worker_map r.2.1 = _worker_map p /\
  length (_works r.2.1) = length (_works p).
Proof.
  intros [Hlen Hmap] HW Hcop r.
  assert (HW' : 1 <= num_workers p < 2 ^ 64 - 1).
  { change (2 ^ 63) with 9223372036854775808 in *.
    change (2 ^ 64) with 18446744073709551616. lia. }
  pose proof (compute_coprimes_nonempty _ HW') as H1. rewrite <- Hcop in H1.
  assert (Hsize : 0 < Z.of_nat (length (_coprimes p))).
  { destruct (_coprimes p); [by apply elem_of_nil in H1|simpl; lia]. }
  pose proof (Z.mod_pos_bound (_xorshift32 dice) _ Hsize) as Hidx.
  destruct (lookup_lt_is_Some_2 (_coprimes p)
              (Z.to_nat (_xorshift32 dice mod Z.of_nat (length (_coprimes p))))
              ltac:(lia)) as [inc Hinc].
  pose proof (list_elem_of_lookup_2 _ _ _ Hinc) as Hin. rewrite Hcop in Hin.
  apply elem_of_compute_coprimes in Hin as [Hincr Hg]; [|lia].
  pose proof (Z.mod_pos_bound (_xorshift32 dice) (num_workers p) ltac:(lia)) as Hv.
  destruct (steal_loop_returns (Z.to_nat (num_workers p)) (num_workers p) inc HW Hincr
              (_xorshift32 dice mod num_workers p) w0 p []
              ltac:(unfold num_workers; lia) Hv) as (b & w' & [p' tr'] & Hloop).
  assert (Hrun : r = (Returned (b, w', _xorshift32 dice), (p', tr'))).
  { unfold r, run, _steal, bind at 1, get at 1. simpl.
    destruct (Z.eqb_spec (Z.of_nat (length (_coprimes p))) 0) as [|_]; [lia|].
    rewrite Hinc.
    destruct (Z.eqb_spec (num_workers p) 0) as [|_]; [lia|].
    unfold bind. rewrite Hloop. reflexivity. }
  rewrite Hrun. cbn [fst snd].
  pose proof (steal_loop_probes _ _ _ _ _ _ _ _ Hloop) as (k & Hk & Htr & _).
  simpl in Htr. rewrite Htr, probed_probes.
  pose proof (victim_walk_perm (num_workers p) inc
                (_xorshift32 dice mod num_workers p) HW Hincr Hg Hv) as Hperm.
  assert (Hnd : NoDup (victim_walk (Z.to_nat (num_workers p)) (num_workers p) inc
                         (_xorshift32 dice mod num_workers p))).
  { rewrite Hperm. apply NoDup_seqZ. }
  split; [by exists b, w'|].
  split; [eapply sublist_NoDup; [exact Hnd|apply sublist_take]|].
  split.
  { intros v Hvin. apply elem_of_take in Hvin as (i & Hi & _).
    apply list_elem_of_lookup_2 in Hi. rewrite Hperm in Hi.
    apply elem_of_seqZ in Hi. lia. }
  split; [rewrite length_take, victim_walk_length; lia|].
  pose proof (steal_loop_effect _ _ _ _ _ _ _ _ _ _ _ Hloop) as Heff.
  destruct b.
  - destruct Heff as (v & wk & q' & _ & _ & -> & _). simpl.
    split; [done|]. split; [done|]. split; [done|]. by rewrite length_insert.
  - destruct Heff as [-> _]. done.
Qed.

(** X16.  A call of [_steal] that returns false leaves the whole pool and
    the caller's task variable exactly as they were.  A call that returns
    true has taken exactly one task: on run queues in sequentially
    reachable states, the task handed out was the one at the [_back] end of
    the last probed worker's queue, that queue now holds the remaining
    tasks in the same order, every other queue and the overflow queue are
    untouched, and the pool holds one waiting task less. *)
Theorem steal_takes_one_task
    (p p' : Pool Callable) (w0 w' : Task) (dice dice' : Z) (b : bool)
    (tr : list (Event Callable R)) :
  run' (_steal moved_from w0 dice) p = (Returned (b, w', dice'), (p', tr)) ->
  (b = false -> p' = p /\ w' = w0) /\
  (b = true -> queues_ok p ->
     exists (v : Z) (wk : Worker Callable) (q' : RunQueue Task),
       last (probed tr) = Some v /\
       _works p !! Z.to_nat v = Some wk /\
       contents task_null WorkQueue_log2N (queue wk)
         = w' :: contents task_null WorkQueue_log2N q' /\
       p' = set_works (<[Z.to_nat v := mkWorker q']> (_works p)) p /\
       queues_ok p' /\ pending p' = pending p - 1).
Proof.
  unfold run, _steal, bind at 1, get at 1. simpl.
  destruct (_ =? 0); [done|].
  destruct (_coprimes p !! _) as [inc|]; [|done].
  destruct (num_workers p =? 0); [done|].
  unfold bind.
  destruct (steal_loop _ _ _ _ _ _ _) as [[[b1 w1]| | |] [p1 tr1]] eqn:Hloop; try done.
  unfold ret. simpl. intros [= -> -> _ -> ->].
  pose proof (steal_loop_effect _ _ _ _ _ _ _ _ _ _ _ Hloop) as Heff.
  split; intros ->; [done|]. intros Hq.
  destruct Heff as (v & wk & q' & Hwk & Hpop & -> & Hlast).
  pose proof (queues_ok_lookup p _ wk Hq Hwk) as HI.
  destruct (pop_back_contents task_null moved_from WorkQueue_log2N WorkQueue_log2N_range
              (queue wk) w0 HI)
    as [(_ & _ & Hr)|(Hpos & q2 & v2 & Hr & HI2 & Hc & Hcount)];
    rewrite Hr in Hpop; [done|]. injection Hpop as -> ->.
  exists v, wk, q'. split; [done|]. split; [done|]. split; [done|]. split; [done|].
  split; [by apply queues_ok_insert|].
  unfold pending, num_tasks. simpl.
  rewrite (total_ready_insert _ _ wk) by done. simpl.
  rewrite (num_ready_count _ HI), (num_ready_count _ HI2), Hcount. lia.
Qed.


(** *** The pool a constructor call builds *)

Lemma add_workers_works {A} (l : list A) (p : Pool Callable) :
  _works (foldl (fun p _ => spawn_add_worker p) p l)
    = _works p ++ replicate (length l) (mkWorker (RunQueue_ctor task_null WorkQueue_log2N)).
Proof.
  revert p. induction l as [|x l IH]; intros p; simpl.
  - by rewrite app_nil_r.
  - rewrite IH. simpl. by rewrite <- app_assoc.
Qed.

Lemma start_threads_keeps (fresh : Z -> thread_id) (sz : Z) (l : list Z)
    (p : Pool Callable) (tid : thread_id) (i : Z) :
  _worker_map p !! tid = Some i ->
  _worker_map (foldl (spawn_start_thread fresh sz) p l) !! tid = Some i.
Proof.
  revert p. induction l as [|x l IH]; intros p Hl; simpl; [done|].
  apply IH. simpl.
  destruct (_worker_map p !! fresh x) eqn:Hx; [done|].
  destruct (decide (fresh x = tid)) as [<-|Hne]; [congruence|].
  by rewrite lookup_insert_ne.
Qed.

Lemma start_threads_registers (fresh : Z -> thread_id) (sz : Z) (l : list Z) :
  NoDup (fresh <$> l) ->
  forall p : Pool Callable,
    (forall j, j ∈ l -> _worker_map p !! fresh j = None) ->
    forall j, j ∈ l ->
      _worker_map (foldl (spawn_start_thread fresh sz) p l) !! fresh j
        = Some (usize (j + sz)).
Proof.
  induction l as [|x l IH]; intros Hnd p Hfree j Hj; [by apply elem_of_nil in Hj|].
  rewrite fmap_cons in Hnd. apply NoDup_cons in Hnd as [Hx Hnd].
  simpl. apply elem_of_cons in Hj as [->|Hj].
  - apply start_threads_keeps. simpl.
    rewrite (Hfree x) by left. apply lookup_insert_eq.
  - apply (IH Hnd); [|done]. intros k Hk. simpl.
    rewrite (Hfree x) by left.
    rewrite lookup_insert_ne; [apply Hfree; by right|].
    intros Heq. apply Hx. rewrite Heq. apply list_elem_of_fmap. by exists k.
Qed.

Lemma ctor_queue_Inv : InvQ (RunQueue_ctor task_null WorkQueue_log2N).
Proof. apply Inv_ctor, WorkQueue_log2N_range. Qed.

Lemma ctor_queue_holds_nothing :
  num_ready (RunQueue_ctor (@task_null Callable) WorkQueue_log2N) = 0.
Proof. rewrite (num_ready_count _ ctor_queue_Inv). reflexivity. Qed.

Lemma start_threads_keys (fresh : Z -> thread_id) (sz : Z) (l : list Z)
    (p : Pool Callable) (tid : thread_id) (i : Z) :
  _worker_map (foldl (spawn_start_thread fresh sz) p l) !! tid = Some i ->
  _worker_map p !! tid = Some i \/
  exists j, j ∈ l /\ tid = fresh j /\ i = usize (j + sz).
Proof.
  revert p. induction l as [|x l IH]; intros p Hl; simpl in Hl; [by left|].
  apply IH in Hl as [Hold|(j & Hj & -> & ->)].
  - simpl in Hold. destruct (_worker_map p !! fresh x) eqn:Hx; [by left|].
    destruct (decide (fresh x = tid)) as [<-|Hne].
    + rewrite lookup_insert_eq in Hold. injection Hold as <-.
      right. exists x. split; [left|done].
    + rewrite lookup_insert_ne in Hold by done. by left.
  - right. exists j. split; [by right|done].
Qed.

(** X17.  [BasicPrivatizedThreadpool(N)] on thread [self], the operating
    system handing out pairwise different thread ids: the constructor
    returns with [N] threads and [N] workers, thread [i] being [fresh i];
    [_worker_map] sends the id of thread [i] to [i] and holds no other
    key; every run queue is a freshly constructed, empty queue; no task
    is waiting; the stride table is the one for [N]; and [self] is the
    owner.  The only events are taking the mutex, the [N] thread starts in
    index order, and releasing the mutex. *)
Theorem constructor_builds_pool (self : thread_id) (fresh : Z -> thread_id) (N : Z) :
  0 <= N < 2 ^ 32 ->
  (forall i j, 0 <= i < N -> 0 <= j < N -> fresh i = fresh j -> i = j) ->
  let r := Pool_ctor (Callable:=Callable) (R:=R) self fresh N in
  let p := r.2.1 in
  r.1 = Returned tt /\
  r.2.2 = [EvLock] ++ ((fun i => EvThreadStart (fresh i) i) <$> seqZ 0 N) ++ [EvUnlock] /\
  num_workers p = N /\ pool_wf p /\ queues_ok p /\
  _threads p = fresh <$> seqZ 0 N /\
  _works p = replicate (Z.to_nat N) (mkWorker (RunQueue_ctor task_null WorkQueue_log2N)) /\
  (forall i, 0 <= i < N -> _worker_map p !! fresh i = Some i) /\
  (forall tid i, _worker_map p !! tid = Some i -> 0 <= i < N /\ tid = fresh i) /\
  pending p = 0 /\ _nonempty_queue p = N /\
  _coprimes p = compute_coprimes N /\ _owner p = self.
Proof.
  intros HN Hinj r p.
  set (p0 := Pool_init (Callable:=Callable) self).
  pose proof (spawn_on_empty_pool fresh N p0 eq_refl) as Hs.
  simpl in Hs. unfold p, r, Pool_ctor. fold p0. rewrite Hs. cbn [fst snd].
  assert (Hu : forall j, 0 <= j < N -> usize (j + 0) = j).
  { intros j Hj. unfold usize. rewrite Z.add_0_r. apply Z.mod_small.
    change (2 ^ 32) with 4294967296 in *. change (2 ^ 64) with 18446744073709551616. lia. }
  assert (Hu' : usize (N + 0) = N).
  { unfold usize. rewrite Z.add_0_r. apply Z.mod_small.
    change (2 ^ 32) with 4294967296 in *. change (2 ^ 64) with 18446744073709551616. lia. }
  destruct (spawned_fields fresh N p0 ltac:(lia)) as (Hc & Ht & Hn & Ho).
  assert (Hwf : pool_wf (spawned fresh N p0)).
  { apply spawned_wf; [lia| |apply Pool_init_wf].
    unfold num_workers. simpl (Z.of_nat _).
    change (2 ^ 32) with 4294967296 in *. change (2 ^ 64) with 18446744073709551616. lia. }
  set (p1 := set_coprimes (compute_coprimes (usize (0 + N))) p0).
  set (p2 := foldl (fun p _ => spawn_add_worker p) p1 (seqZ 0 N)).
  assert (Hsp : spawned fresh N p0 = foldl (spawn_start_thread fresh 0) p2 (seqZ 0 N))
    by reflexivity.
  destruct (add_workers_fields (seqZ 0 N) p1) as (_ & _ & Hm2 & _). fold p2 in Hm2.
  assert (Hm2' : _worker_map p2 = ∅) by (rewrite Hm2; reflexivity).
  destruct (start_threads_fields fresh 0 (seqZ 0 N) p2) as (_ & Hw3 & _).
  rewrite <- Hsp in Hw3.
  assert (Hworks : _works (spawned fresh N p0)
                   = replicate (Z.to_nat N) (mkWorker (RunQueue_ctor task_null WorkQueue_log2N))).
  { rewrite Hw3. unfold p2. rewrite add_workers_works, length_seqZ. done. }
  assert (Hq : queues_ok (spawned fresh N p0)).
  { unfold queues_ok. rewrite Hworks. apply Forall_replicate, ctor_queue_Inv. }
  assert (Hnd : NoDup (fresh <$> seqZ 0 N)).
  { apply NoDup_fmap_2_strong; [|apply NoDup_seqZ].
    intros i j Hi Hj. apply elem_of_seqZ in Hi, Hj. apply Hinj; lia. }
  assert (Hempty : total_ready (_works (spawned fresh N p0)) = 0).
  { apply total_ready_zero. rewrite Hworks. apply Forall_replicate.
    apply ctor_queue_holds_nothing. }
  split; [done|]. split.
  { f_equal. f_equal. apply list_fmap_ext. intros k i Hi.
    apply lookup_seqZ in Hi as [-> Hi]. simpl. by rewrite Hu by lia. }
  split; [rewrite Hn; reflexivity|]. split; [done|]. split; [done|].
  split; [by rewrite Ht|]. split; [done|]. split.
  { intros i Hi. rewrite Hsp.
    rewrite (start_threads_registers fresh 0 (seqZ 0 N) Hnd).
    - by rewrite Hu.
    - intros j _. rewrite Hm2'. apply lookup_empty.
    - apply elem_of_seqZ. lia. }
  split.
  { intros tid i Hl. rewrite Hsp in Hl.
    apply start_threads_keys in Hl as [Hold|(j & Hj & -> & ->)].
    - rewrite Hm2' in Hold. by rewrite lookup_empty in Hold.
    - apply elem_of_seqZ in Hj. rewrite Hu by lia. split; [lia|done]. }
  split.
  { unfold pending. rewrite Hempty.
    destruct (kept_spawn self fresh N (p0, []) (Returned tt) _ Hs) as (Htq & _).
    unfold num_tasks. simpl in Htq. rewrite Htq. reflexivity. }
  split.
  { rewrite nonempty_queue_all_empty.
    - rewrite Hworks, length_replicate. lia.
    - rewrite Hworks. apply Forall_replicate. reflexivity. }
  split; [|rewrite Ho; reflexivity].
  rewrite Hc. f_equal. change (num_workers p0) with 0. rewrite <- (Z.add_comm N 0).
  by rewrite Hu'.
Qed.

(** *** [shutdown] once the workers have raised [_sync] *)

Abbreviation contentsQ := (contents (@task_null Callable) WorkQueue_log2N).

Lemma push_terminator_spec (p : Pool Callable) (i : Z) (wk : Worker Callable) :
  queues_ok p -> 0 <= i -> _works p !! Z.to_nat i = Some wk ->
  exists q',
    push_terminator moved_from p i = set_works (<[Z.to_nat i := mkWorker q']> (_works p)) p /\
    InvQ q' /\
    (num_ready (queue wk) < N WorkQueue_log2N ->
       contentsQ q' = task_dummy :: contentsQ (queue wk)) /\
    (num_ready (queue wk) = N WorkQueue_log2N -> q' = queue wk) /\
    (forall tr : list (Event Callable R),
       bind (works_at i)
         (fun wk =>
            match push_back task_null moved_from WorkQueue_log2N (queue wk) task_dummy with
            | None => wait_at OnQueueMutex
            | Some (_, q', _) => bind (set_queue i q') (fun _ => emit (EvNotifyWorker i))
            end) (p, tr)
       = (Returned tt, (push_terminator moved_from p i, tr ++ [EvNotifyWorker i]))).
Proof.
  intros Hq Hi Hwk. pose proof (queues_ok_lookup p _ wk Hq Hwk) as HI.
  unfold push_terminator. rewrite Hwk.
  assert (Hbody : forall tr : list (Event Callable R),
            bind (works_at i)
              (fun wk =>
                 match push_back task_null moved_from WorkQueue_log2N (queue wk) task_dummy with
                 | None => wait_at OnQueueMutex
                 | Some (_, q', _) => bind (set_queue i q') (fun _ => emit (EvNotifyWorker i))
                 end) (p, tr)
            = match push_back task_null moved_from WorkQueue_log2N (queue wk) task_dummy with
              | Some (_, q', _) =>
                  (Returned tt,
                   (set_works (<[Z.to_nat i := mkWorker q']> (_works p)) p,
                    tr ++ [EvNotifyWorker i]))
              | None => (Waits OnQueueMutex, (p, tr))
              end).
  { intros tr. unfold bind at 1, works_at, bind at 1, get. simpl. rewrite Hwk. simpl.
    destruct (push_back _ _ _ _ _) as [[[ok q'] t']|]; reflexivity. }
  rewrite (num_ready_count _ HI).
  destruct (push_back_contents task_null moved_from WorkQueue_log2N WorkQueue_log2N_range
              (queue wk) task_dummy HI) as [(Hfull & Hr)|(Hlt & q' & Hr & HI' & Hc)].
  - exists (queue wk). rewrite Hr. split; [done|]. split; [done|].
    split; [lia|]. split; [done|]. intros tr. rewrite Hbody, Hr. done.
  - exists q'. rewrite Hr. split; [done|]. split; [done|].
    split; [done|]. split; [lia|]. intros tr. rewrite Hbody, Hr. done.
Qed.

Lemma push_terminators_run (l : list Z) :
  forall (p : Pool Callable) (tr : list (Event Callable R)),
    queues_ok p -> (forall i, i ∈ l -> 0 <= i < Z.of_nat (length (_works p))) ->
    for_each l
      (fun i =>
         bind (works_at i)
           (fun wk =>
              match push_back task_null moved_from WorkQueue_log2N (queue wk) task_dummy with
              | None => wait_at OnQueueMutex
              | Some (_, q', _) => bind (set_queue i q') (fun _ => emit (EvNotifyWorker i))
              end)) (p, tr)
    = (Returned tt, (foldl (push_terminator moved_from) p l, tr ++ (EvNotifyWorker <$> l))).
Proof.
  induction l as [|i l IH]; intros p tr Hq Hl; simpl.
  - by rewrite app_nil_r.
  - pose proof (Hl i ltac:(left)) as Hi.
    destruct (lookup_lt_is_Some_2 (_works p) (Z.to_nat i) ltac:(lia)) as [wk Hwk].
    destruct (push_terminator_spec p i wk Hq ltac:(lia) Hwk)
      as (q' & Hp & HI' & _ & _ & Hbody).
    unfold bind at 1. rewrite Hbody.
    rewrite IH.
    + by rewrite <- app_assoc.
    + rewrite Hp. by apply queues_ok_insert.
    + intros j Hj. rewrite Hp. simpl. rewrite length_insert. apply Hl. by right.
Qed.

Lemma push_terminators_lookup (l : list Z) :
  NoDup l ->
  forall (p : Pool Callable),
    queues_ok p -> (forall i, i ∈ l -> 0 <= i < Z.of_nat (length (_works p))) ->
    let p' := foldl (push_terminator moved_from) p l in
    queues_ok p' /\ length (_works p') = length (_works p) /\
    submissions_kept p p' /\ tables_kept p p' /\
    _exiting p' = _exiting p /\ _wait_for_all p' = _wait_for_all p /\ _sync p' = _sync p /\
    (forall j wk, 0 <= j -> ~ j ∈ l -> _works p !! Z.to_nat j = Some wk ->
       _works p' !! Z.to_nat j = Some wk) /\
    (forall i wk, i ∈ l -> _works p !! Z.to_nat i = Some wk ->
       exists q', _works p' !! Z.to_nat i = Some (mkWorker q') /\
         (num_ready (queue wk) < N WorkQueue_log2N ->
            contentsQ q' = task_dummy :: contentsQ (queue wk)) /\
         (num_ready (queue wk) = N WorkQueue_log2N -> q' = queue wk)).
Proof.
  induction l as [|i l IH]; intros Hnd p Hq Hl; simpl.
  - split; [done|]. split; [done|]. split; [done|]. split; [done|].
    split; [done|]. split; [done|]. split; [done|]. split; [done|].
    intros i wk Hi. by apply elem_of_nil in Hi.
  - apply NoDup_cons in Hnd as [Hni Hnd].
    pose proof (Hl i ltac:(left)) as Hi.
    destruct (lookup_lt_is_Some_2 (_works p) (Z.to_nat i) ltac:(lia)) as [wk Hwk].
    destruct (push_terminator_spec p i wk Hq ltac:(lia) Hwk)
      as (q' & Hp & HI' & Hroom & Hfull & _).
    set (p1 := push_terminator moved_from p i) in *.
    assert (Hq1 : queues_ok p1) by (rewrite Hp; by apply queues_ok_insert).
    assert (Hlen1 : length (_works p1) = length (_works p))
      by (rewrite Hp; simpl; apply length_insert).
    destruct (IH Hnd p1 Hq1) as (Hq' & Hlen' & Hsk & Htk & He & Hwa & Hsy & Hother & Hin).
    { intros j Hj. rewrite Hlen1. apply Hl. by right. }
    assert (Hfields : submissions_kept p p1 /\ tables_kept p p1 /\
              _exiting p1 = _exiting p /\ _wait_for_all p1 = _wait_for_all p /\
              _sync p1 = _sync p).
    { rewrite Hp. repeat split. simpl. apply length_insert. }
    destruct Hfields as (Hsk1 & Htk1 & He1 & Hwa1 & Hsy1).
    split; [done|]. split; [congruence|].
    split; [by eapply submissions_kept_trans|].
    split; [by eapply tables_kept_trans|].
    split; [congruence|]. split; [congruence|]. split; [congruence|]. split.
    + intros j wk' Hj Hnj Hwk'. apply Hother; [done| |].
      * intros Hjl. apply Hnj. by right.
      * rewrite Hp. simpl. rewrite list_lookup_insert_ne; [done|].
        intros Heq. apply Hnj. assert (j = i) as -> by lia. left.
    + intros j wk' Hj Hwk'. apply elem_of_cons in Hj as [->|Hj].
      * rewrite Hwk in Hwk'. injection Hwk' as <-. exists q'.
        split; [|done]. apply Hother; [lia|done|].
        rewrite Hp. simpl. apply list_lookup_insert_eq. by apply lookup_lt_Some in Hwk.
      * apply Hin; [done|]. rewrite Hp. simpl.
        rewrite list_lookup_insert_ne; [done|].
        intros Heq. apply Hni.
        assert (i = j); [|by subst].
        pose proof (Hl j ltac:(by right)). lia.
Qed.


Lemma shutdown_closed (p : Pool Callable) :
  pool_wf p -> queues_ok p -> _threads p <> [] ->
  let W := Z.of_nat (length (_works p)) in
  let p1 := set_exiting true (set_sync false (set_wait_for_all true p)) in
  run' (shutdown moved_from (_owner p)) p =
    if _sync p
    then (Waits OnJoin,
          (foldl (push_terminator moved_from) p1 (seqZ 0 W),
           [EvLock] ++ (EvNotifyWorker <$> seqZ 0 W) ++ (EvNotifyWorker <$> seqZ 0 W)
           ++ [EvUnlock]))
    else (Waits OnEmptyCv,
          (set_wait_for_all true p, [EvLock] ++ (EvNotifyWorker <$> seqZ 0 W))).
Proof.
  intros Hwf Hq Hth W p1.
  unfold run, shutdown, bind at 1, get at 1. simpl.
  rewrite is_owner_true. simpl.
  rewrite bool_decide_eq_false_2 by done.
  unfold bind at 1, emit at 1. simpl.
  unfold bind at 1, modify at 1. simpl.
  unfold bind at 1. rewrite notify_all_workers_closed. simpl.
  unfold bind at 1, await_sync, bind at 1, get at 1. simpl.
  destruct (_sync p) eqn:Hs; simpl; [|done].
  unfold bind at 1, modify at 1. simpl.
  unfold bind at 1, modify at 1. simpl.
  unfold bind at 1. unfold bind at 1, get at 1. simpl.
  fold W. fold p1.
  rewrite (push_terminators_run (seqZ 0 W) p1); [| |].
  - unfold bind at 1, emit at 1. simpl.
    destruct (push_terminators_lookup (seqZ 0 W) (NoDup_seqZ _ _) p1) as (_ & _ & _ & Htk & _).
    + done.
    + intros i Hi. apply elem_of_seqZ in Hi. simpl. unfold W in Hi. lia.
    + destruct Htk as (_ & Hthr & _).
      unfold bind, join_all, bind, get. simpl. rewrite Hthr. simpl.
      destruct (_threads p); [done|]. simpl.
      by rewrite <- !app_assoc.
  - done.
  - intros i Hi. apply elem_of_seqZ in Hi. simpl. unfold W in Hi. lia.
Qed.

(** X18.  [shutdown] called by the owner on a consistent pool with workers
    whose run queues are in sequentially reachable states.  It takes the
    mutex, raises [_wait_for_all] and notifies every worker; without
    [_sync] it waits on [_empty_cv].  Once [_sync] is set it clears it,
    raises [_exiting], pushes the no-op task onto the [_back] end of every
    worker's queue that has room and notifies that worker, in index order,
    releases the mutex and waits at the joins.  The overflow queue and the
    worker tables are as before; the statements after the joins then leave
    no thread, no worker, an empty map and both flags cleared. *)
Theorem shutdown_terminates_every_worker (p : Pool Callable) :
  pool_wf p -> queues_ok p -> _threads p <> [] ->
  let W := Z.of_nat (length (_works p)) in
  let r := run' (shutdown moved_from (_owner p)) p in
  (_sync p = false ->
     r.1 = Waits OnEmptyCv /\ r.2.1 = set_wait_for_all true p /\
     notified r.2.2 = seqZ 0 W) /\
  (_sync p = true ->
     r.1 = Waits OnJoin /\
     notified r.2.2 = seqZ 0 W ++ seqZ 0 W /\ last r.2.2 = Some EvUnlock /\
     _exiting r.2.1 = true /\ _wait_for_all r.2.1 = true /\ _sync r.2.1 = false /\
     _task_queue r.2.1 = _task_queue p /\ _threads r.2.1 = _threads p /\
     _worker_map r.2.1 = _worker_map p /\ queues_ok r.2.1 /\
     (forall i wk, 0 <= i -> _works p !! Z.to_nat i = Some wk ->
        exists q', _works r.2.1 !! Z.to_nat i = Some (mkWorker q') /\
          (num_ready (queue wk) < N WorkQueue_log2N ->
             contentsQ q' = task_dummy :: contentsQ (queue wk)) /\
          (num_ready (queue wk) = N WorkQueue_log2N -> q' = queue wk)) /\
     (let p'' := (run' shutdown_tail r.2.1).2.1 in
      _threads p'' = [] /\ _works p'' = [] /\ _worker_map p'' = ∅ /\
      _wait_for_all p'' = false /\ _exiting p'' = false /\
      _task_queue p'' = _task_queue p)).
Proof.
  intros Hwf Hq Hth W r.
  pose proof (shutdown_closed p Hwf Hq Hth) as Hrun. cbv zeta in Hrun. fold W r in Hrun.
  rewrite Hrun. destruct (_sync p) eqn:Hs; (split; [intros Hsync|intros Hsync]); try done.
  - cbn [fst snd].
    destruct (push_terminators_lookup (seqZ 0 W) (NoDup_seqZ _ _)
                (set_exiting true (set_sync false (set_wait_for_all true p))))
      as (Hq' & Hlen & (Htq & _) & (_ & Hthr & Hmap) & He & Hwa & Hsy & _ & Hin).
    { done. }
    { intros i Hi. apply elem_of_seqZ in Hi. simpl. unfold W in Hi. lia. }
    split; [done|]. split.
    { rewrite !notified_app, !notified_notifies. simpl. by rewrite app_nil_r. }
    split; [by rewrite !app_assoc, last_snoc|].
    split; [by rewrite He|]. split; [by rewrite Hwa|]. split; [by rewrite Hsy|].
    split; [by rewrite Htq|]. split; [by rewrite Hthr|]. split; [by rewrite Hmap|].
    split; [done|]. split.
    { intros i wk Hi Hwk. apply Hin; [|done].
      apply elem_of_seqZ. apply lookup_lt_Some in Hwk. unfold W. lia. }
    unfold run, shutdown_tail, bind, modify. simpl. by rewrite Htq.
  - cbn [fst snd]. split; [done|]. split; [done|].
    rewrite notified_app, notified_notifies. done.
Qed.


(** *** [async] with workers, and [spawn] on a running pool *)

(** X19.  With at least one worker [async] does not invoke the callable on
    the calling thread: it submits the promise-fulfilling task exactly as
    [silent_async] would, with the same change of the pool and the same
    events, and when that submission returns it hands back a future that is
    still pending.  On a consistent pool with run queues in sequentially
    reachable states it returns, with one more task waiting. *)
Theorem async_defers_to_workers (p : Pool Callable) (self : thread_id) (c : Callable) :
  num_workers p <> 0 ->
  let r := run' (async call moved_from self c) p in
  let s := run' (silent_async moved_from self (task_promise c)) p in
  r.2 = s.2 /\
  (s.1 = Returned tt -> r.1 = Returned None) /\
  (forall x, s.1 = Waits x -> r.1 = Waits x) /\
  (forall tid c' v, ~ EvCall tid c' ∈ r.2.2 /\ ~ EvSetValue v ∈ r.2.2 /\
                  ~ EvInvoke tid (task_of c') ∈ r.2.2) /\
  (pool_wf p -> queues_ok p ->
     r.1 = Returned None /\ pending r.2.1 = pending p + 1).
Proof.
  intros HW r s.
  assert (Hr : r = (match s.1 with
                    | Returned _ => Returned None
                    | Threw e => Threw e
                    | Waits x => Waits x
                    | Undefined => Undefined
                    end, s.2)).
  { unfold r, s, run, async, bind at 1, get at 1. simpl.
    destruct (Z.eqb_spec (num_workers p) 0) as [|_]; [done|].
    unfold bind, ret.
    destruct (silent_async _ _ _ _) as [[[]|e|x|] s1]; reflexivity. }
  rewrite Hr. cbn [fst snd].
  split; [done|]. split; [by intros ->|]. split; [by intros x ->|].
  assert (Hevents : forall e : Event Callable R, e ∈ s.2.2 ->
            e = EvLock \/ e = EvUnlock \/ exists i, e = EvNotifyWorker i).
  { intros e He. unfold s in He.
    unfold run, silent_async, bind at 1, get at 1 in He. simpl in He.
    destruct (Z.eqb_spec (num_workers p) 0) as [|_]; [done|].
    revert He.
    destruct (if negb (is_owner self p) then _ else _) as [idx|].
    - unfold bind at 1, works_at, bind at 1, get. simpl.
      destruct (_works p !! Z.to_nat idx) as [wk|]; simpl;
        [|intros He; by apply elem_of_nil in He].
      destruct (push_front _ _ _ _ _) as [[[] q'] t']; simpl;
        unfold bind, set_queue, modify, ret, overflow_push, emit, bind; simpl.
      + intros He. by apply elem_of_nil in He.
      + intros He. apply elem_of_cons in He as [->|He]; [by left|].
        apply list_elem_of_singleton in He as ->. right. by left.
    - unfold bind at 1, modify at 1. simpl. unfold bind at 1, get at 1. simpl.
      destruct (_ =? 0); [intros He; by apply elem_of_nil in He|].
      unfold bind at 1, works_at, bind at 1, get. simpl.
      destruct (_works p !! _) as [wk|]; simpl;
        [|intros He; by apply elem_of_nil in He].
      destruct (push_back _ _ _ _ _) as [[[[] q'] t']|]; simpl;
        unfold bind, set_queue, modify, ret, overflow_push, emit, bind; simpl.
      + intros He. apply list_elem_of_singleton in He as ->. right. right. by eexists.
      + intros He. apply elem_of_cons in He as [->|He]; [by left|].
        apply elem_of_cons in He as [->|He]; [right; by left|].
        apply list_elem_of_singleton in He as ->. right. right. by eexists.
      + intros He. by apply elem_of_nil in He. }
  split.
  { intros tid c' v. repeat split; intros He; apply Hevents in He as [|[|[i ?]]]; done. }
  intros Hwf Hq.
  destruct (decide (self <> _owner p /\ exists idx, _worker_map p !! self = Some idx))
    as [(Hne & idx & Hidx)|Hnot].
  - destruct (worker_step p self (task_promise c) idx Hwf Hq Hne Hidx)
      as (p' & Ho & Hp & _ & _ & _ & Hpend).
    fold s in Ho, Hp. rewrite Ho, Hp. done.
  - assert (Hself : self = _owner p \/ _worker_map p !! self = None).
    { destruct (silent_async_route p self) as [|]; [by destruct Hnot|done]. }
    destruct (round_robin_step p self (task_promise c) Hwf Hq HW Hself)
      as (p' & tr & Hrun & _ & _ & _ & _ & Hpend).
    unfold s. rewrite Hrun. done.
Qed.

(** X20.  [spawn] called by the owner on a pool that already has workers
    first goes through [wait_for_all]: until a worker has raised [_sync] it
    waits, having changed no table.  Once [_sync] is set it adds [N]
    workers behind the existing ones: the old threads, workers (with their
    run queues) and map entries are kept at the same indices, the stride
    table is recomputed for the new total, and the tables stay
    consistent. *)
Theorem respawn_keeps_old_workers
    (p : Pool Callable) (fresh : Z -> thread_id) (N : Z) :
  _threads p <> [] -> 0 <= N -> num_workers p + N < 2 ^ 64 ->
  let r := run' (spawn (_owner p) fresh N) p in
  (_sync p = false ->
     r.1 = Waits OnEmptyCv /\ r.2.1 = set_wait_for_all true p) /\
  (_sync p = true ->
     r.1 = Returned tt /\
     num_workers r.2.1 = num_workers p + N /\
     _threads r.2.1 = _threads p ++ (fresh <$> seqZ 0 N) /\
     _works r.2.1 = _works p
       ++ replicate (Z.to_nat N) (mkWorker (RunQueue_ctor task_null WorkQueue_log2N)) /\
     (forall tid i, _worker_map p !! tid = Some i -> _worker_map r.2.1 !! tid = Some i) /\
     _coprimes r.2.1 = compute_coprimes (num_workers p + N) /\
     _sync r.2.1 = false /\ _wait_for_all r.2.1 = false /\
     _task_queue r.2.1 = _task_queue p /\
     (pool_wf p -> pool_wf r.2.1) /\
     (queues_ok p -> queues_ok r.2.1 /\ pending r.2.1 = pending p)).
Proof.
  intros Hth HN Hb r.
  assert (HW : num_workers p <> 0).
  { unfold num_workers. destruct (_threads p); [done|]. simpl. lia. }
  set (p1 := set_wait_for_all false (set_sync false p)).
  assert (Hrun : r =
    if _sync p
    then (Returned tt,
          (spawned fresh N p1,
           ([EvLock] ++ (EvNotifyWorker <$> seqZ 0 (Z.of_nat (length (_works p))))
            ++ [EvUnlock])
           ++ [EvLock]
           ++ ((fun i => EvThreadStart (fresh i) (usize (i + Z.of_nat (length (_threads p1)))))
                 <$> seqZ 0 N)
           ++ [EvUnlock]))
    else (Waits OnEmptyCv,
          (set_wait_for_all true p,
           [EvLock] ++ (EvNotifyWorker <$> seqZ 0 (Z.of_nat (length (_works p))))))).
  { unfold r, run, spawn, bind at 1, get at 1. simpl.
    rewrite is_owner_true. simpl.
    rewrite bool_decide_eq_false_2 by done. simpl.
    unfold bind at 1.
    pose proof (wait_for_all_closed p HW) as Hw. unfold run in Hw. rewrite Hw.
    destruct (_sync p); [|done].
    rewrite (framed_spawn_body fresh N).
    pose proof (spawn_body_closed fresh N p1) as Hsb. unfold run, p1 in Hsb.
    rewrite Hsb. reflexivity. }
  rewrite Hrun. destruct (_sync p) eqn:Hs; (split; [intros Hsync|intros Hsync]); try done.
  cbn [fst snd].
  destruct (spawned_fields fresh N p1 HN) as (Hc & Ht & Hn & Ho).
  set (q1 := set_coprimes (compute_coprimes (usize (Z.of_nat (length (_threads p1)) + N))) p1).
  set (q2 := foldl (fun p _ => spawn_add_worker p) q1 (seqZ 0 N)).
  assert (Hsp : spawned fresh N p1
                = foldl (spawn_start_thread fresh (Z.of_nat (length (_threads p1)))) q2 (seqZ 0 N))
    by reflexivity.
  destruct (add_workers_fields (seqZ 0 N) q1) as (_ & _ & Hm2 & _). fold q2 in Hm2.
  destruct (start_threads_fields fresh (Z.of_nat (length (_threads p1))) (seqZ 0 N) q2)
    as (_ & Hw3 & _).
  rewrite <- Hsp in Hw3.
  assert (Hworks : _works (spawned fresh N p1) = _works p
            ++ replicate (Z.to_nat N) (mkWorker (RunQueue_ctor task_null WorkQueue_log2N))).
  { rewrite Hw3. unfold q2. rewrite add_workers_works, length_seqZ. done. }
  assert (Hkept : submissions_kept p1 (spawned fresh N p1)).
  { pose proof (spawn_body_closed fresh N p1) as Hsb.
    assert (Hpres : preserves' submissions_kept (spawn_body fresh N)).
    { unfold spawn_body. kept_auto. }
    apply (Hpres _ _ _ Hsb). }
  assert (Hflags : _sync (spawned fresh N p1) = false /\
                   _wait_for_all (spawned fresh N p1) = false).
  { rewrite Hsp. clear.
    assert (Hf2 : _sync q2 = false /\ _wait_for_all q2 = false).
    { unfold q2. generalize (seqZ 0 N).
      assert (Hq1 : _sync q1 = false /\ _wait_for_all q1 = false) by done.
      revert Hq1. generalize q1. intros q Hq l. revert q Hq.
      induction l as [|x l IH]; intros q Hq; simpl; [done|]. by apply IH. }
    revert Hf2. generalize q2 (seqZ 0 N). intros q l. revert q.
    induction l as [|x l IH]; intros q Hq; simpl; [done|]. by apply IH. }
  split; [done|]. split; [done|]. split; [done|]. split; [done|]. split.
  { intros tid i Hi. rewrite Hsp. apply start_threads_keeps. by rewrite Hm2. }
  split.
  { rewrite Hc. f_equal. unfold usize. apply Z.mod_small.
    unfold num_workers in *. simpl in *. lia. }
  split; [apply Hflags|]. split; [apply Hflags|].
  split; [by destruct Hkept as (-> & _)|]. split.
  { intros Hwf. apply spawned_wf; [done|done|]. destruct Hwf. by split. }
  intros Hq. split.
  - unfold queues_ok in *. rewrite Hworks. apply Forall_app. split; [done|].
    apply Forall_replicate, ctor_queue_Inv.
  - unfold pending, num_tasks. destruct Hkept as (-> & _). rewrite Hworks. simpl.
    assert (Happ : forall l1 l2 : list (Worker Callable),
               total_ready (l1 ++ l2) = total_ready l1 + total_ready l2).
    { intros l1 l2. induction l1 as [|x l1 IH]; [done|].
      simpl app. rewrite !total_ready_cons, IH. lia. }
    rewrite Happ.
    assert (Hz : total_ready (replicate (Z.to_nat N)
                   (mkWorker (RunQueue_ctor (@task_null Callable) WorkQueue_log2N))) = 0).
    { apply total_ready_zero, Forall_replicate, ctor_queue_holds_nothing. }
    rewrite Hz. lia.
Qed.


Lemma Pool_ctor_queues_ok (self : thread_id) (fresh : Z -> thread_id) (N : Z) :
  queues_ok (Pool_ctor (Callable:=Callable) (R:=R) self fresh N).2.1.
Proof.
  unfold Pool_ctor.
  pose proof (spawn_on_empty_pool fresh N (Pool_init (Callable:=Callable) self) eq_refl) as Hs.
  simpl in Hs. rewrite Hs. cbn [fst snd]. unfold spawned, queues_ok.
  match goal with
  | |- context [foldl (spawn_start_thread ?f ?sz) ?q ?l] =>
      destruct (start_threads_fields f sz l q) as (_ & Hw & _)
  end.
  cbv zeta in Hw. rewrite Hw, add_workers_works. simpl.
  apply Forall_replicate, ctor_queue_Inv.
Qed.


(** *** The thread function of a worker *)

Lemma total_ready_nonneg (ws : list (Worker Callable)) : 0 <= total_ready ws.
Proof.
  induction ws as [|y ws IH]; [done|]. rewrite total_ready_cons.
  unfold num_ready at 1. lia.
Qed.

Lemma total_ready_lookup (ws : list (Worker Callable)) (i : nat) (wk : Worker Callable) :
  ws !! i = Some wk -> num_ready (queue wk) <= total_ready ws.
Proof.
  revert i. induction ws as [|x ws IH]; intros [|i] Hl; try done.
  - injection Hl as ->. rewrite total_ready_cons.
    pose proof (total_ready_nonneg ws). lia.
  - rewrite total_ready_cons. specialize (IH i Hl).
    assert (0 <= num_ready (queue x)) by (unfold num_ready; lia). lia.
Qed.

(** a [_steal] loop that fails has found every queue on its walk empty *)
Lemma steal_loop_false_empty (n : nat) (W inc : Z) :
  forall (victim : Z) (w0 w' : Task) (p : Pool Callable)
         (tr : list (Event Callable R)) (s' : Pool Callable * list (Event Callable R)),
    queues_ok p ->
    steal_loop moved_from n W inc victim w0 (p, tr) = (Returned (false, w'), s') ->
    forall v wk, v ∈ victim_walk n W inc victim ->
      _works p !! Z.to_nat v = Some wk -> num_ready (queue wk) = 0.
Proof.
  induction n as [|n IH]; intros victim w0 w' p tr s' Hq; simpl.
  - intros _ v wk Hv. by apply elem_of_nil in Hv.
  - unfold bind at 1. unfold works_at at 1. unfold bind at 1, get at 1. simpl.
    destruct (_works p !! Z.to_nat victim) as [wk0|] eqn:Hwk; simpl; [|done].
    unfold bind at 1, emit at 1. simpl.
    pose proof (queues_ok_lookup p _ wk0 Hq Hwk) as HI.
    destruct (pop_back_contents task_null moved_from WorkQueue_log2N WorkQueue_log2N_range
                (queue wk0) w0 HI)
      as [(Hz & _ & Hr)|(Hpos & q2 & v2 & Hr & _)]; rewrite Hr.
    + unfold bind at 1, set_queue at 1, modify at 1. simpl.
      rewrite (set_queue_same p _ wk0 Hwk).
      intros Hloop v wk Hv Hl. apply elem_of_cons in Hv as [->|Hv].
      * rewrite Hwk in Hl. injection Hl as <-. by rewrite (num_ready_count _ HI).
      * by eapply IH.
    + unfold bind at 1, set_queue at 1, modify at 1. simpl. done.
Qed.

(** [_steal] on a consistent pool with run queues in sequentially reachable
    states: it fails exactly when no run queue holds a task *)
Lemma steal_spec (p : Pool Callable) (w0 : Task) (dice : Z) :
  pool_wf p -> queues_ok p ->
  1 <= num_workers p <= 2 ^ 63 ->
  _coprimes p = compute_coprimes (num_workers p) ->
  exists (b : bool) (w' : Task) (p' : Pool Callable) (tr1 : list (Event Callable R)),
    (forall tr, _steal moved_from w0 dice (p, tr)
                = (Returned (b, w', _xorshift32 dice), (p', tr ++ tr1))) /\
    notified tr1 = [] /\
    (forall e, e ∈ tr1 -> exists v, e = EvProbe v) /\
    (b = false ->
       total_ready (_works p) = 0 /\ p' = p /\ w' = w0 /\
       probed tr1 ≡ₚ seqZ 0 (num_workers p)) /\
    (b = true ->
       0 < total_ready (_works p) /\
       exists (v : Z) (wk : Worker Callable) (q' : RunQueue Task),
         last (probed tr1) = Some v /\
         _works p !! Z.to_nat v = Some wk /\
         contentsQ (queue wk) = w' :: contentsQ q' /\
         InvQ q' /\ num_ready q' = num_ready (queue wk) - 1 /\
         p' = set_works (<[Z.to_nat v := mkWorker q']> (_works p)) p).
Proof.
  intros Hwf Hq HW Hcop. pose proof Hwf as [Hlen Hmap].
  assert (HW' : 1 <= num_workers p < 2 ^ 64 - 1).
  { change (2 ^ 63) with 9223372036854775808 in *.
    change (2 ^ 64) with 18446744073709551616. lia. }
  pose proof (compute_coprimes_nonempty _ HW') as H1. rewrite <- Hcop in H1.
  assert (Hsize : 0 < Z.of_nat (length (_coprimes p))).
  { destruct (_coprimes p); [by apply elem_of_nil in H1|simpl; lia]. }
  pose proof (Z.mod_pos_bound (_xorshift32 dice) _ Hsize) as Hidx.
  destruct (lookup_lt_is_Some_2 (_coprimes p)
              (Z.to_nat (_xorshift32 dice mod Z.of_nat (length (_coprimes p))))
              ltac:(lia)) as [inc Hinc].
  pose proof (list_elem_of_lookup_2 _ _ _ Hinc) as Hin. rewrite Hcop in Hin.
  apply elem_of_compute_coprimes in Hin as [Hincr Hg]; [|lia].
  pose proof (Z.mod_pos_bound (_xorshift32 dice) (num_workers p) ltac:(lia)) as Hv.
  destruct (steal_loop_returns (Z.to_nat (num_workers p)) (num_workers p) inc HW Hincr
              (_xorshift32 dice mod num_workers p) w0 p []
              ltac:(unfold num_workers; lia) Hv) as (b & w' & [p' tr'] & Hloop).
  assert (Hrun : _steal moved_from w0 dice (p, [])
                 = (Returned (b, w', _xorshift32 dice), (p', tr'))).
  { unfold _steal, bind at 1, get at 1. simpl.
    destruct (Z.eqb_spec (Z.of_nat (length (_coprimes p))) 0) as [|_]; [lia|].
    rewrite Hinc.
    destruct (Z.eqb_spec (num_workers p) 0) as [|_]; [lia|].
    unfold bind. rewrite Hloop. reflexivity. }
  exists b, w', p', tr'.
  split. { intros tr. rewrite (framed_steal w0 dice p tr), Hrun. reflexivity. }
  pose proof (steal_loop_probes _ _ _ _ _ _ _ _ Hloop) as (k & Hk & Htr & Hall).
  simpl in Htr.
  pose proof (victim_walk_perm (num_workers p) inc
                (_xorshift32 dice mod num_workers p) HW Hincr Hg Hv) as Hperm.
  split. { rewrite Htr. clear. induction (take _ _) as [|x l IH]; [done|exact IH]. }
  split. { intros e He. rewrite Htr in He. apply list_elem_of_fmap in He as (v & -> & _).
           by exists v. }
  pose proof (steal_loop_effect _ _ _ _ _ _ _ _ _ _ _ Hloop) as Heff.
  split.
  - intros ->. destruct Heff as [-> ->].
    split; [|split; [done|split; [done|]]].
    + apply total_ready_zero. apply Forall_lookup. intros j wk Hl.
      eapply (steal_loop_false_empty _ _ _ _ _ _ _ _ _ Hq Hloop (Z.of_nat j)).
      * rewrite Hperm. apply elem_of_seqZ. apply lookup_lt_Some in Hl.
        unfold num_workers. lia.
      * by rewrite Nat2Z.id.
    + rewrite Htr, probed_probes, (Hall w0 eq_refl).
      rewrite <- (victim_walk_length (Z.to_nat (num_workers p)) (num_workers p) inc
                   (_xorshift32 dice mod num_workers p)) at 1.
      by rewrite firstn_all.
  - intros ->. destruct Heff as (v & wk & q' & Hwk & Hpop & -> & Hlast).
    pose proof (queues_ok_lookup p _ wk Hq Hwk) as HI.
    destruct (pop_back_contents task_null moved_from WorkQueue_log2N WorkQueue_log2N_range
                (queue wk) w0 HI)
      as [(_ & _ & Hr)|(Hpos & q2 & v2 & Hr & HI2 & Hc & Hcount)];
      rewrite Hr in Hpop; [done|]. injection Hpop as -> ->.
    split.
    { pose proof (total_ready_lookup _ _ _ Hwk). rewrite (num_ready_count _ HI) in H. lia. }
    exists v, wk, q'. split; [done|]. split; [done|]. split; [done|]. split; [done|].
    split; [|done]. rewrite (num_ready_count _ HI), (num_ready_count _ HI2). done.
Qed.
Abbreviation WStep := (Task -> Z -> M' (WorkerStop * Task * Z)).
Abbreviation popped i q' p :=
  (set_works (<[Z.to_nat i := mkWorker q']> (_works p)) p).

Lemma dispatch_set (head : WStep) (t : Task) (dice : Z)
    (s : Pool Callable * list (Event Callable R)) :
  holds_target t = true ->
  worker_dispatch head t dice s = (Returned (StopTask, t, dice), (s.1, s.2 ++ [EvUnlock])).
Proof. intros H. unfold worker_dispatch. rewrite H. reflexivity. Qed.

Lemma dispatch_null (head : WStep) (t : Task) (dice : Z)
    (s : Pool Callable * list (Event Callable R)) :
  holds_target t = false -> worker_dispatch head t dice s = head t dice s.
Proof. intros H. unfold worker_dispatch. by rewrite H. Qed.

Lemma run_works_at {A} (i : Z) (k : Worker Callable -> M' A) (p : Pool Callable)
    (tr : list (Event Callable R)) (wk : Worker Callable) :
  _works p !! Z.to_nat i = Some wk ->
  bind (works_at i) k (p, tr) = k wk (p, tr).
Proof. intros H. unfold bind at 1, works_at, bind, get. simpl. by rewrite H. Qed.

(** the first test of either loop when the worker's own queue holds a task *)
Lemma pass_own (p : Pool Callable) (i : Z) (wk : Worker Callable) (t v : Task)
    (l : list Task) :
  _works p !! Z.to_nat i = Some wk -> InvQ (queue wk) ->
  contentsQ (queue wk) = l ++ [v] ->
  exists q' : RunQueue Task,
    InvQ q' /\ contentsQ q' = l /\ num_ready q' = num_ready (queue wk) - 1 /\
    forall (head idle : WStep) (dice : Z) (tr : list (Event Callable R)),
      (_exiting p = false ->
       worker_pass moved_from head idle i t dice (p, tr)
         = worker_dispatch head v dice (popped i q' p, tr)) /\
      worker_idle moved_from head idle i t dice (p, tr)
        = worker_dispatch head v dice (popped i q' p, tr).
Proof.
  intros Hwk HI Hc.
  destruct (pop_front_contents task_null moved_from WorkQueue_log2N WorkQueue_log2N_range
              (queue wk) t HI)
    as [(_ & Hnil & _)|(Hpos & q2 & v2 & Hr & HI2 & Hc2 & Hcount)].
  { rewrite Hnil in Hc. by destruct l. }
  rewrite Hc in Hc2. apply app_inj_tail in Hc2 as [-> ->].
  exists q2. split; [done|]. split; [done|].
  split. { by rewrite (num_ready_count _ HI), (num_ready_count _ HI2). }
  intros head idle dice tr. split.
  - intros He. unfold worker_pass. unfold bind at 1, get at 1. cbn [fst snd]. rewrite He.
    rewrite (run_works_at _ _ _ _ _ Hwk), Hr. reflexivity.
  - unfold worker_idle. rewrite (run_works_at _ _ _ _ _ Hwk), Hr. reflexivity.
Qed.

(** the first test of either loop when the worker's own queue is empty *)
Lemma pass_not_own (p : Pool Callable) (i : Z) (wk : Worker Callable) (t : Task) :
  _works p !! Z.to_nat i = Some wk -> InvQ (queue wk) ->
  contentsQ (queue wk) = [] ->
  pop_front task_null moved_from WorkQueue_log2N (queue wk) t = (false, queue wk, t) /\
  popped i (queue wk) p = p.
Proof.
  intros Hwk HI Hc. split; [|by apply set_queue_same].
  destruct (pop_front_contents task_null moved_from WorkQueue_log2N WorkQueue_log2N_range
              (queue wk) t HI)
    as [(_ & _ & Hr)|(Hpos & q2 & v2 & Hr & HI2 & Hc2 & Hcount)]; [done|].
  rewrite Hc in Hc2. by destruct (contentsQ q2).
Qed.

(** the outer loop when only another worker's queue holds a task *)
Lemma pass_steal (p : Pool Callable) (i : Z) (wk : Worker Callable) (t : Task) (dice : Z) :
  pool_wf p -> queues_ok p -> 1 <= num_workers p <= 2 ^ 63 ->
  _coprimes p = compute_coprimes (num_workers p) ->
  _exiting p = false ->
  _works p !! Z.to_nat i = Some wk -> contentsQ (queue wk) = [] ->
  0 < total_ready (_works p) ->
  exists (w' : Task) (tr1 : list (Event Callable R))
         (v : Z) (wkv : Worker Callable) (q' : RunQueue Task),
    notified tr1 = [] /\ (forall e, e ∈ tr1 -> exists v, e = EvProbe v) /\
    last (probed tr1) = Some v /\
    _works p !! Z.to_nat v = Some wkv /\
    contentsQ (queue wkv) = w' :: contentsQ q' /\
    InvQ q' /\ num_ready q' = num_ready (queue wkv) - 1 /\
    forall (head idle : WStep) (tr : list (Event Callable R)),
      worker_pass moved_from head idle i t dice (p, tr)
        = worker_dispatch head w' (_xorshift32 dice) (popped v q' p, tr ++ tr1).
Proof.
  intros Hwf Hq HW Hcop He Hwk Hc Hpos.
  pose proof (queues_ok_lookup p _ wk Hq Hwk) as HI.
  destruct (pass_not_own p i wk t Hwk HI Hc) as [Hr Hsame].
  destruct (steal_spec p t dice Hwf Hq HW Hcop)
    as (b & w' & p' & tr1 & Hrun & Hnot & Hev & Hfalse & Htrue).
  destruct b; [|destruct (Hfalse eq_refl) as [Hz _]; lia].
  destruct (Htrue eq_refl) as (_ & v & wkv & q' & Hlast & Hwkv & Hcv & HIq & Hn & ->).
  exists w', tr1, v, wkv, q'. do 7 (split; [done|]).
  intros head idle tr.
  unfold worker_pass. unfold bind at 1, get at 1. cbn [fst snd]. rewrite He.
  rewrite (run_works_at _ _ _ _ _ Hwk), Hr.
  unfold bind at 1, set_queue at 1, modify at 1. cbn [fst snd]. rewrite Hsame.
  unfold bind at 1. rewrite Hrun. reflexivity.
Qed.

(** the outer loop when no run queue holds a task *)
Lemma pass_no_steal (p : Pool Callable) (i : Z) (wk : Worker Callable) (t : Task) (dice : Z) :
  pool_wf p -> queues_ok p -> 1 <= num_workers p <= 2 ^ 63 ->
  _coprimes p = compute_coprimes (num_workers p) ->
  _exiting p = false ->
  _works p !! Z.to_nat i = Some wk ->
  total_ready (_works p) = 0 ->
  exists tr1 : list (Event Callable R),
    notified tr1 = [] /\ (forall e, e ∈ tr1 -> exists v, e = EvProbe v) /\
    probed tr1 ≡ₚ seqZ 0 (num_workers p) /\
    forall (head idle : WStep) (tr : list (Event Callable R)),
      worker_pass moved_from head idle i t dice (p, tr)
        = match _task_queue p with
          | x :: rest =>
              worker_dispatch head x (_xorshift32 dice) (set_task_queue rest p, tr ++ tr1)
          | [] => idle t (_xorshift32 dice) (p, tr ++ tr1)
          end.
Proof.
  intros Hwf Hq HW Hcop He Hwk Hz.
  pose proof (queues_ok_lookup p _ wk Hq Hwk) as HI.
  assert (Hc : contentsQ (queue wk) = []).
  { apply total_ready_zero in Hz. rewrite Forall_lookup in Hz.
    specialize (Hz _ _ Hwk). simpl in Hz.
    destruct (pop_front_contents task_null moved_from WorkQueue_log2N
                WorkQueue_log2N_range (queue wk) t HI)
      as [(_ & Hnil & _)|(Hpos & _)]; [done|].
    rewrite (num_ready_count _ HI) in Hz. lia. }
  destruct (pass_not_own p i wk t Hwk HI Hc) as [Hr Hsame].
  destruct (steal_spec p t dice Hwf Hq HW Hcop)
    as (b & w' & p' & tr1 & Hrun & Hnot & Hev & Hfalse & Htrue).
  destruct b; [destruct (Htrue eq_refl) as [Hpos _]; lia|].
  destruct (Hfalse eq_refl) as (_ & -> & -> & Hperm).
  exists tr1. do 3 (split; [done|]).
  intros head idle tr.
  unfold worker_pass. unfold bind at 1, get at 1. cbn [fst snd]. rewrite He.
  rewrite (run_works_at _ _ _ _ _ Hwk), Hr.
  unfold bind at 1, set_queue at 1, modify at 1. cbn [fst snd]. rewrite Hsame.
  unfold bind at 1. rewrite Hrun.
  unfold bind at 1, get at 1. cbn [fst snd].
  destruct (_task_queue p) as [|x rest]; reflexivity.
Qed.
Lemma contents_nil_iff (q : RunQueue Task) :
  InvQ q -> contentsQ q = [] <-> num_ready q = 0.
Proof.
  intros HI. rewrite (num_ready_count _ HI).
  rewrite <- (contents_length task_null WorkQueue_log2N WorkQueue_log2N_range q).
  destruct (contentsQ q); simpl; split; intros; try done; lia.
Qed.

Lemma nonempty_queue_quiet (p : Pool Callable) :
  queues_ok p ->
  _nonempty_queue p = Z.of_nat (length (_works p)) <-> total_ready (_works p) = 0.
Proof.
  intros Hq.
  destruct (nonempty_loop_spec (_works p) (length (_works p)) 0 ltac:(lia) ltac:(lia))
    as (Hr & Hbefore & Hat).
  fold (_nonempty_queue p) in Hr, Hbefore, Hat.
  rewrite total_ready_zero. unfold queues_ok in Hq. rewrite !Forall_lookup in *.
  split.
  - intros HrW j wk Hl. specialize (Hq j wk Hl). simpl in *.
    rewrite (num_ready_count _ Hq).
    apply (empty_iff_count task_null WorkQueue_log2N WorkQueue_log2N_range); [done|].
    apply (Hbefore (Z.of_nat j) wk); [|by rewrite Nat2Z.id].
    apply lookup_lt_Some in Hl. lia.
  - intros HF.
    destruct (decide (_nonempty_queue p = Z.of_nat (length (_works p)))) as [|Hne]; [done|].
    destruct (Hat ltac:(lia)) as (wk & Hl & He).
    specialize (Hq _ _ Hl). specialize (HF _ _ Hl). simpl in *.
    rewrite (num_ready_count _ Hq) in HF.
    apply (empty_iff_count task_null WorkQueue_log2N WorkQueue_log2N_range) in HF; [|done].
    congruence.
Qed.

Lemma nonempty_queue_other (p : Pool Callable) (i : Z) (wk : Worker Callable) :
  queues_ok p -> 0 <= i ->
  _works p !! Z.to_nat i = Some wk -> contentsQ (queue wk) = [] ->
  0 < total_ready (_works p) ->
  0 <= _nonempty_queue p < Z.of_nat (length (_works p)) /\
  _nonempty_queue p <> i /\
  exists wk', _works p !! Z.to_nat (_nonempty_queue p) = Some wk' /\
              contentsQ (queue wk') <> [].
Proof.
  intros Hq Hi Hwk Hc Hpos.
  destruct (nonempty_loop_spec (_works p) (length (_works p)) 0 ltac:(lia) ltac:(lia))
    as (Hr & Hbefore & Hat).
  fold (_nonempty_queue p) in Hr, Hbefore, Hat.
  pose proof (nonempty_queue_quiet p Hq) as Hquiet.
  assert (Hlt : _nonempty_queue p < Z.of_nat (length (_works p))) by lia.
  destruct (Hat Hlt) as (wk' & Hl & He).
  pose proof (queues_ok_lookup p _ wk' Hq Hl) as HI'.
  assert (Hne : contentsQ (queue wk') <> []).
  { intros Hnil. apply (contents_nil_iff _ HI') in Hnil.
    rewrite (num_ready_count _ HI') in Hnil.
    apply (empty_iff_count task_null WorkQueue_log2N WorkQueue_log2N_range) in Hnil;
      [|done]. congruence. }
  split; [lia|]. split; [|by exists wk'].
  intros Heq. rewrite Heq, Hwk in Hl. injection Hl as <-. done.
Qed.

(** the inner loop when the worker's own queue is empty but the overflow
    queue is not: the loop is left with [t] as it was *)
Lemma idle_overflow (p : Pool Callable) (i : Z) (wk : Worker Callable) (t : Task) :
  _works p !! Z.to_nat i = Some wk -> InvQ (queue wk) ->
  contentsQ (queue wk) = [] -> _task_queue p <> [] ->
  forall (head idle : WStep) (dice : Z) (tr : list (Event Callable R)),
    worker_idle moved_from head idle i t dice (p, tr)
      = worker_dispatch head t dice (p, tr).
Proof.
  intros Hwk HI Hc Hne head idle dice tr.
  destruct (pass_not_own p i wk t Hwk HI Hc) as [Hr Hsame].
  unfold worker_idle. rewrite (run_works_at _ _ _ _ _ Hwk), Hr.
  unfold bind at 1, set_queue at 1, modify at 1. cbn [fst snd]. rewrite Hsame.
  unfold bind at 1, get at 1. cbn [fst snd].
  by rewrite bool_decide_eq_false_2.
Qed.

(** the inner loop when neither holds a task: the worker counts itself
    idle and waits; the last one to do so while the owner waits either
    raises [_sync] or wakes the first worker whose queue is not empty *)
Lemma idle_sleep (p : Pool Callable) (i : Z) (wk : Worker Callable) (t : Task) :
  pool_wf p -> queues_ok p -> 0 <= i ->
  _works p !! Z.to_nat i = Some wk ->
  contentsQ (queue wk) = [] -> _task_queue p = [] ->
  forall (head idle : WStep) (dice : Z) (tr : list (Event Callable R)),
    let p1 := set_idle_workers (usize (_idle_workers p + 1)) p in
    worker_idle moved_from head idle i t dice (p, tr)
      = if (usize (_idle_workers p + 1) =? num_workers p) && _wait_for_all p then
          if total_ready (_works p) =? 0
          then (Returned (StopCvWait true, t, dice), (set_sync true p1, tr))
          else (Returned (StopCvWait false, t, dice),
                (p1, tr ++ [EvNotifyWorker (_nonempty_queue p)]))
        else (Returned (StopCvWait false, t, dice), (p1, tr)).
Proof.
  intros [Hlen Hmap] Hq Hi Hwk Hc Htq head idle dice tr p1.
  pose proof (queues_ok_lookup p _ wk Hq Hwk) as HI.
  destruct (pass_not_own p i wk t Hwk HI Hc) as [Hr Hsame].
  unfold worker_idle. rewrite (run_works_at _ _ _ _ _ Hwk), Hr.
  unfold bind at 1, set_queue at 1, modify at 1. cbn [fst snd]. rewrite Hsame.
  unfold bind at 1, get at 1. cbn [fst snd].
  rewrite bool_decide_eq_true_2 by done. cbn [negb].
  unfold bind at 1, modify at 1. cbn [fst snd].
  unfold bind at 1, get at 1. cbn [fst snd]. fold p1.
  change (_idle_workers p1) with (usize (_idle_workers p + 1)).
  change (num_workers p1) with (num_workers p).
  change (_wait_for_all p1) with (_wait_for_all p).
  change (_nonempty_queue p1) with (_nonempty_queue p).
  destruct ((usize (_idle_workers p + 1) =? num_workers p) && _wait_for_all p); [|done].
  pose proof (nonempty_queue_quiet p Hq) as Hquiet.
  destruct (Z.eqb_spec (total_ready (_works p)) 0) as [Hz|Hnz].
  - apply Hquiet in Hz.
    destruct (Z.eqb_spec (_nonempty_queue p) (num_workers p)) as [_|Hne];
      [reflexivity|]. unfold num_workers in Hne. lia.
  - pose proof (total_ready_nonneg (_works p)) as Hnn.
    destruct (nonempty_queue_other p i wk Hq Hi Hwk Hc ltac:(lia))
      as (Hr' & Hni & wk' & Hwk' & _).
    destruct (Z.eqb_spec (_nonempty_queue p) (num_workers p)) as [Heq|_].
    { unfold num_workers in Heq. lia. }
    destruct (Z.eqb_spec (_nonempty_queue p) i) as [|_]; [done|].
    assert (Hwk1 : _works p1 !! Z.to_nat (_nonempty_queue p) = Some wk') by exact Hwk'.
    rewrite (run_works_at _ _ _ _ _ Hwk1). reflexivity.
Qed.
Lemma pending_nonneg (p : Pool Callable) : 0 <= pending p.
Proof. unfold pending, num_tasks. pose proof (total_ready_nonneg (_works p)). lia. Qed.

Lemma popped_facts (p : Pool Callable) (v : Z) (wkv : Worker Callable) (q' : RunQueue Task) :
  pool_wf p -> queues_ok p ->
  _works p !! Z.to_nat v = Some wkv ->
  InvQ q' -> num_ready q' = num_ready (queue wkv) - 1 ->
  pool_wf (popped v q' p) /\ queues_ok (popped v q' p) /\
  pending (popped v q' p) = pending p - 1.
Proof.
  intros [Hlen Hmap] Hq Hwk HI Hn.
  split. { split; [simpl; by rewrite length_insert|exact Hmap]. }
  split; [by apply queues_ok_insert|].
  unfold pending, num_tasks. simpl.
  rewrite (total_ready_insert _ _ wkv _ Hwk). simpl. lia.
Qed.

(** what no statement of the thread function writes *)
Abbreviation worker_frame p p' :=
  (_threads p' = _threads p /\ _worker_map p' = _worker_map p /\
   _owner p' = _owner p /\ _exiting p' = _exiting p /\
   _wait_for_all p' = _wait_for_all p /\ _next_queue p' = _next_queue p /\
   _coprimes p' = _coprimes p /\ length (_works p') = length (_works p)).

(** what holds at a stop reached from [pc] on pool [p] *)
Abbreviation worker_post pc p stop t' p' tr1 :=
  ((pool_wf p' /\ queues_ok p') /\
   worker_frame p p' /\
   pending p' <= pending p /\
   match stop with
   | StopTask =>
       holds_target t' = true /\ last tr1 = Some EvUnlock /\
       notified tr1 = [] /\
       _sync p' = _sync p /\ pending p' < pending p /\
       _idle_workers p'
         = usize (_idle_workers p - match pc with AfterCvWait => 1 | _ => 0 end)
   | StopCvWait s =>
       holds_target t' = false /\ _task_queue p' = [] /\
       s = (_idle_workers p' =? num_workers p') && _wait_for_all p'
           && (total_ready (_works p') =? 0) /\
       _sync p' = (if s then true else _sync p) /\
       notified tr1
         = (if (_idle_workers p' =? num_workers p') && _wait_for_all p' && negb s
            then [_nonempty_queue p'] else []) /\
       _idle_workers p'
         = usize (_idle_workers p + 1 - match pc with AfterCvWait => 1 | _ => 0 end)
   | StopExit =>
       _exiting p = true /\ _sync p' = _sync p /\ notified tr1 = [] /\
       _idle_workers p'
         = usize (_idle_workers p - match pc with AfterCvWait => 1 | _ => 0 end)
   | StopFuel => False
   end).

Lemma worker_post_link (pc pc1 : WorkerPc) (p p1 p' : Pool Callable)
    (tr0 tr2 : list (Event Callable R)) (stop : WorkerStop) (t' : Task) :
  pc1 = AtLoopHead \/ pc1 = AtIdleTest ->
  worker_frame p p1 -> pending p1 <= pending p ->
  _idle_workers p1
    = usize (_idle_workers p - match pc with AfterCvWait => 1 | _ => 0 end) ->
  _sync p1 = _sync p -> notified tr0 = [] ->
  worker_post pc1 p1 stop t' p' tr2 ->
  worker_post pc p stop t' p' (tr0 ++ tr2).
Proof.
  intros Hpc1 (F1 & F2 & F3 & F4 & F5 & F6 & F7 & F8) Hpend Hidl Hsync Hn0
    (Hgood & (G1 & G2 & G3 & G4 & G5 & G6 & G7 & G8) & Hpend' & Hstop).
  assert (Hd : match pc1 with AfterCvWait => 1 | _ => 0 end = 0)
    by (by destruct Hpc1 as [-> | ->]).
  rewrite Hd in Hstop.
  split; [done|].
  split. { repeat split; congruence. }
  split; [lia|].
  rewrite notified_app, Hn0. cbn [app].
  destruct stop.
  - destruct Hstop as (S1 & S2 & S3 & S4 & S5 & S6).
    split; [done|]. split. { rewrite last_app, S2. done. }
    split; [done|]. split; [congruence|]. split; [lia|].
    rewrite S6, Hidl. unfold usize. rewrite Z.sub_0_r. apply Z.mod_mod. lia.
  - destruct Hstop as (S1 & S2 & S3 & S4 & S5 & S6).
    split; [done|]. split; [done|]. split; [done|].
    split. { rewrite S4. by destruct signalled; [|rewrite Hsync]. }
    split; [done|].
    rewrite S6, Hidl. unfold usize. rewrite Z.sub_0_r, Zplus_mod_idemp_l. f_equal. lia.
  - destruct Hstop as (S1 & S2 & S3 & S4).
    split; [congruence|]. split; [congruence|]. split; [done|].
    rewrite S4, Hidl. unfold usize. rewrite Z.sub_0_r. apply Z.mod_mod. lia.
  - done.
Qed.
(** the statement proved for every bound [n] by induction *)
Abbreviation worker_spec_at n :=
  (forall (pc : WorkerPc) (i : Z) (t : Task) (dice : Z) (p : Pool Callable)
          (tr : list (Event Callable R)),
     pool_wf p -> queues_ok p ->
     1 <= num_workers p <= 2 ^ 63 ->
     _coprimes p = compute_coprimes (num_workers p) ->
     0 <= i < num_workers p ->
     0 <= _idle_workers p < 2 ^ 64 ->
     holds_target t = false ->
     pending p + match pc with
                 | AtLoopHead => 2 | AtIdleTest => 3 | AfterCvWait => 4 | AfterTask => 3
                 end <= Z.of_nat n ->
     exists (stop : WorkerStop) (t' : Task) (dice' : Z) (p' : Pool Callable)
            (tr1 : list (Event Callable R)),
       worker_run moved_from n pc i t dice (p, tr)
         = (Returned (stop, t', dice'), (p', tr ++ tr1)) /\
       worker_post pc p stop t' p' tr1).

(** the last statement of the outer loop, after a task was taken *)
Lemma dispatch_spec (n : nat) (pc : WorkerPc) (i : Z) (v : Task) (dice : Z)
    (p p1 : Pool Callable) (tr tr0 : list (Event Callable R)) :
  worker_spec_at n ->
  pool_wf p1 -> queues_ok p1 ->
  1 <= num_workers p <= 2 ^ 63 ->
  _coprimes p = compute_coprimes (num_workers p) ->
  0 <= i < num_workers p ->
  worker_frame p p1 ->
  pending p1 <= pending p ->
  (holds_target v = true -> pending p1 < pending p) ->
  _idle_workers p1
    = usize (_idle_workers p - match pc with AfterCvWait => 1 | _ => 0 end) ->
  _sync p1 = _sync p -> notified tr0 = [] ->
  pending p1 + 2 <= Z.of_nat n ->
  exists (stop : WorkerStop) (t' : Task) (dice' : Z) (p' : Pool Callable)
         (tr1 : list (Event Callable R)),
    worker_dispatch (worker_run moved_from n AtLoopHead i) v dice (p1, tr ++ tr0)
      = (Returned (stop, t', dice'), (p', tr ++ tr1)) /\
    worker_post pc p stop t' p' tr1.
Proof.
  intros IH Hwf1 Hq1 HW Hcop Hi HF Hpend Hstrict Hidl Hsync Hn0 Hfuel.
  pose proof HF as (F1 & F2 & F3 & F4 & F5 & F6 & F7 & F8).
  assert (HW1 : num_workers p1 = num_workers p) by (unfold num_workers; by rewrite F1).
  destruct (holds_target v) eqn:Hv.
  - rewrite dispatch_set by done. cbn [fst snd].
    exists StopTask, v, dice, p1, (tr0 ++ [EvUnlock]).
    split; [by rewrite app_assoc|].
    split; [done|]. split; [done|]. split; [done|].
    split; [done|]. split; [by rewrite last_snoc|].
    split. { by rewrite notified_app, Hn0. }
    split; [done|]. split; [by apply Hstrict|done].
  - rewrite dispatch_null by done.
    destruct (IH AtLoopHead i v dice p1 (tr ++ tr0) Hwf1 Hq1
                ltac:(by rewrite HW1) ltac:(by rewrite HW1, F7) ltac:(by rewrite HW1)
                ltac:(rewrite Hidl; apply Z.mod_pos_bound; lia) Hv Hfuel)
      as (stop & t' & dice' & p' & tr2 & Hrun & Hpost).
    exists stop, t', dice', p', (tr0 ++ tr2).
    split; [by rewrite app_assoc|].
    by apply (worker_post_link pc AtLoopHead p p1 p' tr0 tr2 stop t' (or_introl eq_refl)).
Qed.
(** the inner loop when the worker finds nothing: it stops at the wait *)
Lemma sleep_spec (pc : WorkerPc) (p : Pool Callable) (i : Z) (wk : Worker Callable)
    (t : Task) (head idle : WStep) (dice : Z) (tr tr0 : list (Event Callable R)) :
  pc = AtLoopHead \/ pc = AtIdleTest ->
  pool_wf p -> queues_ok p -> 0 <= i ->
  _works p !! Z.to_nat i = Some wk ->
  contentsQ (queue wk) = [] -> _task_queue p = [] ->
  holds_target t = false -> notified tr0 = [] ->
  exists (s : bool) (p' : Pool Callable) (tr1 : list (Event Callable R)),
    worker_idle moved_from head idle i t dice (p, tr ++ tr0)
      = (Returned (StopCvWait s, t, dice), (p', tr ++ tr1)) /\
    worker_post pc p (StopCvWait s) t p' tr1.
Proof.
  intros Hpc Hwf Hq Hi Hwk Hc Htq Ht Hn0.
  assert (Hd : match pc with AfterCvWait => 1 | _ => 0 end = 0)
    by (by destruct Hpc as [-> | ->]).
  rewrite (idle_sleep p i wk t Hwf Hq Hi Hwk Hc Htq head idle dice (tr ++ tr0)).
  rewrite Hd, Z.sub_0_r.
  set (p1 := set_idle_workers (usize (_idle_workers p + 1)) p).
  assert (Hwf1 : pool_wf p1) by exact Hwf.
  assert (Hq1 : queues_ok p1) by exact Hq.
  destruct ((usize (_idle_workers p + 1) =? num_workers p) && _wait_for_all p) eqn:Hcond.
  - destruct (total_ready (_works p) =? 0) eqn:Hz.
    + exists true, (set_sync true p1), tr0. split; [done|].
      split; [done|]. split; [done|]. split; [done|].
      split; [done|]. split; [done|].
      change (_idle_workers (set_sync true p1)) with (usize (_idle_workers p + 1)).
      change (num_workers (set_sync true p1)) with (num_workers p).
      change (_wait_for_all (set_sync true p1)) with (_wait_for_all p).
      change (_works (set_sync true p1)) with (_works p).
      rewrite Hcond, Hz. done.
    + exists false, p1, (tr0 ++ [EvNotifyWorker (_nonempty_queue p)]).
      split; [by rewrite app_assoc|].
      split; [done|]. split; [done|]. split; [done|].
      split; [done|]. split; [done|].
      change (_idle_workers p1) with (usize (_idle_workers p + 1)).
      change (num_workers p1) with (num_workers p).
      change (_wait_for_all p1) with (_wait_for_all p).
      change (_works p1) with (_works p).
      change (_nonempty_queue p1) with (_nonempty_queue p).
      rewrite Hcond, Hz, notified_app, Hn0. done.
  - exists false, p1, tr0. split; [done|].
    split; [done|]. split; [done|]. split; [done|].
    split; [done|]. split; [done|].
    change (_idle_workers p1) with (usize (_idle_workers p + 1)).
    change (num_workers p1) with (num_workers p).
    change (_wait_for_all p1) with (_wait_for_all p).
    rewrite Hcond. done.
Qed.

Lemma worker_run_spec (n : nat) : worker_spec_at n.
Proof.
  induction n as [|n IH]; intros pc i t dice p tr Hwf Hq HW Hcop Hi Hidle Ht Hfuel.
  { pose proof (pending_nonneg p). destruct pc; lia. }
  pose proof (pending_nonneg p) as Hp0.
  assert (Hu0 : usize (_idle_workers p - 0) = _idle_workers p).
  { rewrite Z.sub_0_r. unfold usize. by apply Z.mod_small. }
  assert (HF : worker_frame p p) by done.
  destruct (lookup_lt_is_Some_2 (_works p) (Z.to_nat i)
              ltac:(destruct Hwf as [Hl _]; unfold num_workers in Hi; lia)) as [wk Hwk].
  pose proof (queues_ok_lookup p _ wk Hq Hwk) as HI.
  destruct pc; cbn [worker_run].
  - (* the head of the outer loop *)
    assert (He : _exiting p = true \/ _exiting p = false)
      by (destruct (_exiting p); auto).
    destruct He as [He|He].
    { exists StopExit, t, dice, p, [EvUnlock].
      split. { unfold worker_pass, bind, get. cbn [fst snd]. rewrite He. done. }
      cbv beta iota. rewrite Hu0. done. }
    destruct (decide (contentsQ (queue wk) = [])) as [Hc|Hc].
    2: { (* a task of its own queue *)
      apply exists_last in Hc as (l & v & Hc).
      destruct (pass_own p i wk t v l Hwk HI Hc) as (q' & HIq & _ & Hn & Hpass).
      destruct (popped_facts p i wk q' Hwf Hq Hwk HIq Hn) as (Hwf1 & Hq1 & Hp1).
      rewrite (proj1 (Hpass _ _ dice tr) He).
      destruct (dispatch_spec n AtLoopHead i v dice p (popped i q' p) tr [])
        as (stop & t' & dice' & p' & tr1 & Hrun & Hpost); try done; try lia.
      { repeat split; try done. simpl. by rewrite length_insert. }
      rewrite app_nil_r in Hrun. exists stop, t', dice', p', tr1. split; [exact Hrun|exact Hpost]. }
    destruct (decide (total_ready (_works p) = 0)) as [Hz|Hnz].
    2: { (* a stolen task *)
      pose proof (total_ready_nonneg (_works p)).
      destruct (pass_steal p i wk t dice Hwf Hq HW Hcop He Hwk Hc ltac:(lia))
        as (w' & tr1 & v & wkv & q' & Hn1 & _ & _ & Hwkv & _ & HIq & Hn & Hpass).
      destruct (popped_facts p v wkv q' Hwf Hq Hwkv HIq Hn) as (Hwf1 & Hq1 & Hp1).
      rewrite Hpass.
      apply (dispatch_spec n AtLoopHead i w' (_xorshift32 dice) p (popped v q' p) tr tr1);
        try done; try lia.
      repeat split; try done. simpl. by rewrite length_insert. }
    destruct (pass_no_steal p i wk t dice Hwf Hq HW Hcop He Hwk Hz)
      as (tr1 & Hn1 & _ & _ & Hpass).
    rewrite Hpass.
    destruct (_task_queue p) as [|x rest] eqn:Htq.
    + (* nothing anywhere: the inner loop *)
      destruct n as [|n]; [lia|]. cbn [worker_run].
      destruct (sleep_spec AtLoopHead p i wk t
                  (worker_run moved_from n AtLoopHead i)
                  (worker_run moved_from n AtIdleTest i)
                  (_xorshift32 dice) tr tr1 (or_introl eq_refl)
                  Hwf Hq ltac:(lia) Hwk Hc Htq Ht Hn1)
        as (s & p' & tr2 & Hrun & Hpost).
      exists (StopCvWait s), t, (_xorshift32 dice), p', tr2. split; [exact Hrun|exact Hpost].
    + (* a task of the overflow queue *)
      assert (Hp1 : pending (set_task_queue rest p) = pending p - 1).
      { unfold pending, num_tasks. simpl. rewrite Htq. simpl. lia. }
      apply (dispatch_spec n AtLoopHead i x (_xorshift32 dice) p (set_task_queue rest p)
               tr tr1); try done; lia.
  - (* the test of the inner loop *)
    destruct (decide (contentsQ (queue wk) = [])) as [Hc|Hc].
    2: { apply exists_last in Hc as (l & v & Hc).
      destruct (pass_own p i wk t v l Hwk HI Hc) as (q' & HIq & _ & Hn & Hpass).
      destruct (popped_facts p i wk q' Hwf Hq Hwk HIq Hn) as (Hwf1 & Hq1 & Hp1).
      rewrite (proj2 (Hpass _ _ dice tr)).
      destruct (dispatch_spec n AtIdleTest i v dice p (popped i q' p) tr [])
        as (stop & t' & dice' & p' & tr1 & Hrun & Hpost); try done; try lia.
      { repeat split; try done. simpl. by rewrite length_insert. }
      rewrite app_nil_r in Hrun. exists stop, t', dice', p', tr1. split; [exact Hrun|exact Hpost]. }
    destruct (decide (_task_queue p = [])) as [Htq|Htq].
    + destruct (sleep_spec AtIdleTest p i wk t
                  (worker_run moved_from n AtLoopHead i)
                  (worker_run moved_from n AtIdleTest i)
                  dice tr [] (or_intror eq_refl)
                  Hwf Hq ltac:(lia) Hwk Hc Htq Ht eq_refl)
        as (s & p' & tr2 & Hrun & Hpost).
      rewrite app_nil_r in Hrun.
      exists (StopCvWait s), t, dice, p', tr2. split; [exact Hrun|exact Hpost].
    + rewrite (idle_overflow p i wk t Hwk HI Hc Htq).
      destruct (dispatch_spec n AtIdleTest i t dice p p tr [])
        as (stop & t' & dice' & p' & tr1 & Hrun & Hpost); try done; try lia.
      { intros Habs. congruence. }
      rewrite app_nil_r in Hrun. exists stop, t', dice', p', tr1. split; [exact Hrun|exact Hpost].
  - (* after the wait *)
    unfold bind at 1, modify at 1. cbn [fst snd].
    set (p1 := set_idle_workers (usize (_idle_workers p - 1)) p).
    destruct (IH AtIdleTest i t dice p1 tr Hwf Hq HW Hcop Hi
                ltac:(apply Z.mod_pos_bound; lia) Ht
                ltac:(change (pending p1) with (pending p); lia))
      as (stop & t' & dice' & p' & tr2 & Hrun & Hpost).
    exists stop, t', dice', p', tr2. split; [done|].
    by apply (worker_post_link AfterCvWait AtIdleTest p p1 p' [] tr2 stop t'
                (or_intror eq_refl)).
  - (* after the task *)
    unfold bind at 1, emit at 1. cbn [fst snd].
    destruct (IH AtLoopHead i task_null dice p (tr ++ [EvLock]) Hwf Hq HW Hcop Hi
                Hidle eq_refl ltac:(lia))
      as (stop & t' & dice' & p' & tr2 & Hrun & Hpost).
    exists stop, t', dice', p', ([EvLock] ++ tr2).
    split; [by rewrite app_assoc|].
    by apply (worker_post_link AfterTask AtLoopHead p p p' [EvLock] tr2 stop t'
                (or_introl eq_refl)).
Qed.
(** X21.  One pass of a worker's loop looks for a task in three places, in
    this order: the [_front] end of the worker's own queue; the [_back] end
    of the first queue on its victim walk that holds a task; the head of
    the overflow queue.  When the task found holds a target the worker
    stops at [t()] with [_mutex] released, that task removed from where it
    waited and no other task moved. *)
Theorem worker_takes_tasks_in_priority_order
    (p : Pool Callable) (i : Z) (wk : Worker Callable) (t : Task) (dice : Z) (n : nat) :
  pool_wf p -> queues_ok p ->
  1 <= num_workers p <= 2 ^ 63 ->
  _coprimes p = compute_coprimes (num_workers p) ->
  _exiting p = false ->
  _works p !! Z.to_nat i = Some wk ->
  let go := run' (worker_run moved_from (S n) AtLoopHead i t dice) p in
  (forall l v, contentsQ (queue wk) = l ++ [v] -> holds_target v = true ->
     exists q',
       go = (Returned (StopTask, v, dice), (popped i q' p, [EvUnlock])) /\
       contentsQ q' = l /\ pending (popped i q' p) = pending p - 1) /\
  (contentsQ (queue wk) = [] -> 0 < total_ready (_works p) ->
     exists w' v wkv q' tr1,
       _works p !! Z.to_nat v = Some wkv /\
       contentsQ (queue wkv) = w' :: contentsQ q' /\
       (forall e, e ∈ tr1 -> exists u, e = EvProbe u) /\
       last (probed tr1) = Some v /\
       (holds_target w' = true ->
          go = (Returned (StopTask, w', _xorshift32 dice),
                (popped v q' p, tr1 ++ [EvUnlock])) /\
          pending (popped v q' p) = pending p - 1)) /\
  (total_ready (_works p) = 0 ->
     forall x rest, _task_queue p = x :: rest -> holds_target x = true ->
       exists tr1,
         probed tr1 ≡ₚ seqZ 0 (num_workers p) /\
         go = (Returned (StopTask, x, _xorshift32 dice),
               (set_task_queue rest p, tr1 ++ [EvUnlock])) /\
         pending (set_task_queue rest p) = pending p - 1).
Proof.
  intros Hwf Hq HW Hcop He Hwk go.
  pose proof (queues_ok_lookup p _ wk Hq Hwk) as HI.
  unfold go, run. cbn [worker_run].
  split; [|split].
  - intros l v Hc Hv.
    destruct (pass_own p i wk t v l Hwk HI Hc) as (q' & HIq & Hl & Hn & Hpass).
    destruct (popped_facts p i wk q' Hwf Hq Hwk HIq Hn) as (_ & _ & Hp1).
    exists q'. rewrite (proj1 (Hpass _ _ dice []) He), dispatch_set by done.
    done.
  - intros Hc Hpos.
    destruct (pass_steal p i wk t dice Hwf Hq HW Hcop He Hwk Hc Hpos)
      as (w' & tr1 & v & wkv & q' & _ & Hev & Hlast & Hwkv & Hcv & HIq & Hn & Hpass).
    destruct (popped_facts p v wkv q' Hwf Hq Hwkv HIq Hn) as (_ & _ & Hp1).
    exists w', v, wkv, q', tr1. do 4 (split; [done|]).
    intros Hw'. rewrite Hpass, dispatch_set by done. done.
  - intros Hz x rest Htq Hx.
    destruct (pass_no_steal p i wk t dice Hwf Hq HW Hcop He Hwk Hz)
      as (tr1 & _ & _ & Hperm & Hpass).
    exists tr1. split; [done|].
    rewrite Hpass, Htq, dispatch_set by done.
    split; [done|]. unfold pending, num_tasks. simpl. rewrite Htq. simpl. lia.
Qed.

(** from the head of the outer loop on a pool in which nothing waits *)
Lemma head_sleeps (p : Pool Callable) (i : Z) (t : Task) (dice : Z) (n : nat)
    (tr : list (Event Callable R)) :
  pool_wf p -> queues_ok p ->
  1 <= num_workers p <= 2 ^ 63 ->
  _coprimes p = compute_coprimes (num_workers p) ->
  0 <= i < num_workers p ->
  _exiting p = false -> pending p = 0 ->
  let last_idle := (usize (_idle_workers p + 1) =? num_workers p) && _wait_for_all p in
  let p1 := set_idle_workers (usize (_idle_workers p + 1)) p in
  let p' := if last_idle then set_sync true p1 else p1 in
  exists tr1,
    probed tr1 ≡ₚ seqZ 0 (num_workers p) /\
    (forall e, e ∈ tr1 -> exists u, e = EvProbe u) /\
    worker_run moved_from (S (S n)) AtLoopHead i t dice (p, tr)
      = (Returned (StopCvWait last_idle, t, _xorshift32 dice), (p', tr ++ tr1)).
Proof.
  intros Hwf Hq HW Hcop Hi He Hp last_idle p1 p'.
  destruct (lookup_lt_is_Some_2 (_works p) (Z.to_nat i)
              ltac:(destruct Hwf as [Hl _]; unfold num_workers in Hi; lia)) as [wk Hwk].
  pose proof (queues_ok_lookup p _ wk Hq Hwk) as HI.
  pose proof (total_ready_nonneg (_works p)) as Hnn.
  assert (Hz : total_ready (_works p) = 0) by (unfold pending, num_tasks in Hp; lia).
  assert (Htq : _task_queue p = []).
  { unfold pending, num_tasks in Hp. destruct (_task_queue p); [done|simpl in Hp; lia]. }
  assert (Hc : contentsQ (queue wk) = []).
  { apply (contents_nil_iff _ HI). pose proof (total_ready_lookup _ _ _ Hwk).
    unfold num_ready in *. lia. }
  destruct (pass_no_steal p i wk t dice Hwf Hq HW Hcop He Hwk Hz)
    as (tr1 & _ & Hev & Hperm & Hpass).
  exists tr1. split; [done|]. split; [done|].
  cbn [worker_run]. rewrite Hpass, Htq.
  rewrite (idle_sleep p i wk t Hwf Hq ltac:(lia) Hwk Hc Htq).
  fold last_idle p1. rewrite Hz. cbn [Z.eqb]. unfold p'.
  by destruct last_idle.
Qed.

(** X22.  A worker that finds no task anywhere goes to sleep: from the head
    of its loop on a pool in which nothing waits, it has probed every
    worker once, counts itself in [_idle_workers] and stops in
    [w.cv.wait(lock)] with everything else unchanged, except that the last
    worker to go idle while the owner is in [wait_for_all] raises [_sync].
    The thread function run from its first statement does the same after
    taking the mutex, with [dice] seeded from the worker's index. *)
Theorem worker_sleeps_when_nothing_waits
    (p : Pool Callable) (i : Z) (t : Task) (dice : Z) (n : nat) :
  pool_wf p -> queues_ok p ->
  1 <= num_workers p <= 2 ^ 63 ->
  _coprimes p = compute_coprimes (num_workers p) ->
  0 <= i < num_workers p ->
  _exiting p = false -> pending p = 0 ->
  let last_idle := (usize (_idle_workers p + 1) =? num_workers p) && _wait_for_all p in
  let p1 := set_idle_workers (usize (_idle_workers p + 1)) p in
  let p' := if last_idle then set_sync true p1 else p1 in
  (exists tr1,
     probed tr1 ≡ₚ seqZ 0 (num_workers p) /\
     (forall e, e ∈ tr1 -> exists u, e = EvProbe u) /\
     run' (worker_run moved_from (S (S n)) AtLoopHead i t dice) p
       = (Returned (StopCvWait last_idle, t, _xorshift32 dice), (p', tr1))) /\
  (exists tr1,
     probed tr1 ≡ₚ seqZ 0 (num_workers p) /\
     (forall e, e ∈ tr1 -> exists u, e = EvProbe u) /\
     run' (worker_start moved_from (S (S n)) i) p
       = (Returned (StopCvWait last_idle, task_null, _xorshift32 (worker_seed i)),
          (p', EvLock :: tr1))).
Proof.
  intros Hwf Hq HW Hcop Hi He Hp last_idle p1 p'.
  split.
  - destruct (head_sleeps p i t dice n [] Hwf Hq HW Hcop Hi He Hp)
      as (tr1 & Hperm & Hev & Hrun).
    by exists tr1.
  - destruct (head_sleeps p i task_null (worker_seed i) n [EvLock] Hwf Hq HW Hcop Hi He Hp)
      as (tr1 & Hperm & Hev & Hrun).
    exists tr1. split; [done|]. split; [done|].
    destruct (lookup_lt_is_Some_2 (_works p) (Z.to_nat i)
                ltac:(destruct Hwf as [Hl _]; unfold num_workers in Hi; lia)) as [wk Hwk].
    unfold run, worker_start. rewrite (run_works_at _ _ _ _ _ Hwk).
    unfold bind at 1, emit at 1. cbn [fst snd app]. exact Hrun.
Qed.

(** X23.  [_sync] is raised only at quiescence.  A worker raises [_sync]
    (and signals [_empty_cv]) only on its way into [w.cv.wait(lock)], and
    only when the owner is in [wait_for_all], every worker is counted idle
    and no task waits anywhere in the pool; on every other way to a stop
    it leaves [_sync] as it was.  If the last worker to go idle while the
    owner waits finds that some run queue still holds a task, it wakes the
    first such worker instead, so that task is not left behind. *)
Theorem sync_raised_only_at_quiescence
    (p : Pool Callable) (pc : WorkerPc) (i : Z) (t : Task) (dice : Z) (n : nat) :
  pool_wf p -> queues_ok p ->
  1 <= num_workers p <= 2 ^ 63 ->
  _coprimes p = compute_coprimes (num_workers p) ->
  0 <= i < num_workers p ->
  0 <= _idle_workers p < 2 ^ 64 ->
  holds_target t = false ->
  pending p + 4 <= Z.of_nat n ->
  let r := run' (worker_run moved_from n pc i t dice) p in
  exists stop t' dice',
    r.1 = Returned (stop, t', dice') /\
    (stop = StopCvWait true ->
       _sync r.2.1 = true /\ _wait_for_all r.2.1 = true /\
       _idle_workers r.2.1 = num_workers r.2.1 /\
       pending r.2.1 = 0 /\ notified r.2.2 = []) /\
    (stop <> StopCvWait true -> _sync r.2.1 = _sync p) /\
    (stop = StopCvWait false ->
       _task_queue r.2.1 = [] /\
       (_wait_for_all r.2.1 = true -> _idle_workers r.2.1 = num_workers r.2.1 ->
          notified r.2.2 = [_nonempty_queue r.2.1] /\
          exists wk, _works r.2.1 !! Z.to_nat (_nonempty_queue r.2.1) = Some wk /\
                     empty (queue wk) = false)).
Proof.
  intros Hwf Hq HW Hcop Hi Hidle Ht Hfuel r.
  destruct (worker_run_spec n pc i t dice p [] Hwf Hq HW Hcop Hi Hidle Ht
              ltac:(destruct pc; lia))
    as (stop & t' & dice' & p' & tr1 & Hrun & (Hwf' & Hq') & HF & Hpend & Hstop).
  unfold r, run. rewrite Hrun. cbn [fst snd app].
  exists stop, t', dice'. split; [done|].
  split; [|split].
  - intros ->. destruct Hstop as (_ & Htq & Hs & Hsync & Hnot & _).
    symmetry in Hs. apply andb_prop in Hs as [Hs Hz]. apply andb_prop in Hs as [Hs Hw].
    apply Z.eqb_eq in Hs, Hz. cbn [negb] in Hnot. rewrite andb_false_r in Hnot.
    split; [done|]. split; [done|]. split; [done|]. split; [|done].
    unfold pending, num_tasks. rewrite Htq, Hz. done.
  - intros Hne. destruct stop as [|[]| |]; try done.
    + by destruct Hstop as (_ & _ & _ & ? & _).
    + by destruct Hstop as (_ & _ & _ & ? & _).
    + by destruct Hstop as (_ & ? & _).
  - intros ->. destruct Hstop as (_ & Htq & Hs & Hsync & Hnot & _).
    split; [done|]. intros Hw Hid.
    rewrite Hw, Hid, Z.eqb_refl in Hs, Hnot. cbn [andb negb] in Hs, Hnot.
    split; [done|].
    symmetry in Hs. apply Z.eqb_neq in Hs.
    destruct (nonempty_loop_spec (_works p') (length (_works p')) 0 ltac:(lia) ltac:(lia))
      as (Hr & _ & Hat).
    fold (_nonempty_queue p') in Hr, Hat.
    apply Hat. pose proof (nonempty_queue_quiet p' Hq'). lia.
Qed.

(** X24.  Run from any of its entry points on a consistent pool, the thread
    function of a worker reaches a stop: it neither throws nor indexes out
    of range, and a bound on its jumps of four more than the number of
    waiting tasks is never used up.  It writes only the run queues, the
    overflow queue, [_idle_workers] and [_sync]; it never adds a task; it
    stops at [t()] only with a task that holds a target, taken from the
    pool, and with [_mutex] released; it leaves its loop only when
    [_exiting] is set; and [_idle_workers] goes up by one exactly when it
    enters [w.cv.wait(lock)] and down by one exactly when it resumes from
    there. *)
Theorem worker_reaches_stop
    (p : Pool Callable) (pc : WorkerPc) (i : Z) (t : Task) (dice : Z) (n : nat) :
  pool_wf p -> queues_ok p ->
  1 <= num_workers p <= 2 ^ 63 ->
  _coprimes p = compute_coprimes (num_workers p) ->
  0 <= i < num_workers p ->
  0 <= _idle_workers p < 2 ^ 64 ->
  holds_target t = false ->
  pending p + 4 <= Z.of_nat n ->
  let r := run' (worker_run moved_from n pc i t dice) p in
  exists stop t' dice',
    r.1 = Returned (stop, t', dice') /\ stop <> StopFuel /\
    pool_wf r.2.1 /\ queues_ok r.2.1 /\
    _threads r.2.1 = _threads p /\ _worker_map r.2.1 = _worker_map p /\
    _owner r.2.1 = _owner p /\ _exiting r.2.1 = _exiting p /\
    _wait_for_all r.2.1 = _wait_for_all p /\ _next_queue r.2.1 = _next_queue p /\
    _coprimes r.2.1 = _coprimes p /\ length (_works r.2.1) = length (_works p) /\
    pending r.2.1 <= pending p /\
    (stop = StopTask ->
       holds_target t' = true /\ pending r.2.1 < pending p /\
       last r.2.2 = Some EvUnlock) /\
    (stop = StopExit -> _exiting p = true) /\
    _idle_workers r.2.1
      = usize (_idle_workers p
               + match stop with StopCvWait _ => 1 | _ => 0 end
               - match pc with AfterCvWait => 1 | _ => 0 end).
Proof.
  intros Hwf Hq HW Hcop Hi Hidle Ht Hfuel r.
  destruct (worker_run_spec n pc i t dice p [] Hwf Hq HW Hcop Hi Hidle Ht
              ltac:(destruct pc; lia))
    as (stop & t' & dice' & p' & tr1 & Hrun & (Hwf' & Hq') &
        (F1 & F2 & F3 & F4 & F5 & F6 & F7 & F8) & Hpend & Hstop).
  unfold r, run. rewrite Hrun. cbn [fst snd app].
  exists stop, t', dice'. do 13 (split; [by destruct stop|]).
  split; [|split].
  - intros ->. by destruct Hstop as (? & ? & _ & _ & ? & _).
  - intros ->. by destruct Hstop as (? & _).
  - destruct stop as [|s| |]; [| | |done].
    + destruct Hstop as (_ & _ & _ & _ & _ & ->). f_equal. lia.
    + by destruct Hstop as (_ & _ & _ & _ & _ & ->).
    + destruct Hstop as (_ & _ & _ & ->). f_equal. lia.
Qed.
Lemma push_terminators_idle (l : list Z) (p : Pool Callable) :
  _idle_workers (foldl (push_terminator moved_from) p l) = _idle_workers p.
Proof.
  revert p. induction l as [|j l IH]; intros p; [done|]. simpl. rewrite IH.
  unfold push_terminator. by repeat case_match.
Qed.

(** X25.  [shutdown] ends a sleeping worker.  On a quiescent pool whose
    workers have raised [_sync], [shutdown] leaves the no-op task in every
    run queue and waits at the joins; a worker that resumes from
    [w.cv.wait(lock)] then takes that task from its own queue and stops to
    run it, and when the task has returned it finds [_exiting] set, leaves
    its loop and releases [_mutex], without having touched the overflow
    queue. *)
Theorem shutdown_ends_sleeping_worker
    (p : Pool Callable) (i : Z) (t : Task) (dice : Z) (n m : nat) :
  pool_wf p -> queues_ok p -> _threads p <> [] ->
  _sync p = true -> total_ready (_works p) = 0 ->
  0 <= i < num_workers p ->
  let r1 := run' (shutdown moved_from (_owner p)) p in
  let r2 := run' (worker_run moved_from (S (S n)) AfterCvWait i t dice) r1.2.1 in
  let r3 := run' (worker_run moved_from (S (S m)) AfterTask i task_dummy dice) r2.2.1 in
  r1.1 = Waits OnJoin /\
  r2.1 = Returned (StopTask, task_dummy, dice) /\ r2.2.2 = [EvUnlock] /\
  r3.1 = Returned (StopExit, task_null, dice) /\ r3.2.2 = [EvLock; EvUnlock] /\
  r3.2.1 = r2.2.1 /\
  _task_queue r3.2.1 = _task_queue p /\
  _idle_workers r3.2.1 = usize (_idle_workers p - 1).
Proof.
  intros Hwf Hq Hth Hs Hz Hi r1 r2 r3. pose proof Hwf as [Hlen Hmap].
  set (W := Z.of_nat (length (_works p))).
  set (p1 := set_exiting true (set_sync false (set_wait_for_all true p))).
  set (pj := foldl (push_terminator moved_from) p1 (seqZ 0 W)).
  assert (Hr1 : r1 = (Waits OnJoin,
            (pj, [EvLock] ++ (EvNotifyWorker <$> seqZ 0 W) ++ (EvNotifyWorker <$> seqZ 0 W)
                 ++ [EvUnlock]))).
  { unfold r1. rewrite (shutdown_closed p Hwf Hq Hth), Hs. done. }
  destruct (lookup_lt_is_Some_2 (_works p) (Z.to_nat i)
              ltac:(unfold num_workers in Hi; lia)) as [wk Hwk].
  pose proof (queues_ok_lookup p _ wk Hq Hwk) as HI.
  assert (Hq1 : queues_ok p1) by exact Hq.
  destruct (push_terminators_lookup (seqZ 0 W) (NoDup_seqZ _ _) p1 Hq1)
    as (Hqj & Hlenj & (Htqj & _) & _ & Hexj & _ & _ & _ & Hin).
  { intros j Hj. apply elem_of_seqZ in Hj. simpl. unfold W in Hj. lia. }
  fold pj in Hqj, Hlenj, Htqj, Hexj, Hin.
  destruct (Hin i wk) as (q' & Hwkj & Hroom & _).
  { apply elem_of_seqZ. unfold W, num_workers in *. lia. }
  { exact Hwk. }
  assert (Hnr : num_ready (queue wk) = 0).
  { pose proof (total_ready_lookup _ _ _ Hwk). unfold num_ready in *. lia. }
  assert (Hc0 : contentsQ (queue wk) = []) by by apply (contents_nil_iff _ HI).
  assert (Hc : contentsQ q' = [] ++ [task_dummy]).
  { rewrite Hroom, Hc0; [done|]. rewrite Hnr. by vm_compute. }
  set (pw := set_idle_workers (usize (_idle_workers pj - 1)) pj).
  assert (Hwkw : _works pw !! Z.to_nat i = Some (mkWorker q')) by exact Hwkj.
  assert (HIq : InvQ q') by exact (queues_ok_lookup pj _ _ Hqj Hwkj).
  destruct (pass_own pw i (mkWorker q') t task_dummy [] Hwkw HIq Hc)
    as (q2 & HI2 & _ & _ & Hpass).
  assert (Hr2 : r2 = (Returned (StopTask, task_dummy, dice), (popped i q2 pw, [EvUnlock]))).
  { unfold r2. rewrite Hr1. unfold run. cbn [fst snd worker_run].
    unfold bind at 1, modify at 1. cbn [fst snd]. fold pw.
    rewrite (proj2 (Hpass _ _ dice [])). by rewrite dispatch_set. }
  assert (Hr3 : r3 = (Returned (StopExit, task_null, dice),
                      (popped i q2 pw, [EvLock; EvUnlock]))).
  { unfold r3. rewrite Hr2. unfold run. cbn [fst snd worker_run].
    unfold bind at 1, emit at 1. cbn [fst snd app].
    unfold worker_pass, bind at 1, get at 1. cbn [fst snd].
    change (_exiting (popped i q2 pw)) with (_exiting pj). rewrite Hexj. done. }
  rewrite Hr1, Hr2, Hr3. cbn [fst snd].
  do 6 (split; [done|]). split; [exact Htqj|].
  change (_idle_workers (popped i q2 pw)) with (usize (_idle_workers pj - 1)).
  unfold pj. by rewrite push_terminators_idle.
Qed.
(** X26.  A task submitted by the owner to an idle pool is run by the
    worker that was notified.  On a pool in which nothing waits,
    [silent_async] of a task that holds a target puts it in the queue of
    worker [id = (counter + 1) mod W] and notifies that worker; resumed
    from [w.cv.wait(lock)], worker [id] stops at [t()] with exactly that
    task and nothing left waiting; and when the task has returned, the
    worker finds nothing, goes back to sleep, and [_idle_workers] is what
    it was before the submission. *)
Theorem submitted_task_reaches_notified_worker
    (p : Pool Callable) (t t0 : Task) (dice : Z) (n m : nat) :
  pool_wf p -> queues_ok p ->
  1 <= num_workers p <= 2 ^ 63 ->
  _coprimes p = compute_coprimes (num_workers p) ->
  _exiting p = false -> pending p = 0 ->
  1 <= _idle_workers p < 2 ^ 64 ->
  holds_target t = true ->
  let id := usize (_next_queue p + 1) mod num_workers p in
  let r1 := run' (silent_async moved_from (_owner p) t) p in
  let r2 := run' (worker_run moved_from (S (S n)) AfterCvWait id t0 dice) r1.2.1 in
  let r3 := run' (worker_run moved_from (S (S (S m))) AfterTask id t dice) r2.2.1 in
  r1.1 = Returned tt /\ notified r1.2.2 = [id] /\ pending r1.2.1 = 1 /\
  r2.1 = Returned (StopTask, t, dice) /\ r2.2.2 = [EvUnlock] /\ pending r2.2.1 = 0 /\
  (exists s, r3.1 = Returned (StopCvWait s, task_null, _xorshift32 dice)) /\
  pending r3.2.1 = 0 /\ queues_ok r3.2.1 /\
  _idle_workers r3.2.1 = _idle_workers p /\
  _next_queue r3.2.1 = usize (_next_queue p + 1).
Proof.
  intros Hwf Hq HW Hcop He Hp Hidle Ht id r1 r2 r3. pose proof Hwf as [Hlen Hmap].
  assert (Hsz : num_workers p = Z.of_nat (length (_works p)))
    by (unfold num_workers; lia).
  pose proof (Z.mod_pos_bound (usize (_next_queue p + 1)) (num_workers p) ltac:(lia)) as Hid.
  fold id in Hid.
  destruct (lookup_lt_is_Some_2 (_works p) (Z.to_nat id) ltac:(lia)) as [wk Hwk].
  pose proof (queues_ok_lookup p _ wk Hq Hwk) as HI.
  pose proof (total_ready_nonneg (_works p)) as Hnn.
  assert (Hz : total_ready (_works p) = 0) by (unfold pending, num_tasks in Hp; lia).
  assert (Htq : _task_queue p = []).
  { unfold pending, num_tasks in Hp. destruct (_task_queue p); [done|simpl in Hp; lia]. }
  assert (Hnr : num_ready (queue wk) = 0).
  { pose proof (total_ready_lookup _ _ _ Hwk). unfold num_ready in *. lia. }
  assert (Hc0 : contentsQ (queue wk) = []) by by apply (contents_nil_iff _ HI).
  destruct (silent_async_round_robin_path p (_owner p) t wk ltac:(lia) (or_introl eq_refl))
    as (ok & q' & t' & Hpb & Hrun).
  { rewrite <- Hsz. exact Hwk. }
  { exact (inv_mutex _ _ _ HI). }
  rewrite <- Hsz in Hrun. fold id in Hrun.
  destruct (push_back_contents task_null moved_from WorkQueue_log2N WorkQueue_log2N_range
              (queue wk) t HI) as [(Hfull & _)|(Hlt & q1 & Hr & HI1 & Hc1)].
  { rewrite <- (num_ready_count _ HI), Hnr in Hfull. by vm_compute in Hfull. }
  rewrite Hr in Hpb. injection Hpb as <- <- <-.
  set (pc := set_next_queue (usize (_next_queue p + 1)) p) in *.
  set (ps := set_task_queue (_task_queue p) (popped id q1 pc)) in *.
  assert (Hr1 : r1 = (Returned tt, (ps, [EvNotifyWorker id]))) by exact Hrun.
  assert (Hps : ps = popped id q1 pc) by (unfold ps; by destruct p).
  assert (Hwfc : pool_wf pc) by exact Hwf.
  assert (Hqc : queues_ok pc) by exact Hq.
  assert (Hwfs : pool_wf ps).
  { rewrite Hps. split; [simpl; by rewrite length_insert|exact Hmap]. }
  assert (Hqs : queues_ok ps) by (rewrite Hps; by apply queues_ok_insert).
  assert (Hn1 : num_ready q1 = 1).
  { rewrite (num_ready_count _ HI1).
    rewrite <- (contents_length task_null WorkQueue_log2N WorkQueue_log2N_range q1).
    rewrite Hc1, Hc0. done. }
  assert (Hp1 : pending ps = 1).
  { rewrite Hps. unfold pending, num_tasks. simpl.
    rewrite (total_ready_insert _ _ wk _ Hwk). simpl. rewrite Htq. simpl. lia. }
  (* the notified worker resumes *)
  set (pw := set_idle_workers (usize (_idle_workers ps - 1)) ps).
  assert (Hwkw : _works pw !! Z.to_nat id = Some (mkWorker q1)).
  { unfold pw. rewrite Hps. simpl. apply list_lookup_insert_eq.
    by apply lookup_lt_Some in Hwk. }
  assert (Hc : contentsQ q1 = [] ++ [t]) by (by rewrite Hc1, Hc0).
  destruct (pass_own pw id (mkWorker q1) t0 t [] Hwkw HI1 Hc)
    as (q2 & HI2 & Hc2 & Hn2 & Hpass).
  assert (Hwfw : pool_wf pw) by exact Hwfs.
  assert (Hqw : queues_ok pw) by exact Hqs.
  destruct (popped_facts pw id (mkWorker q1) q2 Hwfw Hqw Hwkw HI2 Hn2)
    as (Hwf2 & Hq2 & Hp2).
  assert (Hr2 : r2 = (Returned (StopTask, t, dice), (popped id q2 pw, [EvUnlock]))).
  { unfold r2. rewrite Hr1. unfold run. cbn [fst snd worker_run].
    unfold bind at 1, modify at 1. cbn [fst snd]. fold pw.
    rewrite (proj2 (Hpass _ _ dice [])). by rewrite dispatch_set. }
  change (pending pw) with (pending ps) in Hp2. rewrite Hp1 in Hp2.
  (* the task has returned *)
  set (p2 := popped id q2 pw) in *.
  assert (Hidle2 : _idle_workers p2 = _idle_workers p - 1).
  { change (_idle_workers p2) with (usize (_idle_workers ps - 1)).
    rewrite Hps. change (_idle_workers (popped id q1 pc)) with (_idle_workers p).
    unfold usize. apply Z.mod_small. lia. }
  destruct (head_sleeps p2 id task_null dice m [EvLock] Hwf2 Hq2)
    as (tr3 & _ & _ & Hrun3); try done; try lia.
  assert (Hr3 : r3 = (Returned (StopCvWait
                          ((usize (_idle_workers p2 + 1) =? num_workers p2)
                           && _wait_for_all p2), task_null, _xorshift32 dice),
                      ((if (usize (_idle_workers p2 + 1) =? num_workers p2)
                           && _wait_for_all p2
                        then set_sync true (set_idle_workers (usize (_idle_workers p2 + 1)) p2)
                        else set_idle_workers (usize (_idle_workers p2 + 1)) p2),
                       [EvLock] ++ tr3))).
  { unfold r3. rewrite Hr2. unfold run. cbn [fst snd].
    change (worker_run moved_from (S (S (S m))) AfterTask id t dice
              (p2, @nil (Event Callable R)))
      with (worker_run moved_from (S (S m)) AtLoopHead id task_null dice
              (p2, [EvLock (Callable:=Callable) (R:=R)])).
    exact Hrun3. }
  rewrite Hr1, Hr2, Hr3. cbn [fst snd].
  assert (Hu : usize (_idle_workers p2 + 1) = _idle_workers p).
  { rewrite Hidle2. replace (_idle_workers p - 1 + 1) with (_idle_workers p) by lia.
    unfold usize. apply Z.mod_small. lia. }
  do 6 (split; [done|]). split; [by eexists|].
  destruct (_ && _); cbn; rewrite ?Hu; done.
Qed.
(** X27.  [wait_for_all] on a quiescent pool is a round trip.  With every
    worker asleep and nothing waiting, the owner's [wait_for_all] raises
    [_wait_for_all], notifies the workers and waits on [_empty_cv]; the
    first worker to resume counts itself out and in again, finds that it
    is the last idle one and raises [_sync]; the owner's wait then ends,
    and when [wait_for_all] returns the pool is exactly as it was before
    the call.  A worker woken after that (or at any time without a
    [wait_for_all] in progress) goes back to sleep and changes nothing. *)
Theorem wait_for_all_round_trip
    (p : Pool Callable) (i : Z) (t : Task) (dice : Z) (n : nat) :
  pool_wf p -> queues_ok p ->
  1 <= num_workers p <= 2 ^ 63 ->
  0 <= i < num_workers p ->
  pending p = 0 -> _idle_workers p = num_workers p ->
  _sync p = false -> _wait_for_all p = false ->
  let r1 := run' (wait_for_all (_owner p)) p in
  let r2 := run' (worker_run moved_from (S (S n)) AfterCvWait i t dice) r1.2.1 in
  let r3 := run' (bind await_sync (fun _ => wait_for_all_tail)) r2.2.1 in
  r1.1 = Waits OnEmptyCv /\ notified r1.2.2 = seqZ 0 (num_workers p) /\
  r2.1 = Returned (StopCvWait true, t, dice) /\ r2.2.2 = [] /\
  r2.2.1 = set_sync true (set_wait_for_all true p) /\
  r3 = (Returned tt, (p, [EvUnlock])) /\
  run' (worker_run moved_from (S (S n)) AfterCvWait i t dice) p
    = (Returned (StopCvWait false, t, dice), (p, [])).
Proof.
  intros Hwf Hq HW Hi Hp Hidle Hs Hw r1 r2 r3. pose proof Hwf as [Hlen Hmap].
  assert (Hsz : num_workers p = Z.of_nat (length (_works p)))
    by (unfold num_workers; lia).
  destruct (lookup_lt_is_Some_2 (_works p) (Z.to_nat i) ltac:(lia)) as [wk Hwk].
  pose proof (queues_ok_lookup p _ wk Hq Hwk) as HI.
  pose proof (total_ready_nonneg (_works p)) as Hnn.
  assert (Hz : total_ready (_works p) = 0) by (unfold pending, num_tasks in Hp; lia).
  assert (Htq : _task_queue p = []).
  { unfold pending, num_tasks in Hp. destruct (_task_queue p); [done|simpl in Hp; lia]. }
  assert (Hc : contentsQ (queue wk) = []).
  { apply (contents_nil_iff _ HI). pose proof (total_ready_lookup _ _ _ Hwk).
    unfold num_ready in *. lia. }
  assert (Hu1 : usize (num_workers p - 1) = num_workers p - 1).
  { unfold usize. apply Z.mod_small.
    change (2 ^ 63) with 9223372036854775808 in *.
    change (2 ^ 64) with 18446744073709551616. lia. }
  assert (Hu2 : usize (num_workers p - 1 + 1) = num_workers p).
  { replace (num_workers p - 1 + 1) with (num_workers p) by lia.
    unfold usize. apply Z.mod_small.
    change (2 ^ 63) with 9223372036854775808 in *.
    change (2 ^ 64) with 18446744073709551616. lia. }
  assert (Hwake : forall q : Pool Callable,
            _works q = _works p -> _threads q = _threads p -> _task_queue q = [] ->
            _worker_map q = _worker_map p -> _idle_workers q = num_workers p ->
            run' (worker_run moved_from (S (S n)) AfterCvWait i t dice) q
              = if _wait_for_all q
                then (Returned (StopCvWait true, t, dice), (set_sync true q, []))
                else (Returned (StopCvWait false, t, dice), (q, []))).
  { intros q Hqw Hqt Hqq Hqm Hqi.
    unfold run. cbn [worker_run]. unfold bind at 1, modify at 1. cbn [fst snd].
    set (q1 := set_idle_workers (usize (_idle_workers q - 1)) q).
    assert (Hwf1 : pool_wf q1) by (split; simpl; [by rewrite Hqw, Hqt|by rewrite Hqm, Hqt]).
    assert (Hq1 : queues_ok q1) by (unfold queues_ok; simpl; by rewrite Hqw).
    assert (Hwk1 : _works q1 !! Z.to_nat i = Some wk) by (simpl; by rewrite Hqw).
    rewrite (idle_sleep q1 i wk t Hwf1 Hq1 ltac:(lia) Hwk1 Hc Hqq).
    change (_idle_workers q1) with (usize (_idle_workers q - 1)).
    change (num_workers q1) with (Z.of_nat (length (_threads q))).
    change (_wait_for_all q1) with (_wait_for_all q).
    change (_works q1) with (_works q).
    rewrite Hqi, Hu1, Hu2, Hqt, Hqw, Hz. fold (num_workers p).
    rewrite Z.eqb_refl. cbn [andb Z.eqb].
    assert (Hback : set_idle_workers (num_workers p) q1 = q).
    { unfold q1. destruct q. simpl in *. by subst. }
    rewrite Hback. done. }
  assert (Hr1 : r1 = (Waits OnEmptyCv,
            (set_wait_for_all true p,
             [EvLock] ++ (EvNotifyWorker <$> seqZ 0 (Z.of_nat (length (_works p))))))).
  { unfold r1. rewrite (wait_for_all_closed p ltac:(lia)), Hs. done. }
  assert (Hr2 : r2 = (Returned (StopCvWait true, t, dice),
                      (set_sync true (set_wait_for_all true p), []))).
  { unfold r2. rewrite Hr1. cbn [fst snd]. by rewrite (Hwake (set_wait_for_all true p)). }
  assert (Hr3 : r3 = (Returned tt, (p, [EvUnlock]))).
  { unfold r3. rewrite Hr2. cbn [fst snd].
    unfold run, bind, await_sync, get, wait_for_all_tail, bind, modify, emit.
    cbn. destruct p. simpl in *. by subst. }
  rewrite Hr1, Hr2. cbn [fst snd].
  split; [done|].
  split. { rewrite notified_app, notified_notifies. cbn. by rewrite Hsz. }
  do 4 (split; [done|]).
  by rewrite (Hwake p), Hw.
Qed.
(** X28.  A worker runs the subtask it has just submitted next.  When the
    task running on worker [i] calls [silent_async] and that worker's
    queue has room, the new task goes to the [_front] end of the queue
    without a lock or a notification; when the running task has returned,
    the worker's next pass takes exactly that task, and its queue holds
    again what it held before.  When the queue is full the new task goes
    to the end of the overflow queue instead, and the worker continues
    with the task at the [_front] end of its own queue. *)
Theorem worker_runs_own_subtask_next
    (p : Pool Callable) (self : thread_id) (i : Z) (wk : Worker Callable)
    (t t0 : Task) (dice : Z) (n : nat) :
  pool_wf p -> queues_ok p -> num_workers p <> 0 ->
  self <> _owner p -> _worker_map p !! self = Some i ->
  _works p !! Z.to_nat i = Some wk ->
  _exiting p = false ->
  let r1 := run' (silent_async moved_from self t) p in
  let r2 := run' (worker_run moved_from (S (S n)) AfterTask i t0 dice) r1.2.1 in
  (num_ready (queue wk) < N WorkQueue_log2N -> holds_target t = true ->
     r1.1 = Returned tt /\ r1.2.2 = [] /\
     r2.1 = Returned (StopTask, t, dice) /\ r2.2.2 = [EvLock; EvUnlock] /\
     pending r2.2.1 = pending p /\ _task_queue r2.2.1 = _task_queue p /\
     exists q2, _works r2.2.1 = <[Z.to_nat i := mkWorker q2]> (_works p) /\
                contentsQ q2 = contentsQ (queue wk)) /\
  (num_ready (queue wk) = N WorkQueue_log2N ->
     forall l v, contentsQ (queue wk) = l ++ [v] -> holds_target v = true ->
       r1 = (Returned tt, (set_task_queue (_task_queue p ++ [t]) p, [EvLock; EvUnlock])) /\
       r2.1 = Returned (StopTask, v, dice) /\
       _task_queue r2.2.1 = _task_queue p ++ [t] /\
       exists q2, _works r2.2.1 = <[Z.to_nat i := mkWorker q2]> (_works p) /\
                  contentsQ q2 = l).
Proof.
  intros Hwf Hq HW Hne Hmap Hwk He r1 r2.
  pose proof (queues_ok_lookup p _ wk Hq Hwk) as HI.
  destruct (silent_async_worker_path p self t i wk HW Hne Hmap Hwk) as [Hok Hfail].
  destruct (push_front_contents task_null moved_from WorkQueue_log2N WorkQueue_log2N_range
              (queue wk) t HI) as [(Hfull & Hr)|(Hlt & q1 & Hr & HI1 & Hc1)];
    rewrite Hr in Hok, Hfail; cbn [fst snd] in Hok, Hfail;
    rewrite <- (num_ready_count _ HI) in *.
  - (* full: the overflow queue *)
    split; [lia|]. intros _ l v Hc Hv.
    destruct (Hfail eq_refl) as [_ Hrun].
    set (ps := set_task_queue (_task_queue p ++ [t]) p) in *.
    assert (Hr1 : r1 = (Returned tt, (ps, [EvLock; EvUnlock]))) by exact Hrun.
    assert (Hwks : _works ps !! Z.to_nat i = Some wk) by exact Hwk.
    destruct (pass_own ps i wk task_null v l Hwks HI Hc) as (q2 & HI2 & Hc2 & _ & Hpass).
    assert (Hr2 : r2 = (Returned (StopTask, v, dice), (popped i q2 ps, [EvLock; EvUnlock]))).
    { unfold r2. rewrite Hr1. unfold run. cbn [fst snd worker_run].
      unfold bind at 1, emit at 1. cbn [fst snd app].
      rewrite (proj1 (Hpass _ _ dice [EvLock]) He). by rewrite dispatch_set. }
    rewrite Hr2. cbn [fst snd]. do 3 (split; [done|]). by exists q2.
  - (* room: the worker's own queue *)
    split; [|lia]. intros _ Ht.
    specialize (Hok eq_refl).
    set (ps := popped i q1 p) in *.
    assert (Hr1 : r1 = (Returned tt, (ps, []))) by exact Hok.
    assert (Hwks : _works ps !! Z.to_nat i = Some (mkWorker q1)).
    { simpl. apply list_lookup_insert_eq. by apply lookup_lt_Some in Hwk. }
    destruct (pass_own ps i (mkWorker q1) task_null t (contentsQ (queue wk)) Hwks HI1 Hc1)
      as (q2 & HI2 & Hc2 & Hn2 & Hpass).
    assert (Hr2 : r2 = (Returned (StopTask, t, dice), (popped i q2 ps, [EvLock; EvUnlock]))).
    { unfold r2. rewrite Hr1. unfold run. cbn [fst snd worker_run].
      unfold bind at 1, emit at 1. cbn [fst snd app].
      rewrite (proj1 (Hpass _ _ dice [EvLock]) He). by rewrite dispatch_set. }
    rewrite Hr1, Hr2. cbn [fst snd]. do 4 (split; [done|]).
    assert (Hw2 : _works (popped i q2 ps) = <[Z.to_nat i := mkWorker q2]> (_works p)).
    { simpl. by rewrite list_insert_insert_eq. }
    split; [|split; [done|by exists q2]].
    unfold pending, num_tasks. rewrite Hw2. simpl.
    rewrite (total_ready_insert _ _ wk _ Hwk). simpl.
    cbn [queue] in Hn2.
    assert (Hn1 : num_ready q1 = num_ready (queue wk) + 1).
    { rewrite (num_ready_count _ HI1), (num_ready_count _ HI).
      rewrite <- !(contents_length task_null WorkQueue_log2N WorkQueue_log2N_range).
      rewrite Hc1, length_app. simpl. lia. }
    lia.
Qed.

End PoolFacts.


(** ** Concrete instances *)

Lemma example_pool_wf : pool_wf example_pool.
Proof. apply (Pool_ctor_wf (R:=unit) 0%nat example_fresh 2). lia. Qed.

(** C3 (as the specification states it) fails: on the pool of two workers
    whose counter [_next_queue] is 0, the counter before the increment
    selects worker [0 mod 2 = 0], but a submission by the owner notifies,
    and pushes onto, worker 1. *)
Lemma round_robin_not_old_counter :
  ~ (forall (p : Pool nat) (self : thread_id) (t : TaskType nat),
       pool_wf p ->
       num_workers p <> 0 ->
       self = _owner p ->
       notified (run (R:=unit) (silent_async example_moved self t) p).2.2
         = [_next_queue p mod num_workers p]).
Proof.
  intros H.
  specialize (H example_pool 0%nat (task_of 7%nat) example_pool_wf).
  assert (H1 : num_workers example_pool <> 0) by (vm_compute; discriminate).
  specialize (H H1 eq_refl). vm_compute in H. discriminate.
Qed.

(** after that submission the task sits in the private queue of worker 1,
    and [num_tasks] is still 0 *)
Example num_tasks_ignores_private_queue :
  let p := (run (R:=unit) (silent_async example_moved 0%nat (task_of 7%nat))
              example_pool).2.1 in
  num_tasks p = 0 /\ (fun wk => num_ready (queue wk)) <$> _works p = [0; 1].
Proof. vm_compute. done. Qed.


(** worker 0 (thread 1) submits 1025 tasks to itself: 1024 fill its own
    queue and the last one goes to the overflow queue *)
Example worker_overflow_path :
  let p := submit_n 1025 1%nat example_pool in
  num_tasks p = 1 /\ (fun wk => num_ready (queue wk)) <$> _works p = [1024; 0].
Proof. vm_compute. done. Qed.

Lemma push_front_false_iff_full_witness :
  (2 <= 2 <= 31)%nat /\
  (push_front 0%nat (fun x => x) 2 example_full_queue 9%nat).1.1 = false.
Proof.
  split; [lia|].
  destruct (push_front_false_iff_full 0%nat (fun x => x) 2 ltac:(lia)
              [(PushFront, 1%nat); (PushBack, 2%nat); (PushFront, 3%nat); (PushBack, 4%nat)]
              9%nat) as (_ & [_ Hfull] & _).
  apply Hfull. reflexivity.
Defined.

Lemma failed_call_leaves_queue_unchanged_witness :
  apply_op 0%nat (fun x => x) 2 PushBack example_full_queue 9%nat
    = Some (false, example_full_queue, 9%nat) /\
  example_full_queue = example_full_queue /\ 9%nat = 9%nat.
Proof.
  split; [reflexivity|].
  apply (failed_call_leaves_queue_unchanged 0%nat (fun x => x) 2 PushBack
           example_full_queue example_full_queue 9%nat 9%nat).
  reflexivity.
Defined.

Lemma xorshift32_never_zero_witness :
  0 < 1 < 2 ^ 32 /\ 0 <= 0 < 2 ^ 32 - 1 /\
  0 < _xorshift32 1 < 2 ^ 32 /\
  worker_seed 0 = 0 + 1 /\
  Nat.iter 3 _xorshift32 (worker_seed 0) <> 0.
Proof.
  split; [lia|]. split; [lia|].
  apply (xorshift32_never_zero 1 0 3); lia.
Defined.


Lemma non_owner_call_rejected_witness :
  1%nat <> _owner example_pool /\
  run (R:=unit) (shutdown example_moved 1%nat) example_pool
    = (Threw "Worker thread cannot shut down the pool", (example_pool, [])) /\
  (run (R:=unit) (silent_async example_moved 0%nat (task_of 7%nat))
     (run (R:=unit) (shutdown example_moved 1%nat) example_pool).2.1).1
    = Returned tt.
Proof.
  assert (H : 1%nat <> _owner example_pool) by (vm_compute; discriminate).
  split; [exact H|].
  destruct (non_owner_call_rejected (R:=unit) example_moved example_pool 1%nat
              example_fresh 2 H) as (_ & Hshutdown & _).
  rewrite Hshutdown. split; [reflexivity|]. vm_compute. reflexivity.
Defined.



Lemma worker_submission_uses_own_queue_witness :
  pool_wf example_pool /\
  1%nat <> _owner example_pool /\
  _worker_map example_pool !! 1%nat = Some 0 /\
  notified (run (R:=unit) (silent_async example_moved 1%nat (task_of 7%nat))
              example_pool).2.2 = [].
Proof.
  assert (H2 : 1%nat <> _owner example_pool) by (vm_compute; discriminate).
  assert (H3 : _worker_map example_pool !! 1%nat = Some 0) by (vm_compute; reflexivity).
  split; [exact example_pool_wf|]. split; [exact H2|]. split; [exact H3|].
  destruct (worker_submission_uses_own_queue (R:=unit) example_moved example_pool
              1%nat (task_of 7%nat) 0 example_pool_wf H2 H3) as (wk & Hwk & Hok & _).
  assert (Hwk' : _works example_pool !! Z.to_nat 0
                 = Some (mkWorker (RunQueue_ctor task_null WorkQueue_log2N)))
    by (vm_compute; reflexivity).
  rewrite Hwk' in Hwk. injection Hwk as <-.
  rewrite Hok; [reflexivity|]. vm_compute. reflexivity.
Defined.

Lemma round_robin_uses_incremented_counter_witness :
  pool_wf example_pool /\
  num_workers example_pool <> 0 /\
  (0%nat = _owner example_pool \/ _worker_map example_pool !! 0%nat = None) /\
  _next_queue example_pool = 0 /\
  notified (run (R:=unit) (silent_async example_moved 0%nat (task_of 7%nat))
              example_pool).2.2 = [1].
Proof.
  assert (H1 : num_workers example_pool <> 0) by (vm_compute; discriminate).
  assert (H2 : 0%nat = _owner example_pool \/ _worker_map example_pool !! 0%nat = None)
    by (left; reflexivity).
  split; [exact example_pool_wf|]. split; [exact H1|]. split; [exact H2|].
  split; [reflexivity|].
  destruct (round_robin_uses_incremented_counter (R:=unit) example_moved example_pool
              0%nat (task_of 7%nat) example_pool_wf H1 H2) as (wk & Hwk & Hrun).
  assert (Hwk' : _works example_pool
                   !! Z.to_nat (usize (_next_queue example_pool + 1)
                                mod num_workers example_pool)
                 = Some (mkWorker (RunQueue_ctor task_null WorkQueue_log2N)))
    by (vm_compute; reflexivity).
  rewrite Hwk' in Hwk. injection Hwk as <-.
  destruct (Hrun eq_refl) as (ok & q' & t' & _ & ->).
  simpl. unfold notified. destruct ok; vm_compute; reflexivity.
Defined.

(** ** Concrete instances of the further properties *)

Lemma example_pool_queues_ok : queues_ok example_pool.
Proof. apply (Pool_ctor_queues_ok (R:=unit) 0%nat example_fresh 2). Qed.

Lemma example_pool_synced_wf : pool_wf example_pool_synced.
Proof. destruct example_pool_wf as [H1 H2]. split; [exact H1|exact H2]. Qed.

Lemma example_pool_synced_queues_ok : queues_ok example_pool_synced.
Proof. exact example_pool_queues_ok. Qed.

Lemma sequential_history_invariant_witness :
  (2 <= 2 <= 31)%nat /\ _mutex example_full_queue = false.
Proof.
  split; [lia|].
  apply (sequential_history_invariant 0%nat (fun x => x) 2 ltac:(lia)
           [(PushFront, 1%nat); (PushBack, 2%nat); (PushFront, 3%nat); (PushBack, 4%nat)]).
Defined.

Lemma empty_iff_no_task_witness :
  (2 <= 2 <= 31)%nat /\ num_ready example_full_queue = N 2 /\
  empty example_full_queue = false.
Proof.
  split; [lia|]. split; [reflexivity|].
  destruct (empty_iff_no_task 0%nat (fun x => x) 2 ltac:(lia)
              [(PushFront, 1%nat); (PushBack, 2%nat); (PushFront, 3%nat); (PushBack, 4%nat)])
    as (_ & _ & Hfull).
  apply Hfull. reflexivity.
Defined.

Lemma push_refines_deque_witness :
  (2 <= 2 <= 31)%nat /\
  num_ready (run_calls 0%nat (fun x => x) 2 [(PushFront, 1%nat); (PushBack, 2%nat)]) < N 2 /\
  exists q', push_back 0%nat (fun x => x) 2
               (run_calls 0%nat (fun x => x) 2 [(PushFront, 1%nat); (PushBack, 2%nat)]) 7%nat
             = Some (true, q', 7%nat) /\
             contents 0%nat 2 q'
             = 7%nat :: contents 0%nat 2
                 (run_calls 0%nat (fun x => x) 2 [(PushFront, 1%nat); (PushBack, 2%nat)]).
Proof.
  split; [lia|].
  assert (H : num_ready (run_calls 0%nat (fun x => x) 2
                           [(PushFront, 1%nat); (PushBack, 2%nat)]) < N 2)
    by (vm_compute; reflexivity).
  split; [exact H|].
  destruct (push_refines_deque 0%nat (fun x => x) 2 ltac:(lia)
              [(PushFront, 1%nat); (PushBack, 2%nat)] 7%nat) as (Hroom & _).
  apply (Hroom H).
Defined.

Lemma pop_refines_deque_witness :
  (2 <= 2 <= 31)%nat /\
  contents 0%nat 2 example_full_queue = [4; 2; 1]%nat ++ [3%nat] /\
  exists q', pop_front 0%nat (fun x => x) 2 example_full_queue 9%nat = (true, q', 3%nat) /\
             contents 0%nat 2 q' = [4; 2; 1]%nat.
Proof.
  split; [lia|].
  assert (H : contents 0%nat 2 example_full_queue = [4; 2; 1]%nat ++ [3%nat])
    by (vm_compute; reflexivity).
  split; [exact H|].
  destruct (pop_refines_deque 0%nat (fun x => x) 2 ltac:(lia)
              [(PushFront, 1%nat); (PushBack, 2%nat); (PushFront, 3%nat); (PushBack, 4%nat)]
              9%nat) as (_ & Hfront & _).
  apply (Hfront _ _ H).
Defined.

Lemma drain_hands_out_each_task_once_witness :
  (2 <= 2 <= 31)%nat /\ num_ready example_full_queue <= Z.of_nat 6 /\
  exists q', drain_back 0%nat (fun x => x) 2 6 example_full_queue
             = (contents 0%nat 2 example_full_queue, q') /\
             contents 0%nat 2 q' = [] /\ empty q' = true.
Proof.
  split; [lia|].
  assert (H : num_ready example_full_queue <= Z.of_nat 6) by (vm_compute; discriminate).
  split; [exact H|].
  apply (drain_hands_out_each_task_once 0%nat (fun x => x) 2 ltac:(lia)
           [(PushFront, 1%nat); (PushBack, 2%nat); (PushFront, 3%nat); (PushBack, 4%nat)]
           6 H).
Defined.

Lemma lifo_front_fifo_across_witness :
  (2 <= 2 <= 31)%nat /\
  num_ready (run_calls 0%nat (fun x => x) 2 [(PushBack, 5%nat)])
    + Z.of_nat (length [1; 2; 3]%nat) <= N 2 /\
  exists q', drain_front 0%nat (fun x => x) 2 (length [1; 2; 3]%nat)
               (run_calls 0%nat (fun x => x) 2
                  ([(PushBack, 5%nat)] ++ ((fun v => (PushFront, v)) <$> [1; 2; 3]%nat)))
             = (reverse [1; 2; 3]%nat, q') /\
             contents 0%nat 2 q'
             = contents 0%nat 2 (run_calls 0%nat (fun x => x) 2 [(PushBack, 5%nat)]).
Proof.
  split; [lia|].
  assert (H : num_ready (run_calls 0%nat (fun x => x) 2 [(PushBack, 5%nat)])
              + Z.of_nat (length [1; 2; 3]%nat) <= N 2) by (vm_compute; discriminate).
  split; [exact H|].
  apply (lifo_front_fifo_across 0%nat (fun x => x) 2 ltac:(lia)
           [(PushBack, 5%nat)] [1; 2; 3]%nat H).
Defined.

Lemma masks_wrap_cursors_witness :
  (2 <= 31 <= 31)%nat /\ POS_MASK 31 = 2 * N 31 - 1.
Proof.
  split; [lia|].
  apply (masks_wrap_cursors 31 ltac:(lia) 0).
Defined.

Lemma xorshift32_keeps_workers_apart_witness :
  0 <= 1 < 2 ^ 32 /\ 0 <= 2 < 2 ^ 32 /\ 0 <= 0 < 2 ^ 32 - 1 /\ 0 <= 1 < 2 ^ 32 - 1 /\
  0 <> 1 /\
  Nat.iter 5 _xorshift32 (worker_seed 0) <> Nat.iter 5 _xorshift32 (worker_seed 1).
Proof.
  split; [lia|]. split; [lia|]. split; [lia|]. split; [lia|]. split; [lia|].
  destruct (xorshift32_keeps_workers_apart 1 2 0 1 5 ltac:(lia) ltac:(lia) ltac:(lia)
              ltac:(lia)) as [_ Hapart].
  apply Hapart. lia.
Defined.





Lemma round_robin_is_fair_witness :
  pool_wf example_pool /\ queues_ok example_pool /\ num_workers example_pool <> 0 /\
  0 <= _next_queue example_pool /\
  _next_queue example_pool + Z.of_nat (length [task_of 1%nat; task_of 2%nat]) < 2 ^ 64 /\
  notified (run (R:=unit)
              (for_each [task_of 1%nat; task_of 2%nat]
                 (silent_async example_moved (_owner example_pool)))
              example_pool).2.2 ≡ₚ seqZ 0 (num_workers example_pool).
Proof.
  assert (H : num_workers example_pool <> 0) by (vm_compute; discriminate).
  assert (H0 : 0 <= _next_queue example_pool) by (vm_compute; discriminate).
  assert (Hb : _next_queue example_pool
               + Z.of_nat (length [task_of 1%nat; task_of 2%nat]) < 2 ^ 64)
    by (vm_compute; reflexivity).
  split; [exact example_pool_wf|]. split; [exact example_pool_queues_ok|].
  split; [exact H|]. split; [exact H0|]. split; [exact Hb|].
  destruct (round_robin_is_fair (R:=unit) example_moved example_pool
              [task_of 1%nat; task_of 2%nat] example_pool_wf example_pool_queues_ok
              H H0 Hb) as (_ & _ & _ & Hfair).
  apply Hfair. reflexivity.
Defined.

Lemma nonempty_queue_finds_first_witness :
  _nonempty_queue example_pool_busy < Z.of_nat (length (_works example_pool_busy)) /\
  exists wk, _works example_pool_busy !! Z.to_nat (_nonempty_queue example_pool_busy)
             = Some wk /\ empty (queue wk) = false.
Proof.
  assert (H : _nonempty_queue example_pool_busy
              < Z.of_nat (length (_works example_pool_busy)))
    by (vm_compute; reflexivity).
  split; [exact H|].
  destruct (nonempty_queue_finds_first example_pool_busy) as (_ & _ & Hat & _).
  apply (Hat H).
Defined.

Lemma steal_is_safe_witness :
  pool_wf example_pool_busy /\ 1 <= num_workers example_pool_busy <= 2 ^ 63 /\
  _coprimes example_pool_busy = compute_coprimes (num_workers example_pool_busy) /\
  NoDup (probed (run (R:=unit) (_steal example_moved task_null 1) example_pool_busy).2.2).
Proof.
  assert (Hwf : pool_wf example_pool_busy).
  { apply (silent_async_wf (R:=unit) example_moved example_pool _ 0%nat (task_of 7%nat)
             (Returned tt) [EvNotifyWorker 1] example_pool_wf).
    vm_compute. reflexivity. }
  assert (HW : 1 <= num_workers example_pool_busy <= 2 ^ 63)
    by (vm_compute; split; discriminate).
  assert (Hc : _coprimes example_pool_busy
               = compute_coprimes (num_workers example_pool_busy))
    by (vm_compute; reflexivity).
  split; [exact Hwf|]. split; [exact HW|]. split; [exact Hc|].
  apply (steal_is_safe (R:=unit) example_moved example_pool_busy task_null 1 Hwf HW Hc).
Defined.

Lemma example_pool_busy_queues_ok : queues_ok example_pool_busy.
Proof.
  destruct (round_robin_step (R:=unit) example_moved example_pool 0%nat (task_of 7%nat)
              example_pool_wf example_pool_queues_ok ltac:(vm_compute; discriminate)
              (or_introl eq_refl))
    as (p' & tr & Hrun & _ & _ & _ & Hq & _).
  change example_pool_busy
    with (run (R:=unit) (silent_async example_moved 0%nat (task_of 7%nat)) example_pool).2.1.
  rewrite Hrun. exact Hq.
Qed.

Lemma steal_takes_one_task_witness :
  run (R:=unit) (_steal example_moved task_null 1) example_pool_busy
    = (Returned (true, task_of 7%nat, 270369),
       ((run (R:=unit) (_steal example_moved task_null 1) example_pool_busy).2.1,
        [EvProbe 1])) /\
  pending (run (R:=unit) (_steal example_moved task_null 1) example_pool_busy).2.1
    = pending example_pool_busy - 1.
Proof.
  assert (H : run (R:=unit) (_steal example_moved task_null 1) example_pool_busy
              = (Returned (true, task_of 7%nat, 270369),
                 ((run (R:=unit) (_steal example_moved task_null 1)
                     example_pool_busy).2.1,
                  [EvProbe 1])))
    by (vm_compute; reflexivity).
  split; [exact H|].
  destruct (steal_takes_one_task (R:=unit) example_moved example_pool_busy _
              task_null _ 1 _ true _ H) as [_ Htrue].
  destruct (Htrue eq_refl example_pool_busy_queues_ok)
    as (v & wk & q' & _ & _ & _ & _ & _ & Hp).
  exact Hp.
Defined.

Lemma constructor_builds_pool_witness :
  0 <= 2 < 2 ^ 32 /\
  (forall i j, 0 <= i < 2 -> 0 <= j < 2 -> example_fresh i = example_fresh j -> i = j) /\
  _worker_map example_pool !! example_fresh 1 = Some 1.
Proof.
  assert (Hinj : forall i j, 0 <= i < 2 -> 0 <= j < 2 ->
                   example_fresh i = example_fresh j -> i = j)
    by (unfold example_fresh; intros; lia).
  split; [lia|]. split; [exact Hinj|].
  destruct (constructor_builds_pool (Callable:=nat) (R:=unit) 0%nat example_fresh 2
              ltac:(lia) Hinj) as (_ & _ & _ & _ & _ & _ & _ & Hreg & _).
  apply (Hreg 1). lia.
Defined.

Lemma shutdown_terminates_every_worker_witness :
  pool_wf example_pool_synced /\ queues_ok example_pool_synced /\
  _threads example_pool_synced <> [] /\ _sync example_pool_synced = true /\
  (run (R:=unit) (shutdown example_moved (_owner example_pool_synced))
     example_pool_synced).1 = Waits OnJoin.
Proof.
  assert (Ht : _threads example_pool_synced <> []) by (vm_compute; discriminate).
  split; [exact example_pool_synced_wf|]. split; [exact example_pool_synced_queues_ok|].
  split; [exact Ht|]. split; [reflexivity|].
  destruct (shutdown_terminates_every_worker (R:=unit) example_moved example_pool_synced
              example_pool_synced_wf example_pool_synced_queues_ok Ht) as [_ Hsync].
  apply Hsync. reflexivity.
Defined.

Lemma async_defers_to_workers_witness :
  num_workers example_pool <> 0 /\ pool_wf example_pool /\ queues_ok example_pool /\
  (run (R:=nat) (async (fun c : nat => (c + 1)%nat) example_moved 0%nat 41%nat)
     example_pool).1 = Returned None.
Proof.
  assert (H : num_workers example_pool <> 0) by (vm_compute; discriminate).
  split; [exact H|]. split; [exact example_pool_wf|].
  split; [exact example_pool_queues_ok|].
  destruct (async_defers_to_workers (fun c : nat => (c + 1)%nat) example_moved
              example_pool 0%nat 41%nat H) as (_ & _ & _ & _ & Hret).
  apply (Hret example_pool_wf example_pool_queues_ok).
Defined.

Lemma respawn_keeps_old_workers_witness :
  _threads example_pool_synced <> [] /\ 0 <= 2 /\
  num_workers example_pool_synced + 2 < 2 ^ 64 /\ _sync example_pool_synced = true /\
  num_workers (run (R:=unit) (spawn (_owner example_pool_synced)
                                (fun i => Z.to_nat (i + 3)) 2)
                 example_pool_synced).2.1 = num_workers example_pool_synced + 2.
Proof.
  assert (Ht : _threads example_pool_synced <> []) by (vm_compute; discriminate).
  assert (Hb : num_workers example_pool_synced + 2 < 2 ^ 64) by (vm_compute; reflexivity).
  split; [exact Ht|]. split; [lia|]. split; [exact Hb|]. split; [reflexivity|].
  destruct (respawn_keeps_old_workers (R:=unit) example_pool_synced
              (fun i => Z.to_nat (i + 3)) 2 Ht ltac:(lia) Hb) as [_ Hsync].
  apply Hsync. reflexivity.
Defined.

Lemma example_pool_busy_wf : pool_wf example_pool_busy.
Proof.
  apply (silent_async_wf (R:=unit) example_moved example_pool _ 0%nat (task_of 7%nat)
           (Returned tt) [EvNotifyWorker 1] example_pool_wf).
  vm_compute. reflexivity.
Qed.

Lemma example_pool_asleep_wf : pool_wf example_pool_asleep.
Proof. destruct example_pool_wf as [H1 H2]. split; [exact H1|exact H2]. Qed.

Lemma example_pool_asleep_queues_ok : queues_ok example_pool_asleep.
Proof. exact example_pool_queues_ok. Qed.

Lemma worker_takes_tasks_in_priority_order_witness :
  _exiting example_pool_busy = false /\
  (run (R:=unit) (worker_run example_moved 1 AtLoopHead 1 task_null 2)
     example_pool_busy).1 = Returned (StopTask, task_of 7%nat, 2).
Proof.
  split; [reflexivity|].
  set (wk := default (mkWorker (RunQueue_ctor task_null WorkQueue_log2N))
               (_works example_pool_busy !! Z.to_nat 1)).
  assert (Hwk : _works example_pool_busy !! Z.to_nat 1 = Some wk)
    by (vm_compute; reflexivity).
  assert (HW : 1 <= num_workers example_pool_busy <= 2 ^ 63)
    by (vm_compute; split; discriminate).
  assert (Hcop : _coprimes example_pool_busy
                 = compute_coprimes (num_workers example_pool_busy))
    by (vm_compute; reflexivity).
  assert (Hc : contents task_null WorkQueue_log2N (queue wk) = [] ++ [task_of 7%nat])
    by (vm_compute; reflexivity).
  destruct (worker_takes_tasks_in_priority_order (R:=unit) example_moved
              example_pool_busy 1 wk task_null 2 0%nat
              example_pool_busy_wf example_pool_busy_queues_ok HW Hcop eq_refl Hwk)
    as [Hown _].
  destruct (Hown [] (task_of 7%nat) Hc eq_refl) as (q' & Hgo & _).
  rewrite Hgo. reflexivity.
Defined.

Lemma worker_sleeps_when_nothing_waits_witness :
  pending example_pool = 0 /\
  exists tr1,
    run (R:=unit) (worker_run example_moved 2 AtLoopHead 0 task_null 1) example_pool
      = (Returned (StopCvWait false, task_null, 270369),
         (set_idle_workers 1 example_pool, tr1)).
Proof.
  assert (Hp : pending example_pool = 0) by (vm_compute; reflexivity).
  split; [exact Hp|].
  assert (HW : 1 <= num_workers example_pool <= 2 ^ 63)
    by (vm_compute; split; discriminate).
  assert (Hcop : _coprimes example_pool = compute_coprimes (num_workers example_pool))
    by (vm_compute; reflexivity).
  assert (Hi : 0 <= 0 < num_workers example_pool)
    by (vm_compute; split; [discriminate|reflexivity]).
  destruct (worker_sleeps_when_nothing_waits (R:=unit) example_moved example_pool 0
              task_null 1 0%nat example_pool_wf example_pool_queues_ok HW Hcop Hi
              eq_refl Hp) as [(tr1 & _ & _ & Hrun) _].
  exists tr1. exact Hrun.
Defined.

Lemma sync_raised_only_at_quiescence_witness :
  pending example_pool_busy + 4 <= Z.of_nat 5 /\
  exists stop t' dice',
    (run (R:=unit) (worker_run example_moved 5 AtLoopHead 0 task_null 1)
       example_pool_busy).1 = Returned (stop, t', dice').
Proof.
  assert (Hf : pending example_pool_busy + 4 <= Z.of_nat 5)
    by (vm_compute; discriminate).
  split; [exact Hf|].
  assert (HW : 1 <= num_workers example_pool_busy <= 2 ^ 63)
    by (vm_compute; split; discriminate).
  assert (Hcop : _coprimes example_pool_busy
                 = compute_coprimes (num_workers example_pool_busy))
    by (vm_compute; reflexivity).
  assert (Hi : 0 <= 0 < num_workers example_pool_busy)
    by (vm_compute; split; [discriminate|reflexivity]).
  assert (Hidle : 0 <= _idle_workers example_pool_busy < 2 ^ 64)
    by (vm_compute; split; [discriminate|reflexivity]).
  destruct (sync_raised_only_at_quiescence (R:=unit) example_moved example_pool_busy
              AtLoopHead 0 task_null 1 5%nat
              example_pool_busy_wf example_pool_busy_queues_ok HW Hcop Hi Hidle
              eq_refl Hf) as (stop & t' & dice' & Hr & _).
  exists stop, t', dice'. exact Hr.
Defined.

Lemma worker_reaches_stop_witness :
  pending example_pool + 4 <= Z.of_nat 4 /\
  exists stop t' dice',
    (run (R:=unit) (worker_run example_moved 4 AfterTask 1 task_null 1)
       example_pool).1 = Returned (stop, t', dice') /\ stop <> StopFuel.
Proof.
  assert (Hf : pending example_pool + 4 <= Z.of_nat 4) by (vm_compute; discriminate).
  split; [exact Hf|].
  assert (HW : 1 <= num_workers example_pool <= 2 ^ 63)
    by (vm_compute; split; discriminate).
  assert (Hcop : _coprimes example_pool = compute_coprimes (num_workers example_pool))
    by (vm_compute; reflexivity).
  assert (Hi : 0 <= 1 < num_workers example_pool)
    by (vm_compute; split; [discriminate|reflexivity]).
  assert (Hidle : 0 <= _idle_workers example_pool < 2 ^ 64)
    by (vm_compute; split; [discriminate|reflexivity]).
  destruct (worker_reaches_stop (R:=unit) example_moved example_pool
              AfterTask 1 task_null 1 4%nat
              example_pool_wf example_pool_queues_ok HW Hcop Hi Hidle
              eq_refl Hf) as (stop & t' & dice' & Hr & Hne & _).
  exists stop, t', dice'. split; [exact Hr|exact Hne].
Defined.

Lemma shutdown_ends_sleeping_worker_witness :
  _threads example_pool_synced <> [] /\ _sync example_pool_synced = true /\
  total_ready (_works example_pool_synced) = 0 /\
  (run (R:=unit) (worker_run example_moved 2 AfterCvWait 0 task_null 1)
     (run (R:=unit) (shutdown example_moved (_owner example_pool_synced))
        example_pool_synced).2.1).1 = Returned (StopTask, task_dummy, 1).
Proof.
  assert (Ht : _threads example_pool_synced <> []) by (vm_compute; discriminate).
  assert (Hz : total_ready (_works example_pool_synced) = 0) by (vm_compute; reflexivity).
  assert (Hi : 0 <= 0 < num_workers example_pool_synced)
    by (vm_compute; split; [discriminate|reflexivity]).
  split; [exact Ht|]. split; [reflexivity|]. split; [exact Hz|].
  destruct (shutdown_ends_sleeping_worker (R:=unit) example_moved example_pool_synced
              0 task_null 1 0%nat 0%nat
              example_pool_synced_wf example_pool_synced_queues_ok Ht eq_refl Hz Hi)
    as (_ & Hr2 & _).
  exact Hr2.
Defined.

Lemma submitted_task_reaches_notified_worker_witness :
  pending example_pool_asleep = 0 /\ 1 <= _idle_workers example_pool_asleep < 2 ^ 64 /\
  (run (R:=unit) (worker_run example_moved 2 AfterCvWait 1 task_null 1)
     (run (R:=unit) (silent_async example_moved (_owner example_pool_asleep)
                       (task_of 7%nat)) example_pool_asleep).2.1).1
    = Returned (StopTask, task_of 7%nat, 1).
Proof.
  assert (Hp : pending example_pool_asleep = 0) by (vm_compute; reflexivity).
  assert (Hidle : 1 <= _idle_workers example_pool_asleep < 2 ^ 64)
    by (vm_compute; split; [discriminate|reflexivity]).
  assert (HW : 1 <= num_workers example_pool_asleep <= 2 ^ 63)
    by (vm_compute; split; discriminate).
  assert (Hcop : _coprimes example_pool_asleep
                 = compute_coprimes (num_workers example_pool_asleep))
    by (vm_compute; reflexivity).
  split; [exact Hp|]. split; [exact Hidle|].
  destruct (submitted_task_reaches_notified_worker (R:=unit) example_moved
              example_pool_asleep (task_of 7%nat) task_null 1 0%nat 0%nat
              example_pool_asleep_wf example_pool_asleep_queues_ok HW Hcop eq_refl Hp
              Hidle eq_refl) as (_ & _ & _ & Hr2 & _).
  exact Hr2.
Defined.

Lemma wait_for_all_round_trip_witness :
  pending example_pool_asleep = 0 /\
  _idle_workers example_pool_asleep = num_workers example_pool_asleep /\
  run (R:=unit) (bind await_sync (fun _ => wait_for_all_tail))
    (run (R:=unit) (worker_run example_moved 2 AfterCvWait 0 task_null 1)
       (run (R:=unit) (wait_for_all (_owner example_pool_asleep))
          example_pool_asleep).2.1).2.1
    = (Returned tt, (example_pool_asleep, [EvUnlock])).
Proof.
  assert (Hp : pending example_pool_asleep = 0) by (vm_compute; reflexivity).
  assert (Hid : _idle_workers example_pool_asleep = num_workers example_pool_asleep)
    by (vm_compute; reflexivity).
  assert (HW : 1 <= num_workers example_pool_asleep <= 2 ^ 63)
    by (vm_compute; split; discriminate).
  assert (Hi : 0 <= 0 < num_workers example_pool_asleep)
    by (vm_compute; split; [discriminate|reflexivity]).
  split; [exact Hp|]. split; [exact Hid|].
  destruct (wait_for_all_round_trip (R:=unit) example_moved example_pool_asleep
              0 task_null 1 0%nat
              example_pool_asleep_wf example_pool_asleep_queues_ok HW Hi Hp Hid
              eq_refl eq_refl) as (_ & _ & _ & _ & _ & Hr3 & _).
  exact Hr3.
Defined.

Lemma worker_runs_own_subtask_next_witness :
  1%nat <> _owner example_pool /\ _worker_map example_pool !! 1%nat = Some 0 /\
  (run (R:=unit) (worker_run example_moved 2 AfterTask 0 task_null 1)
     (run (R:=unit) (silent_async example_moved 1%nat (task_of 7%nat))
        example_pool).2.1).1 = Returned (StopTask, task_of 7%nat, 1).
Proof.
  set (wk := default (mkWorker (RunQueue_ctor task_null WorkQueue_log2N))
               (_works example_pool !! Z.to_nat 0)).
  assert (Hwk : _works example_pool !! Z.to_nat 0 = Some wk)
    by (vm_compute; reflexivity).
  assert (Hne : 1%nat <> _owner example_pool) by (vm_compute; discriminate).
  assert (Hmap : _worker_map example_pool !! 1%nat = Some 0) by (vm_compute; reflexivity).
  assert (HW : num_workers example_pool <> 0) by (vm_compute; discriminate).
  assert (Hroom : num_ready (queue wk) < N WorkQueue_log2N) by (vm_compute; reflexivity).
  split; [exact Hne|]. split; [exact Hmap|].
  destruct (worker_runs_own_subtask_next (R:=unit) example_moved example_pool 1%nat 0 wk
              (task_of 7%nat) task_null 1 0%nat
              example_pool_wf example_pool_queues_ok HW Hne Hmap Hwk eq_refl)
    as [Hroom' _].
  destruct (Hroom' Hroom eq_refl) as (_ & _ & Hr2 & _).
  exact Hr2.
Defined.
